(** * AzureBlockUpload: block planning, block identifiers and the upload jobs

    A shallow embedding of [AzureBlockUpload.js]: the constructor and
    [analizeFile] (the block plan), the block identifier
    [base64(prefix + padStart(nBlock, 5))], and [start] with its [job]
    closure, run under every interleaving of the asynchronous jobs.

    Numbers.  The sizes the class computes with are byte counts: JavaScript
    numbers that hold integers, on which [+], [-], [*] and [<] are exact.
    They are modelled by [Z]; the results of [%] and [/] that are not
    integers ([NaN], the infinities, a proper fraction) are the other
    constructors of [num].  A number handed to the constructor in [opts] is
    an integer as well ([VNumber]): a block size or a number of simultaneous
    uploads with a fractional part is outside the embedding.

    Strings.  A JavaScript string is held as its UTF-8 bytes, the bytes
    [Buffer.from(str)] gives ([string] of the standard library).  [base64]
    encodes these bytes: it is [Buffer.from(str).toString("base64")], the
    branch of the source's [base64] outside the browser, and it is
    [window.btoa(str)] as long as [str] is ASCII.  [window.btoa] itself,
    which takes one byte for each character and throws on a character above
    U+00FF, is [btoa].

    Identifiers.  The computation of a block identifier can throw: the
    conversion of the prefix to a string does on a symbol, and [window.btoa]
    on a character above U+00FF.  The job below is the job in which it
    returns; the job with the errors of the computation, on either
    platform, is embedded in the module [App] and related to the one below.

    Jobs.  JavaScript runs a job without interruption from one [await] to
    the next, so a step of the model is the code of one job between two
    [await]s, and a run is a list of such steps in any order.  The
    callbacks are taken to return normally.

    The class exists in two versions.  The embedding follows the later one;
    the earlier one, the same [analizeFile] and the same [job] with the
    fixed prefix ["chunk"] and without a key, is embedded in the module
    [Earlier] and related to the later one step by step. *)

From Stdlib Require Import ZArith Ascii String List DecimalString DecimalNat DecimalZ Lia.
From stdpp Require Import base numbers list gmap strings.

Local Open Scope Z_scope.

(** ** JavaScript values and numbers *)

Definition Error := string.

Inductive result (A : Type) :=
| Ok (a : A)
| Err (e : Error).
Arguments Ok {A} a.
Arguments Err {A} e.

(** The values the constructor can be handed as [url], [file] and as the
    fields of [opts].  An object that is no [File] comes with what its
    conversion to a string returns or throws: ["[object Object]"] for a plain
    object. *)
Inductive value :=
| VUndefined
| VNull
| VBool (b : bool)
| VNumber (z : Z)
| VNaN
| VString (s : string)
| VSymbol
| VFile (name : string) (size : Z) (type : string)
| VObject (string_form : result string).

Inductive jstype := TUndefined | TObject | TBoolean | TNumber | TString | TSymbol.

Definition typeof (v : value) : jstype :=
  match v with
  | VUndefined => TUndefined
  | VNull => TObject
  | VBool _ => TBoolean
  | VNumber _ => TNumber
  | VNaN => TNumber
  | VString _ => TString
  | VSymbol => TSymbol
  | VFile _ _ _ => TObject
  | VObject _ => TObject
  end.

Definition jstype_eqb (a b : jstype) : bool :=
  match a, b with
  | TUndefined, TUndefined | TObject, TObject | TBoolean, TBoolean
  | TNumber, TNumber | TString, TString | TSymbol, TSymbol => true
  | _, _ => false
  end.

(** ToBoolean, as [&&] and [||] apply it. *)
Definition truthy (v : value) : bool :=
  match v with
  | VUndefined | VNull | VNaN => false
  | VBool b => b
  | VNumber z => negb (z =? 0)
  | VString s => negb (String.eqb s EmptyString)
  | VSymbol | VFile _ _ _ | VObject _ => true
  end.

(** [a || b] *)
Definition js_or (a b : value) : value := if truthy a then a else b.

Definition instanceof_File (v : value) : bool :=
  match v with VFile _ _ _ => true | _ => false end.

(** The decimal digits of an integer: what a template literal renders of a
    byte count, an integer below [2 ^ 53]. *)
Definition string_of_Z (z : Z) : string := NilZero.string_of_int (Z.to_int z).

(** The decimal digits of a block index: the counter of the loop of [start],
    which counts from 0 in steps of 1 and so stays below [2 ^ 53]. *)
Definition string_of_nat (n : nat) : string := NilZero.string_of_uint (Nat.to_uint n).

(** The double nearest to an integer, ties to the even significand: an
    integer below [2 ^ 53] in absolute value is a double, a larger one is
    rounded to 53 significant bits. *)
Definition double_of (z : Z) : Z :=
  let a := Z.abs z in
  if a <? 2 ^ 53 then z
  else
    let ulp := 2 ^ (Z.log2 a - 52) in
    let q := a / ulp in
    let r := a mod ulp in
    let up := if 2 * r <? ulp then false
              else if ulp <? 2 * r then true
              else Z.odd q in
    Z.sgn z * ((if up then q + 1 else q) * ulp).

(** The decimal numeral with the fewest significant digits that reads back
    as the double [a > 0], and among those the nearest to [a]: the digits
    Number::toString prints.  [k] is the number of digits tried; 17 digits
    tell any two doubles apart. *)
Fixpoint shortest_digits (fuel : nat) (k : Z) (a : Z) : Z :=
  match fuel with
  | O => a
  | S fuel' =>
    let n := Z.of_nat (String.length (string_of_Z a)) in
    if n <=? k then a
    else
      let p := 10 ^ (n - k) in
      let lo := (a / p) * p in
      let hi := lo + p in
      match double_of lo =? a, double_of hi =? a with
      | true, true =>
        if a - lo <? hi - a then lo
        else if hi - a <? a - lo then hi
        else if Z.even (a / p) then lo else hi
      | true, false => lo
      | false, true => hi
      | false, false => shortest_digits fuel' (k + 1) a
      end
  end.

(** A string without its trailing zeros. *)
Fixpoint drop_zeros (s : string) : string :=
  match s with
  | EmptyString => EmptyString
  | String c rest =>
    match drop_zeros rest with
    | EmptyString => if Ascii.eqb c "0" then EmptyString else String c EmptyString
    | rest' => String c rest'
    end
  end.

(** Number::toString of the number a literal of value [z] denotes: the
    digits of an integer of up to 21 digits, all of them below [2 ^ 53] and
    the shortest that read back beyond; the exponent form from [1e+21] on;
    [Infinity] from [2 ^ 1024] on. *)
Definition Number_toString (z : Z) : string :=
  let d := double_of z in
  if d =? 0 then "0"
  else if 2 ^ 1024 <=? Z.abs d then (if d <? 0 then "-Infinity" else "Infinity")
  else
    let digits := string_of_Z (shortest_digits 17 1 (Z.abs d)) in
    let n := String.length digits in
    let sign := if d <? 0 then "-" else "" in
    if (n <=? 21)%nat then sign +:+ digits
    else
      match drop_zeros digits with
      | String c EmptyString =>
        sign +:+ String c ("e+" +:+ string_of_Z (Z.of_nat n - 1))
      | String c rest =>
        sign +:+ String c ("." +:+ rest +:+ "e+" +:+ string_of_Z (Z.of_nat n - 1))
      | EmptyString => sign +:+ digits
      end.

(** The [TypeError] of the conversion of a symbol to a string. *)
Definition symbol_error : Error :=
  "TypeError: Cannot convert a Symbol value to a string".

(** ToString, as a template literal applies it: it throws on a symbol, and
    on an object when the conversion of the object throws. *)
Definition to_string (v : value) : result string :=
  match v with
  | VUndefined => Ok "undefined"
  | VNull => Ok "null"
  | VBool true => Ok "true"
  | VBool false => Ok "false"
  | VNumber z => Ok (Number_toString z)
  | VNaN => Ok "NaN"
  | VString s => Ok s
  | VSymbol => Err symbol_error
  | VFile _ _ _ => Ok "[object File]"
  | VObject string_form => string_form
  end.

(** The string a value is converted to, for a value whose conversion
    returns. *)
Definition string_form (v : value) : string :=
  match to_string v with
  | Ok str => str
  | Err _ => EmptyString
  end.

(** A result of [%], [/] or [Math.ceil] on integers. [Frac a b] is the
    quotient [a / b] when [b] is not zero and does not divide [a]. *)
Inductive num :=
| NaN
| Infinity (negative : bool)
| Fin (z : Z)
| Frac (a b : Z).

(** [a % b]: the remainder has the sign of the dividend; [NaN] when [b] is 0. *)
Definition js_rem (a b : Z) : num :=
  if b =? 0 then NaN else Fin (Z.rem a b).

(** [a / b] *)
Definition js_div (a b : Z) : num :=
  if b =? 0 then
    (if a =? 0 then NaN else Infinity (a <? 0))
  else if Z.rem a b =? 0 then Fin (Z.quot a b)
  else Frac a b.

(** [Math.ceil] *)
Definition Math_ceil (x : num) : num :=
  match x with
  | Frac a b => Fin (- ((- a) / b))
  | _ => x
  end.

(** [x === 0] *)
Definition is_zero (x : num) : bool :=
  match x with Fin 0 => true | _ => false end.

(** [n < x] for a loop counter [n]. *)
Definition js_lt (n : Z) (x : num) : bool :=
  match x with
  | NaN => false
  | Infinity negative => negb negative
  | Fin z => n <? z
  | Frac a b => n <? - ((- a) / b)
  end.

(** The number of iterations of [for (n = 0; n < x; n += 1)]; [None] when
    the loop does not end. *)
Definition loop_count (x : num) : option nat :=
  match x with
  | NaN => Some 0%nat
  | Infinity true => Some 0%nat
  | Infinity false => None
  | Fin z => Some (Z.to_nat z)
  | Frac a b => Some (Z.to_nat (- ((- a) / b)))
  end.

(** ** The constructor and the block plan *)

(** What the class reads from its surroundings: whether the [File]
    constructor exists ([typeof File === "function"]), [FileUtils.getSize],
    [FileUtils.getType] and [BlobStorage.BLOCK_MAX_SIZE]. *)
Record Platform := {
  File_is_function : bool;
  getSize : value -> Z;
  getType : value -> string;
  BLOCK_MAX_SIZE : Z
}.

Record Opts := {
  opt_blockIDPrefix : value;
  opt_blockSize : value;
  opt_simultaneousUploads : value
}.

(** The fields of an [AzureBlockUpload] object. *)
Record AzureBlockUpload := {
  url : string;
  file : value;
  blockSize : Z;
  simultaneousUploads : Z;
  blockIDPrefix : value;
  fileSize : Z;
  fileType : string;
  currentFilePointer : Z;
  totalRemainingBytes : Z;
  totalBlocks : num
}.

Definition number_or (v : value) (default : Z) : Z :=
  match js_or v (VNumber default) with
  | VNumber z => z
  | _ => default
  end.

(** [analizeFile()] *)
Definition analizeFile (P : Platform) (this : AzureBlockUpload) : AzureBlockUpload :=
  let size := getSize P (file this) in
  let bs := if size <? blockSize this then size else blockSize this in
  {| url := url this;
     file := file this;
     blockSize := bs;
     simultaneousUploads := simultaneousUploads this;
     blockIDPrefix := blockIDPrefix this;
     fileSize := size;
     fileType := getType P (file this);
     currentFilePointer := 0;
     totalRemainingBytes := size;
     totalBlocks :=
       if is_zero (js_rem size bs) then js_div size bs
       else Math_ceil (js_div size bs) |}.

(** The third argument of the constructor: left out or [undefined], for
    which the default [{}] stands; [null]; or an object.  A number, a string
    or a boolean handed over as [opts] has none of the fields, as the object
    whose fields are all [undefined], and an object is that of its fields. *)
Inductive OptsArgument :=
| opts_undefined
| opts_null
| opts_object (o : Opts).

Coercion opts_object : Opts >-> OptsArgument.

(** [{}] *)
Definition empty_opts : Opts :=
  {| opt_blockIDPrefix := VUndefined;
     opt_blockSize := VUndefined;
     opt_simultaneousUploads := VUndefined |}.

(** The object whose fields the constructor reads; none for [null]. *)
Definition opts_fields (opts : OptsArgument) : option Opts :=
  match opts with
  | opts_undefined => Some empty_opts
  | opts_null => None
  | opts_object o => Some o
  end.

(** The [TypeError] of [opts.blockSize] when [opts] is [null]. *)
Definition null_opts_error : Error :=
  "TypeError: Cannot read properties of null (reading 'blockSize')".

(** [new AzureBlockUpload(url, file, opts)]: [Err] is a thrown error. *)
Definition constructor (P : Platform) (url_ file_ : value) (opts : OptsArgument)
  : result AzureBlockUpload :=
  match url_ with
  | VString u =>
    if File_is_function P && negb (instanceof_File file_) then
      Err "file must be instance of File"
    else if negb (File_is_function P) && negb (jstype_eqb (typeof file_) TString) then
      Err "file must be instance of string"
    else
      match opts_fields opts with
      | None => Err null_opts_error
      | Some opts =>
        if truthy (opt_blockSize opts)
           && negb (jstype_eqb (typeof (opt_blockSize opts)) TNumber) then
          Err "blockSize must be a number"
        else if truthy (opt_simultaneousUploads opts)
                && negb (jstype_eqb (typeof (opt_simultaneousUploads opts)) TNumber) then
          Err "simultaneousUploads must be a number"
        else
          Ok (analizeFile P
                {| url := u;
                   file := file_;
                   blockSize := number_or (opt_blockSize opts) (BLOCK_MAX_SIZE P);
                   simultaneousUploads := number_or (opt_simultaneousUploads opts) 3;
                   blockIDPrefix := js_or (opt_blockIDPrefix opts) (VString "block");
                   fileSize := 0;
                   fileType := EmptyString;
                   currentFilePointer := 0;
                   totalRemainingBytes := 0;
                   totalBlocks := Fin 0 |})
      end
  | _ => Err "url must be a string"
  end.

(** The byte range of block [nBlock], as [job] computes [from] and [to]. *)
Definition block_from (this : AzureBlockUpload) (nBlock : nat) : Z :=
  Z.of_nat nBlock * blockSize this.

Definition block_to (this : AzureBlockUpload) (nBlock : nat) : Z :=
  if (Z.of_nat nBlock + 1) * blockSize this <? fileSize this
  then (Z.of_nat nBlock + 1) * blockSize this
  else fileSize this.

(** The ranges of the jobs [start] submits, in submission order. *)
Definition block_ranges (this : AzureBlockUpload) : option (list (Z * Z)) :=
  match loop_count (totalBlocks this) with
  | Some k => Some (map (fun n => (block_from this n, block_to this n)) (seq 0 k))
  | None => None
  end.

Definition range_length (r : Z * Z) : Z := snd r - fst r.

Definition sum_lengths (rs : list (Z * Z)) : Z :=
  fold_right Z.add 0 (map range_length rs).

(** ** Block identifiers *)

(** Six bits, most significant first: one base64 digit. *)
Definition sextet : Type := bool * bool * bool * bool * bool * bool.

Definition bit (b : bool) : nat := if b then 1%nat else 0%nat.

Definition sextet_index (s : sextet) : nat :=
  let '(b5, b4, b3, b2, b1, b0) := s in
  (32 * bit b5 + 16 * bit b4 + 8 * bit b3 + 4 * bit b2 + 2 * bit b1 + bit b0)%nat.

Definition base64_alphabet : string :=
  "ABCDEFGHIJKLMNOPQRSTUVWXYZabcdefghijklmnopqrstuvwxyz0123456789+/".

Definition base64_pad : ascii := "="%char.

Definition base64_digit (s : sextet) : ascii :=
  nth (sextet_index s) (list_ascii_of_string base64_alphabet) base64_pad.

(** The four digits of three bytes, the three digits of two bytes and the
    two digits of one byte (the missing low bits are zero). *)
Definition digits3 (a b c : ascii) : sextet * sextet * sextet * sextet :=
  let '(Ascii a0 a1 a2 a3 a4 a5 a6 a7) := a in
  let '(Ascii b0 b1 b2 b3 b4 b5 b6 b7) := b in
  let '(Ascii c0 c1 c2 c3 c4 c5 c6 c7) := c in
  ((a7, a6, a5, a4, a3, a2), (a1, a0, b7, b6, b5, b4),
   (b3, b2, b1, b0, c7, c6), (c5, c4, c3, c2, c1, c0)).

(** [Buffer.from(str).toString("base64")]: the base64 digits of the UTF-8
    bytes of [str], which are [str] as it is held here. *)
Fixpoint base64 (str : string) : string :=
  match str with
  | EmptyString => EmptyString
  | String a EmptyString =>
    let '(s1, s2, _, _) := digits3 a zero zero in
    String (base64_digit s1) (String (base64_digit s2)
      (String base64_pad (String base64_pad EmptyString)))
  | String a (String b EmptyString) =>
    let '(s1, s2, s3, _) := digits3 a b zero in
    String (base64_digit s1) (String (base64_digit s2)
      (String (base64_digit s3) (String base64_pad EmptyString)))
  | String a (String b (String c rest)) =>
    let '(s1, s2, s3, s4) := digits3 a b c in
    String (base64_digit s1) (String (base64_digit s2)
      (String (base64_digit s3) (String (base64_digit s4) (base64 rest))))
  end.

Fixpoint spaces (k : nat) : string :=
  match k with
  | O => EmptyString
  | S k' => String " " (spaces k')
  end.

(** lodash's [padStart(string, length)] with [chars] left undefined, as [job]
    calls it: a string shorter than [length] is padded on the left with
    spaces, a longer one is returned as it is. *)
Definition padStart (str : string) (length : nat) : string :=
  let strLength := String.length str in
  if (strLength <? length)%nat then spaces (length - strLength) +:+ str
  else str.

(** [base64(`${this.blockIDPrefix}${padStart(nBlock, 5)}`)], where the
    conversion of the prefix to a string returns; the identifier with the
    errors of its computation is [App.blockID]. *)
Definition blockID (this : AzureBlockUpload) (nBlock : nat) : string :=
  base64 (string_form (blockIDPrefix this) +:+ padStart (string_of_nat nBlock) 5).

(** What the spec's words describe instead: the index as five decimal digits,
    padded on the left with zeros. *)
Fixpoint zeros (k : nat) : string :=
  match k with
  | O => EmptyString
  | S k' => String "0" (zeros k')
  end.

Definition zero_padded5 (nBlock : nat) : string :=
  let s := string_of_nat nBlock in
  zeros (5 - String.length s) +:+ s.

(** The base64 digit read back: the sextet whose digit it is. *)
Definition all_sextets : list sextet :=
  let bools := [false; true] in
  b5 ← bools; b4 ← bools; b3 ← bools; b2 ← bools; b1 ← bools; b0 ← bools;
  [(b5, b4, b3, b2, b1, b0)].

Definition sextet_of_digit (c : ascii) : option sextet :=
  List.find (fun s => Ascii.eqb (base64_digit s) c) all_sextets.

(** A string without its leading spaces. *)
Fixpoint drop_spaces (s : string) : string :=
  match s with
  | String " " rest => drop_spaces rest
  | _ => s
  end.

Definition starts_with_space (s : string) : bool :=
  match s with
  | String " " _ => true
  | _ => false
  end.

(** ** The collaborators of [start] *)

(** [FileUtils.readBlock], [crypto.randomBytes] (the bytes its call in job
    [nBlock] returns), [Cryppo.encryptWithKeyUsingArtefacts] (the
    [encrypted] string and [artifacts.at] of its result), [BlobStorage.putBlock]
    and [BlobStorage.putBlockList].  [Err] is a thrown error or a rejected
    promise. *)
Record Collaborators := {
  readBlock : value -> Z -> Z -> result string;
  randomBytes : nat -> string;
  encryptWithKeyUsingArtefacts : value -> string -> string -> result (string * string);
  putBlock : string -> string -> string -> result unit;
  putBlockList : string -> list string -> string -> result unit
}.

(** [Cryppo.CipherStrategy.AES_GCM] *)
Definition AES_GCM : string := "AES-GCM".

(** The [artifacts] object of [start]; its arrays are sparse, written by
    index. *)
Record Artifacts := {
  iv : gmap nat string;
  ad : string;
  at_ : gmap nat string;
  range : gmap nat string;
  encryption_stratergy : string
}.

(** What [start] does to the outside: the calls of its collaborators, each
    with the block whose job makes it, and the calls of the callbacks. *)
Inductive Event :=
| CallReadBlock (nBlock : nat) (from to : Z)
| CallPutBlock (nBlock : nat) (data blockID : string)
| CallPutBlockList (nBlock : nat) (blockIDList : list string) (fileType : string)
| OnProgress (progress : num) (fileName : value)
| OnSuccess (artifacts : Artifacts)
| OnError (error : Error).

(** The promise [start] returns; [resolve] and [reject] settle it once. *)
Inductive Promise :=
| Pending
| Resolved (v : value)
| Rejected (error : Error).

Definition resolve (v : value) (p : Promise) : Promise :=
  match p with Pending => Resolved v | _ => p end.

Definition reject (e : Error) (p : Promise) : Promise :=
  match p with Pending => Rejected e | _ => p end.

(** Where a job stands: not started, suspended at one of its three [await]s
    on a promise that will settle with [r], or left, through the end of the
    [try] block or through [catch] (with the call that threw).  [AtBase64] is
    the computation of the identifier ([App]). *)
Inductive Stage := AtBase64 | AtRead | AtEncrypt | AtPutBlock | AtCommit.

Inductive Phase :=
| Queued
| AwaitRead (r : result string)
| AwaitPutBlock (r : result unit)
| AwaitCommit (r : result unit)
| Returned
| Caught (stage : Stage) (error : Error).

(** Modelled from the spec: [ThreadPool] (imported from [./ThreadPool], not
    among the sources) is the bounded executor of the spec: at most [size]
    tasks run at once, the others wait in submission order and start, first
    in first out, when a slot is free; a task that fails cancels no other.
    A task is named by the block of its job. *)
Record ThreadPool := {
  size : Z;
  running : Z;
  queue : list nat
}.

Record State := {
  remainingBytes : Z;            (* this.totalRemainingBytes *)
  blockIDList : list string;
  artifacts : Artifacts;
  promise : Promise;
  pool : ThreadPool;
  jobs : list Phase;
  trace : list Event
}.

Definition set_remainingBytes (z : Z) (s : State) : State :=
  {| remainingBytes := z; blockIDList := blockIDList s; artifacts := artifacts s;
     promise := promise s; pool := pool s; jobs := jobs s; trace := trace s |}.

Definition push_blockID (id : string) (s : State) : State :=
  {| remainingBytes := remainingBytes s; blockIDList := blockIDList s ++ [id];
     artifacts := artifacts s; promise := promise s; pool := pool s;
     jobs := jobs s; trace := trace s |}.

Definition set_artifacts (a : Artifacts) (s : State) : State :=
  {| remainingBytes := remainingBytes s; blockIDList := blockIDList s; artifacts := a;
     promise := promise s; pool := pool s; jobs := jobs s; trace := trace s |}.

Definition set_promise (p : Promise) (s : State) : State :=
  {| remainingBytes := remainingBytes s; blockIDList := blockIDList s;
     artifacts := artifacts s; promise := p; pool := pool s; jobs := jobs s;
     trace := trace s |}.

Definition set_pool (p : ThreadPool) (s : State) : State :=
  {| remainingBytes := remainingBytes s; blockIDList := blockIDList s;
     artifacts := artifacts s; promise := promise s; pool := p; jobs := jobs s;
     trace := trace s |}.

Definition set_job (nBlock : nat) (p : Phase) (s : State) : State :=
  {| remainingBytes := remainingBytes s; blockIDList := blockIDList s;
     artifacts := artifacts s; promise := promise s; pool := pool s;
     jobs := <[nBlock := p]> (jobs s); trace := trace s |}.

Definition emit (e : Event) (s : State) : State :=
  {| remainingBytes := remainingBytes s; blockIDList := blockIDList s;
     artifacts := artifacts s; promise := promise s; pool := pool s;
     jobs := jobs s; trace := trace s ++ [e] |}.

(** [artifacts.range[nBlock] = v], and the same for [iv] and [at]. *)
Definition set_range (nBlock : nat) (v : string) (a : Artifacts) : Artifacts :=
  {| iv := iv a; ad := ad a; at_ := at_ a; range := <[nBlock := v]> (range a);
     encryption_stratergy := encryption_stratergy a |}.

Definition set_iv (nBlock : nat) (v : string) (a : Artifacts) : Artifacts :=
  {| iv := <[nBlock := v]> (iv a); ad := ad a; at_ := at_ a; range := range a;
     encryption_stratergy := encryption_stratergy a |}.

Definition set_at (nBlock : nat) (v : string) (a : Artifacts) : Artifacts :=
  {| iv := iv a; ad := ad a; at_ := <[nBlock := v]> (at_ a); range := range a;
     encryption_stratergy := encryption_stratergy a |}.

(** Modelled from the spec: [ThreadPool], when a task is over: a slot of the
    pool is free again. *)
Definition pool_release (s : State) : State :=
  set_pool {| size := size (pool s); running := running (pool s) - 1;
              queue := queue (pool s) |} s.

(** [`bytes=${from}-${to - 1}`] *)
Definition range_string (from to : Z) : string :=
  "bytes=" +:+ string_of_Z from +:+ "-" +:+ string_of_Z (to - 1).

(** [x / y] where [y] is [this.totalBlocks]. *)
Definition js_div_num (a : Z) (y : num) : num :=
  match y with
  | Fin z => js_div a z
  | Infinity _ => Fin 0
  | _ => NaN
  end.

(** [this.file.name] *)
Definition file_name (f : value) : value :=
  match f with
  | VFile name _ _ => VString name
  | _ => VUndefined
  end.

Section Start.

Variable this : AzureBlockUpload.
Variable C : Collaborators.
Variable dataEncryptionKey : value.

(** The [catch] block of [job]; the job is over. *)
Definition job_catch (nBlock : nat) (stage : Stage) (error : Error) (s : State) : State :=
  let s := emit (OnError error) s in
  let s := set_promise (reject error (promise s)) s in
  pool_release (set_job nBlock (Caught stage error) s).

(** [job(nBlock)] up to its first [await]: the block identifier is pushed,
    then [FileUtils.readBlock] is called.  (The identifier is computed
    here; the job in which its computation can throw is
    [App.job_begin].) *)
Definition job_begin (nBlock : nat) (s : State) : State :=
  let from := block_from this nBlock in
  let to := block_to this nBlock in
  let s := push_blockID (blockID this nBlock) s in
  let s := emit (CallReadBlock nBlock from to) s in
  set_job nBlock (AwaitRead (readBlock C (file this) from to)) s.

(** From the settling of [readBlock] to the call of [putBlock]. *)
Definition job_after_read (nBlock : nat) (r : result string) (s : State) : State :=
  match r with
  | Err error => job_catch nBlock AtRead error s
  | Ok data =>
    let from := block_from this nBlock in
    let to := block_to this nBlock in
    let s := set_artifacts (set_range nBlock (range_string from to) (artifacts s)) s in
    if truthy dataEncryptionKey then
      let iv_ := randomBytes C nBlock in
      match encryptWithKeyUsingArtefacts C dataEncryptionKey data iv_ with
      | Err error => job_catch nBlock AtEncrypt error s
      | Ok (encrypted, tag) =>
        let s := set_artifacts (set_iv nBlock iv_ (artifacts s)) s in
        let s := set_artifacts (set_at nBlock tag (artifacts s)) s in
        let s := emit (CallPutBlock nBlock encrypted (blockID this nBlock)) s in
        set_job nBlock
          (AwaitPutBlock (putBlock C (url this) encrypted (blockID this nBlock))) s
      end
    else
      let s := emit (CallPutBlock nBlock data (blockID this nBlock)) s in
      set_job nBlock
        (AwaitPutBlock (putBlock C (url this) data (blockID this nBlock))) s
  end.

(** From [this.callbacks.onProgress] to the end of the [try] block. *)
Definition job_finish (nBlock : nat) (s : State) : State :=
  let progress := js_div_num (Z.of_nat nBlock + 1) (totalBlocks this) in
  let s := emit (OnProgress progress (file_name (file this))) s in
  if remainingBytes s =? 0 then
    let s := emit (OnSuccess (artifacts s)) s in
    let s := set_promise (resolve VUndefined (promise s)) s in
    pool_release (set_job nBlock Returned s)
  else
    pool_release (set_job nBlock Returned s).

(** From the settling of [putBlock]: the counter is decreased and clamped,
    and when it is zero the block list is committed. *)
Definition job_after_putBlock (nBlock : nat) (r : result unit) (s : State) : State :=
  match r with
  | Err error => job_catch nBlock AtPutBlock error s
  | Ok _ =>
    let s := set_remainingBytes (remainingBytes s - blockSize this) s in
    let s := if remainingBytes s <? 0 then set_remainingBytes 0 s else s in
    if remainingBytes s =? 0 then
      let s := emit (CallPutBlockList nBlock (blockIDList s) (fileType this)) s in
      set_job nBlock
        (AwaitCommit (putBlockList C (url this) (blockIDList s) (fileType this))) s
    else job_finish nBlock s
  end.

(** From the settling of [commit()]. *)
Definition job_after_commit (nBlock : nat) (r : result unit) (s : State) : State :=
  match r with
  | Err error => job_catch nBlock AtCommit error s
  | Ok _ => job_finish nBlock s
  end.

(** Modelled from the spec: [ThreadPool.run], called as
    [pool.run(() => job(nBlock))]: the task starts at once if a slot is
    free, and waits at the end of the queue if none is. *)
Definition pool_run (nBlock : nat) (s : State) : State :=
  if running (pool s) <? size (pool s) then
    job_begin nBlock
      (set_pool {| size := size (pool s); running := running (pool s) + 1;
                   queue := queue (pool s) |} s)
  else
    set_pool {| size := size (pool s); running := running (pool s);
                queue := queue (pool s) ++ [nBlock] |} s.

(** Modelled from the spec: [ThreadPool], when a slot is free: the pool
    starts the task that has waited longest. *)
Definition pool_dispatch (s : State) : State :=
  match queue (pool s) with
  | [] => s
  | nBlock :: rest =>
    if running (pool s) <? size (pool s) then
      job_begin nBlock
        (set_pool {| size := size (pool s); running := running (pool s) + 1;
                     queue := rest |} s)
    else s
  end.

Definition initial_state (k : nat) : State :=
  {| remainingBytes := totalRemainingBytes this;
     blockIDList := [];
     artifacts := {| iv := ∅; ad := "none"; at_ := ∅; range := ∅;
                     encryption_stratergy := AES_GCM |};
     promise := Pending;
     pool := {| size := simultaneousUploads this; running := 0; queue := [] |};
     jobs := replicate k Queued;
     trace := [] |}.

(** [start(dataEncryptionKey)], up to the return of the promise: the loop
    hands every job to the pool.  [None]: the loop does not end. *)
Definition start : option State :=
  match loop_count (totalBlocks this) with
  | Some k => Some (fold_left (fun s nBlock => pool_run nBlock s) (seq 0 k) (initial_state k))
  | None => None
  end.

(** What happens next: the pool starts a waiting task, or the promise that
    job [nBlock] awaits settles and the job goes on to its next [await] or
    to its end.  An action that is not possible changes nothing. *)
Inductive Action :=
| Dispatch
| Settle (nBlock : nat).

Definition step (a : Action) (s : State) : State :=
  match a with
  | Dispatch => pool_dispatch s
  | Settle nBlock =>
    match jobs s !! nBlock with
    | Some (AwaitRead r) => job_after_read nBlock r s
    | Some (AwaitPutBlock r) => job_after_putBlock nBlock r s
    | Some (AwaitCommit r) => job_after_commit nBlock r s
    | _ => s
    end
  end.

Definition run (schedule : list Action) (s : State) : State :=
  fold_left (fun s a => step a s) schedule s.

End Start.

(** ** Notions the properties are stated with *)

(** The quotient rounded up, for a positive divisor. *)
Definition ceil_div (a b : Z) : Z := (a + b - 1) / b.

(** An upload that has blocks to send: a file that is not empty, a positive
    block size, and the block count [analizeFile] computes from them. *)
Record planned (u : AzureBlockUpload) : Prop := {
  planned_fileSize : 0 < fileSize u;
  planned_blockSize : 0 < blockSize u;
  planned_remaining : totalRemainingBytes u = fileSize u;
  planned_totalBlocks : totalBlocks u = Fin (ceil_div (fileSize u) (blockSize u))
}.


(** *** Phases of a job *)

Definition started (p : Phase) : bool :=
  match p with Queued => false | _ => true end.

Definition awaiting (p : Phase) : bool :=
  match p with AwaitRead _ | AwaitPutBlock _ | AwaitCommit _ => true | _ => false end.

Definition settled (p : Phase) : bool :=
  match p with Returned | Caught _ _ => true | _ => false end.

(** The job went through [this.totalRemainingBytes -= this.blockSize]. *)
Definition decremented (p : Phase) : bool :=
  match p with AwaitCommit _ | Returned | Caught AtCommit _ => true | _ => false end.

(** The job is over and its block was read and put. *)
Definition transferred (p : Phase) : bool :=
  match p with Returned | Caught AtCommit _ => true | _ => false end.

(** The job is over and its block was not put: reading, encrypting or
    putting it failed, or the identifier could not be computed. *)
Definition block_failed (p : Phase) : bool :=
  match p with
  | Caught AtBase64 _ | Caught AtRead _ | Caught AtEncrypt _ | Caught AtPutBlock _ => true
  | _ => false
  end.

Definition returned (p : Phase) : bool :=
  match p with Returned => true | _ => false end.

Definition caught (p : Phase) : bool :=
  match p with Caught _ _ => true | _ => false end.

Definition committing (p : Phase) : bool :=
  match p with AwaitCommit _ | Caught AtCommit _ => true | _ => false end.

(** The job went through [artifacts.range[nBlock] = ...]. *)
Definition range_recorded (p : Phase) : bool :=
  match p with
  | Queued | AwaitRead _ | Caught AtBase64 _ | Caught AtRead _ => false
  | _ => true
  end.

(** The job went through [artifacts.iv[nBlock] = iv] and
    [artifacts.at[nBlock] = ...], when a key was given. *)
Definition encrypted (p : Phase) : bool :=
  match p with
  | Queued | AwaitRead _ | Caught AtBase64 _ | Caught AtRead _ | Caught AtEncrypt _ => false
  | _ => true
  end.

Fixpoint count (f : Phase -> bool) (l : list Phase) : nat :=
  match l with
  | [] => 0%nat
  | p :: l' => ((if f p then 1 else 0) + count f l')%nat
  end.

(** The [await]s a job still has before it. *)
Definition weight (p : Phase) : nat :=
  match p with
  | Queued => 4%nat
  | AwaitRead _ => 3%nat
  | AwaitPutBlock _ => 2%nat
  | AwaitCommit _ => 1%nat
  | _ => 0%nat
  end.

Fixpoint work (l : list Phase) : nat :=
  match l with
  | [] => 0%nat
  | p :: l' => (weight p + work l')%nat
  end.

(** *** Readings of a trace *)

(** The jobs that called [putBlockList], and the lists they passed. *)
Definition commit_callers (t : list Event) : list nat :=
  flat_map (fun e => match e with CallPutBlockList n _ _ => [n] | _ => [] end) t.

Definition committed_lists (t : list Event) : list (list string) :=
  flat_map (fun e => match e with CallPutBlockList _ ids _ => [ids] | _ => [] end) t.

(** The arguments of the calls of [onSuccess] and of [onError]. *)
Definition successes (t : list Event) : list Artifacts :=
  flat_map (fun e => match e with OnSuccess a => [a] | _ => [] end) t.

Definition errors (t : list Event) : list Error :=
  flat_map (fun e => match e with OnError e => [e] | _ => [] end) t.

(** The blocks whose [readBlock] and [putBlock] calls are in the trace. *)
Definition blocks_read (t : list Event) : list nat :=
  flat_map (fun e => match e with CallReadBlock n _ _ => [n] | _ => [] end) t.

Definition blocks_put (t : list Event) : list nat :=
  flat_map (fun e => match e with CallPutBlock n _ _ => [n] | _ => [] end) t.

(** [resolve()] follows every [onSuccess], [reject(error)] every [onError]:
    the promise as the trace settles it. *)
Definition settle (p : Promise) (e : Event) : Promise :=
  match e with
  | OnSuccess _ => resolve VUndefined p
  | OnError error => reject error p
  | _ => p
  end.

Definition first_settlement (t : list Event) : Promise := fold_left settle t Pending.

Section Steps.

Variable this : AzureBlockUpload.
Variable C : Collaborators.
Variable dataEncryptionKey : value.

(** What job [nBlock] hands to [putBlock], when reading and encrypting its
    block succeed. *)
Definition payload_of (nBlock : nat) : option string :=
  match readBlock C (file this) (block_from this nBlock) (block_to this nBlock) with
  | Ok data =>
    if truthy dataEncryptionKey then
      match encryptWithKeyUsingArtefacts C dataEncryptionKey data (randomBytes C nBlock) with
      | Ok (encrypted, _) => Some encrypted
      | Err _ => None
      end
    else Some data
  | Err _ => None
  end.

(** Reading, encrypting and putting block [nBlock] all succeed. *)
Definition job_ok (nBlock : nat) : bool :=
  match payload_of nBlock with
  | Some payload =>
    match putBlock C (url this) payload (blockID this nBlock) with
    | Ok _ => true
    | Err _ => false
    end
  | None => false
  end.

(** The promise a suspended job awaits is the one its collaborator
    returned, and a job left through [catch] was thrown the error of its
    collaborator; the identifier is computed. *)
Definition phase_consistent (nBlock : nat) (p : Phase) : Prop :=
  let read := readBlock C (file this) (block_from this nBlock) (block_to this nBlock) in
  match p with
  | Caught AtBase64 _ => False
  | AwaitRead r => r = read
  | Caught AtRead e => read = Err e
  | Caught AtEncrypt _ => payload_of nBlock = None
  | AwaitPutBlock r =>
    exists payload, payload_of nBlock = Some payload
                    /\ r = putBlock C (url this) payload (blockID this nBlock)
  | Caught AtPutBlock e =>
    exists payload, payload_of nBlock = Some payload
                    /\ putBlock C (url this) payload (blockID this nBlock) = Err e
  | AwaitCommit r =>
    exists ids, r = putBlockList C (url this) ids (fileType this)
  | Caught AtCommit e =>
    exists ids, putBlockList C (url this) ids (fileType this) = Err e
  | _ => True
  end.

(** The artifacts and the payload of a job whose block was read. *)
Inductive Encrypted (nBlock : nat) (data : string) (a : Artifacts)
  : Artifacts -> result string -> Prop :=
| Encrypted_plain :
    truthy dataEncryptionKey = false ->
    Encrypted nBlock data a
      (set_range nBlock (range_string (block_from this nBlock) (block_to this nBlock)) a)
      (Ok data)
| Encrypted_failed error :
    truthy dataEncryptionKey = true ->
    encryptWithKeyUsingArtefacts C dataEncryptionKey data (randomBytes C nBlock)
    = Err error ->
    Encrypted nBlock data a
      (set_range nBlock (range_string (block_from this nBlock) (block_to this nBlock)) a)
      (Err error)
| Encrypted_ok encrypted tag :
    truthy dataEncryptionKey = true ->
    encryptWithKeyUsingArtefacts C dataEncryptionKey data (randomBytes C nBlock)
    = Ok (encrypted, tag) ->
    Encrypted nBlock data a
      (set_at nBlock tag
         (set_iv nBlock (randomBytes C nBlock)
            (set_range nBlock
               (range_string (block_from this nBlock) (block_to this nBlock)) a)))
      (Ok encrypted).

(** A job is thrown [error] at [stage], with the artifacts [a']. *)
Inductive Throws (s : State) (nBlock : nat) : Phase -> Stage -> Error -> Artifacts -> Prop :=
| Throws_read error :
    Throws s nBlock (AwaitRead (Err error)) AtRead error (artifacts s)
| Throws_encrypt data error a' :
    Encrypted nBlock data (artifacts s) a' (Err error) ->
    Throws s nBlock (AwaitRead (Ok data)) AtEncrypt error a'
| Throws_putBlock error :
    Throws s nBlock (AwaitPutBlock (Err error)) AtPutBlock error (artifacts s)
| Throws_commit error :
    Throws s nBlock (AwaitCommit (Err error)) AtCommit error (artifacts s).

Definition progress_event (nBlock : nat) : Event :=
  OnProgress (js_div_num (Z.of_nat nBlock + 1) (totalBlocks this)) (file_name (file this)).

(** The steps of [step] that change the state, case by case. *)
Inductive Step (s : State) : State -> Prop :=
| Step_dispatch nBlock rest :
    queue (pool s) = nBlock :: rest ->
    running (pool s) < size (pool s) ->
    Step s
      {| remainingBytes := remainingBytes s;
         blockIDList := blockIDList s ++ [blockID this nBlock];
         artifacts := artifacts s;
         promise := promise s;
         pool := {| size := size (pool s); running := running (pool s) + 1;
                    queue := rest |};
         jobs := <[nBlock := AwaitRead (readBlock C (file this) (block_from this nBlock)
                                            (block_to this nBlock))]> (jobs s);
         trace := trace s ++ [CallReadBlock nBlock (block_from this nBlock)
                                            (block_to this nBlock)] |}
| Step_caught nBlock p stage error a' :
    jobs s !! nBlock = Some p ->
    Throws s nBlock p stage error a' ->
    Step s
      {| remainingBytes := remainingBytes s;
         blockIDList := blockIDList s;
         artifacts := a';
         promise := reject error (promise s);
         pool := {| size := size (pool s); running := running (pool s) - 1;
                    queue := queue (pool s) |};
         jobs := <[nBlock := Caught stage error]> (jobs s);
         trace := trace s ++ [OnError error] |}
| Step_read nBlock data a' payload :
    jobs s !! nBlock = Some (AwaitRead (Ok data)) ->
    Encrypted nBlock data (artifacts s) a' (Ok payload) ->
    Step s
      {| remainingBytes := remainingBytes s;
         blockIDList := blockIDList s;
         artifacts := a';
         promise := promise s;
         pool := pool s;
         jobs := <[nBlock := AwaitPutBlock
                               (putBlock C (url this) payload (blockID this nBlock))]> (jobs s);
         trace := trace s ++ [CallPutBlock nBlock payload (blockID this nBlock)] |}
| Step_put_last nBlock v :
    jobs s !! nBlock = Some (AwaitPutBlock (Ok v)) ->
    remainingBytes s - blockSize this <= 0 ->
    Step s
      {| remainingBytes := 0;
         blockIDList := blockIDList s;
         artifacts := artifacts s;
         promise := promise s;
         pool := pool s;
         jobs := <[nBlock := AwaitCommit
                               (putBlockList C (url this) (blockIDList s) (fileType this))]>
                   (jobs s);
         trace := trace s ++ [CallPutBlockList nBlock (blockIDList s) (fileType this)] |}
| Step_put nBlock v :
    jobs s !! nBlock = Some (AwaitPutBlock (Ok v)) ->
    0 < remainingBytes s - blockSize this ->
    Step s
      {| remainingBytes := remainingBytes s - blockSize this;
         blockIDList := blockIDList s;
         artifacts := artifacts s;
         promise := promise s;
         pool := {| size := size (pool s); running := running (pool s) - 1;
                    queue := queue (pool s) |};
         jobs := <[nBlock := Returned]> (jobs s);
         trace := trace s ++ [progress_event nBlock] |}
| Step_commit nBlock v :
    jobs s !! nBlock = Some (AwaitCommit (Ok v)) ->
    remainingBytes s = 0 ->
    Step s
      {| remainingBytes := remainingBytes s;
         blockIDList := blockIDList s;
         artifacts := artifacts s;
         promise := resolve VUndefined (promise s);
         pool := {| size := size (pool s); running := running (pool s) - 1;
                    queue := queue (pool s) |};
         jobs := <[nBlock := Returned]> (jobs s);
         trace := trace s ++ [progress_event nBlock; OnSuccess (artifacts s)] |}
| Step_commit_early nBlock v :
    jobs s !! nBlock = Some (AwaitCommit (Ok v)) ->
    remainingBytes s <> 0 ->
    Step s
      {| remainingBytes := remainingBytes s;
         blockIDList := blockIDList s;
         artifacts := artifacts s;
         promise := promise s;
         pool := {| size := size (pool s); running := running (pool s) - 1;
                    queue := queue (pool s) |};
         jobs := <[nBlock := Returned]> (jobs s);
         trace := trace s ++ [progress_event nBlock] |}.

(** *** What holds in every state of an upload of [k] jobs *)

(** Jobs start in the order of their blocks: the started ones are the
    first [length blockIDList], the queue holds the others in order, and
    the pool counts the suspended ones. *)
Record Structure (k : nat) (s : State) : Prop := {
  st_jobs : length (jobs s) = k;
  st_bound : (length (blockIDList s) <= k)%nat;
  st_ids : blockIDList s = map (blockID this) (seq 0 (length (blockIDList s)));
  st_started : forall i p, jobs s !! i = Some p ->
                           started p = (i <? length (blockIDList s))%nat;
  st_count : count started (jobs s) = length (blockIDList s);
  st_queue : queue (pool s)
             = seq (length (blockIDList s)) (k - length (blockIDList s));
  st_size : size (pool s) = simultaneousUploads this;
  st_running : running (pool s) = Z.of_nat (count awaiting (jobs s));
  st_reads : blocks_read (trace s) = seq 0 (length (blockIDList s));
  st_puts : forall n, In n (blocks_put (trace s)) ->
                      (n < length (blockIDList s))%nat
}.

(** The counter is the file size less one block size for every job that
    went through the decrement, clamped at zero; [putBlockList] is called
    when it reaches zero, and [onSuccess] only after that. *)
Record Counters (k : nat) (s : State) : Prop := {
  ct_remaining :
    remainingBytes s
    = Z.max 0 (fileSize this - Z.of_nat (count decremented (jobs s)) * blockSize this);
  ct_callers :
    if remainingBytes s =? 0 then exists n, commit_callers (trace s) = [n]
    else commit_callers (trace s) = [];
  ct_committing :
    forall n r, jobs s !! n = Some (AwaitCommit r) -> remainingBytes s = 0;
  ct_commits :
    length (commit_callers (trace s))
    = (count committing (jobs s) + length (successes (trace s)))%nat;
  ct_successes :
    forall a, In a (successes (trace s)) -> a = artifacts s /\ remainingBytes s = 0;
  ct_committed :
    forall ids, In ids (committed_lists (trace s)) ->
                ids = blockIDList s /\ length ids = k
}.

(** The promise is settled by the first call of [onSuccess] or [onError],
    and [onError] is called once for every job left through [catch]. *)
Record Outcome (s : State) : Prop := {
  oc_promise : promise s = first_settlement (trace s);
  oc_errors : length (errors (trace s)) = count caught (jobs s);
  oc_caught : forall n stage e, jobs s !! n = Some (Caught stage e) ->
                                In e (errors (trace s))
}.

(** What the sparse arrays of [artifacts] hold at the index of a job. *)
Record Recorded (s : State) : Prop := {
  rc_range : forall n p, jobs s !! n = Some p ->
    range (artifacts s) !! n
    = if range_recorded p
      then Some (range_string (block_from this n) (block_to this n)) else None;
  rc_iv : forall n p, jobs s !! n = Some p ->
    iv (artifacts s) !! n
    = if truthy dataEncryptionKey && encrypted p
      then Some (randomBytes C n) else None;
  rc_at : forall n p, jobs s !! n = Some p ->
    is_Some (at_ (artifacts s) !! n)
    <-> truthy dataEncryptionKey && encrypted p = true;
  rc_outside : forall n, jobs s !! n = None ->
    range (artifacts s) !! n = None /\ iv (artifacts s) !! n = None
    /\ at_ (artifacts s) !! n = None;
  rc_ad : ad (artifacts s) = "none";
  rc_strategy : encryption_stratergy (artifacts s) = AES_GCM
}.

Definition Consistent (s : State) : Prop :=
  forall n p, jobs s !! n = Some p -> phase_consistent n p.

(** The number of jobs of a planned upload. *)
Definition planned_jobs : nat :=
  Z.to_nat (ceil_div (fileSize this) (blockSize this)).

Record Invariant (s : State) : Prop := {
  inv_structure : Structure planned_jobs s;
  inv_counters : Counters planned_jobs s;
  inv_outcome : Outcome s;
  inv_recorded : Recorded s;
  inv_consistent : Consistent s
}.

End Steps.

Section Loop.

Variable this : AzureBlockUpload.
Variable C : Collaborators.

(** The promise [readBlock] returns to job [nBlock]. *)
Definition read_of (nBlock : nat) : result string :=
  readBlock C (file this) (block_from this nBlock) (block_to this nBlock).

(** Of [j] jobs handed to the pool, the number it starts at once. *)
Definition slots (j : nat) : nat :=
  Z.to_nat (Z.min (Z.of_nat j) (Z.max 0 (simultaneousUploads this))).

(** The state after [j] turns of the loop of [start], for [k] jobs. *)
Definition loop_state (k j : nat) : State :=
  {| remainingBytes := totalRemainingBytes this;
     blockIDList := map (blockID this) (seq 0 (slots j));
     artifacts := {| iv := ∅; ad := "none"; at_ := ∅; range := ∅;
                     encryption_stratergy := AES_GCM |};
     promise := Pending;
     pool := {| size := simultaneousUploads this;
                running := Z.of_nat (slots j);
                queue := seq (slots j) (j - slots j) |};
     jobs := map (fun n => AwaitRead (read_of n)) (seq 0 (slots j))
             ++ replicate (k - slots j) Queued;
     trace := map (fun n => CallReadBlock n (block_from this n) (block_to this n))
                  (seq 0 (slots j)) |}.

End Loop.

(** ** Example uploads *)

(** A browser: [File] exists, and a file's size and type are its [size] and
    [type] fields. *)
Definition browser : Platform :=
  {| File_is_function := true;
     getSize := fun f => match f with VFile _ size _ => size | _ => 0 end;
     getType := fun f => match f with VFile _ _ type => type | _ => EmptyString end;
     BLOCK_MAX_SIZE := 4194304 |}.

Definition example_opts (blockSize_ : value) : Opts :=
  {| opt_blockIDPrefix := VUndefined;
     opt_blockSize := blockSize_;
     opt_simultaneousUploads := VNumber 2 |}.

(** [new AzureBlockUpload("https://blob/a", file, { blockSize, simultaneousUploads: 2 })]
    for a file of [size] bytes. *)
Definition example_new (size : Z) (blockSize_ : value) : result AzureBlockUpload :=
  constructor browser (VString "https://blob/a")
    (VFile "a.bin" size "application/octet-stream") (example_opts blockSize_).

(** The object [example_new size (VNumber blockSize_)] returns. *)
Definition example_upload (size blockSize_ : Z) : AzureBlockUpload :=
  analizeFile browser
    {| url := "https://blob/a";
       file := VFile "a.bin" size "application/octet-stream";
       blockSize := blockSize_;
       simultaneousUploads := 2;
       blockIDPrefix := VString "block";
       fileSize := 0; fileType := EmptyString; currentFilePointer := 0;
       totalRemainingBytes := 0; totalBlocks := Fin 0 |}.

(** Collaborators that succeed: every block reads as ["data"]. *)
Definition example_collaborators : Collaborators :=
  {| readBlock := fun _ _ _ => Ok "data";
     randomBytes := fun n => "iv" +:+ string_of_nat n;
     encryptWithKeyUsingArtefacts := fun _ data _ => Ok ("sealed " +:+ data, "tag");
     putBlock := fun _ _ _ => Ok tt;
     putBlockList := fun _ _ _ => Ok tt |}.

(** The same, but reading the block that starts at offset 4 fails. *)
Definition failing_collaborators : Collaborators :=
  {| readBlock := fun _ from _ => if from =? 4 then Err "read failed" else Ok "data";
     randomBytes := randomBytes example_collaborators;
     encryptWithKeyUsingArtefacts := encryptWithKeyUsingArtefacts example_collaborators;
     putBlock := putBlock example_collaborators;
     putBlockList := putBlockList example_collaborators |}.

(** Three blocks on two slots: block 1 is put before block 0, then block 2
    starts, and block 2 is the last to be put. *)
Definition example_schedule : list Action :=
  [Settle 1; Settle 1; Settle 0; Dispatch; Settle 0; Settle 2; Settle 2; Settle 2]%nat.

(** The same order when reading block 1 fails. *)
Definition failing_schedule : list Action :=
  [Settle 1; Settle 0; Settle 0; Dispatch; Settle 2; Settle 2]%nat.

(** ** The calls an upload makes *)

(** The calls of [readBlock] and of [putBlock] with their arguments, and the
    arguments of the calls of [onProgress], in the order of the calls. *)
Definition read_calls (t : list Event) : list (nat * Z * Z) :=
  flat_map (fun e => match e with CallReadBlock n from to => [(n, from, to)] | _ => [] end) t.

Definition put_calls (t : list Event) : list (nat * string * string) :=
  flat_map (fun e => match e with CallPutBlock n data id => [(n, data, id)] | _ => [] end) t.

Definition progress_reports (t : list Event) : list (num * value) :=
  flat_map (fun e => match e with OnProgress p name => [(p, name)] | _ => [] end) t.

(** The job went through its call of [putBlock]. *)
Definition put_called (p : Phase) : bool :=
  match p with
  | AwaitPutBlock _ | AwaitCommit _ | Returned
  | Caught AtPutBlock _ | Caught AtCommit _ => true
  | _ => false
  end.

Section Calls.

Variable this : AzureBlockUpload.
Variable C : Collaborators.
Variable dataEncryptionKey : value.

(** What job [nBlock] hands to [onProgress]. *)
Definition progress_of (nBlock : nat) : num * value :=
  (js_div_num (Z.of_nat nBlock + 1) (totalBlocks this), file_name (file this)).

(** [putBlock] is called once for a job that has come to it, with the
    payload and the identifier of its block, and a job is past it only when
    it succeeded. *)
Record Puts (s : State) : Prop := {
  pt_reads : read_calls (trace s)
             = map (fun n => (n, block_from this n, block_to this n))
                   (seq 0 (length (blockIDList s)));
  pt_once : NoDup (blocks_put (trace s));
  pt_phase : forall n, In n (blocks_put (trace s))
                       <-> exists p, jobs s !! n = Some p /\ put_called p = true;
  pt_args : forall n data id, In (n, data, id) (put_calls (trace s)) ->
              payload_of this C dataEncryptionKey n = Some data /\ id = blockID this n;
  pt_ok : forall n p, jobs s !! n = Some p -> decremented p = true ->
                      job_ok this C dataEncryptionKey n = true
}.

(** [onProgress] is called once by every job that returns, and by no
    other. *)
Record Progress (s : State) : Prop := {
  pg_count : length (progress_reports (trace s)) = count returned (jobs s);
  pg_of : forall n, jobs s !! n = Some Returned ->
                    In (progress_of n) (progress_reports (trace s));
  pg_from : forall r, In r (progress_reports (trace s)) ->
                      exists n, jobs s !! n = Some Returned /\ r = progress_of n
}.

(** The job that called [putBlockList] waits for it or was thrown its
    error, or it has returned after its call of [onSuccess]. *)
Definition Committer (s : State) : Prop :=
  forall n, In n (commit_callers (trace s)) ->
    exists p, jobs s !! n = Some p
              /\ if returned p then successes (trace s) <> [] else committing p = true.

End Calls.

(** The object after a run of [start]: the jobs have decreased
    [this.totalRemainingBytes], the one field they assign to. *)
Definition after_run (this : AzureBlockUpload) (s : State) : AzureBlockUpload :=
  {| url := url this;
     file := file this;
     blockSize := blockSize this;
     simultaneousUploads := simultaneousUploads this;
     blockIDPrefix := blockIDPrefix this;
     fileSize := fileSize this;
     fileType := fileType this;
     currentFilePointer := currentFilePointer this;
     totalRemainingBytes := remainingBytes s;
     totalBlocks := totalBlocks this |}.

(** A run that starts with the counter at zero: the counter stays there,
    and the jobs that have called [putBlockList] are the jobs past their
    decrement. *)
Definition Restarted (s : State) : Prop :=
  remainingBytes s = 0
  /\ forall n, In n (commit_callers (trace s))
               <-> exists p, jobs s !! n = Some p /\ decremented p = true.

(** Collaborators with which every block is read and put, and the commit
    fails. *)
Definition commit_failing_collaborators : Collaborators :=
  {| readBlock := readBlock example_collaborators;
     randomBytes := randomBytes example_collaborators;
     encryptWithKeyUsingArtefacts := encryptWithKeyUsingArtefacts example_collaborators;
     putBlock := putBlock example_collaborators;
     putBlockList := fun _ _ _ => Err "commit failed" |}.

(** ** The earlier version of the class *)

(** The earlier [AzureBlockUpload.js]: no [blockIDPrefix] and no key, the
    size and the type read from the [File], [readBlock] a method of the
    class, [onProgress({ progress })] and [onSuccess()]. *)
Module Earlier.

Record Opts := {
  opt_blockSize : value;
  opt_simultaneousUploads : value
}.

Record AzureBlockUpload := {
  url : string;
  file : value;
  blockSize : Z;
  simultaneousUploads : Z;
  fileSize : Z;
  fileType : string;
  currentFilePointer : Z;
  totalRemainingBytes : Z;
  totalBlocks : num
}.

(** [const { size, type } = this.file], of the [File] the constructor has
    checked [this.file] to be. *)
Definition size_of (f : value) : Z :=
  match f with VFile _ size _ => size | _ => 0 end.

Definition type_of (f : value) : string :=
  match f with VFile _ _ type => type | _ => EmptyString end.

(** [analizeFile()] *)
Definition analizeFile (this : AzureBlockUpload) : AzureBlockUpload :=
  let size := size_of (file this) in
  let type := type_of (file this) in
  let bs := if size <? blockSize this then size else blockSize this in
  {| url := url this;
     file := file this;
     blockSize := bs;
     simultaneousUploads := simultaneousUploads this;
     fileSize := size;
     fileType := type;
     currentFilePointer := 0;
     totalRemainingBytes := size;
     totalBlocks :=
       if is_zero (js_rem size bs) then js_div size bs
       else Math_ceil (js_div size bs) |}.

(** The third argument of the constructor: left out or [undefined],
    [null], or an object. *)
Inductive OptsArgument :=
| opts_undefined
| opts_null
| opts_object (o : Opts).

(** [{}] *)
Definition empty_opts : Opts :=
  {| opt_blockSize := VUndefined; opt_simultaneousUploads := VUndefined |}.

(** The object whose fields the constructor reads; none for [null]. *)
Definition opts_fields (opts : OptsArgument) : option Opts :=
  match opts with
  | opts_undefined => Some empty_opts
  | opts_null => None
  | opts_object o => Some o
  end.

(** [new AzureBlockUpload(url, file, opts)], with
    [BlobStorage.BLOCK_MAX_SIZE]; [Err] is a thrown error. *)
Definition constructor (BLOCK_MAX_SIZE : Z) (url_ file_ : value) (opts : OptsArgument)
  : result AzureBlockUpload :=
  match url_ with
  | VString u =>
    if negb (instanceof_File file_) then
      Err "file must be instance of File"
    else
      match opts_fields opts with
      | None => Err null_opts_error
      | Some opts =>
        if truthy (opt_blockSize opts)
           && negb (jstype_eqb (typeof (opt_blockSize opts)) TNumber) then
          Err "blockSize must be a number"
        else if truthy (opt_simultaneousUploads opts)
                && negb (jstype_eqb (typeof (opt_simultaneousUploads opts)) TNumber) then
          Err "simultaneousUploads must be a number"
        else
          Ok (analizeFile
                {| url := u;
                   file := file_;
                   blockSize := number_or (opt_blockSize opts) BLOCK_MAX_SIZE;
                   simultaneousUploads := number_or (opt_simultaneousUploads opts) 3;
                   fileSize := 0;
                   fileType := EmptyString;
                   currentFilePointer := 0;
                   totalRemainingBytes := 0;
                   totalBlocks := Fin 0 |})
      end
  | _ => Err "url must be a string"
  end.

(** The handler a [FileReader] calls when its read is over. *)
Inductive ReaderEvent :=
| onload (result : string)
| onabort
| onerror.

(** [this.file.slice], [FileReader#readAsArrayBuffer] (the handler it
    calls for a blob), [BlobStorage.putBlock] and
    [BlobStorage.putBlockList]. *)
Record Collaborators := {
  slice : value -> Z -> Z -> string;
  readAsArrayBuffer : string -> ReaderEvent;
  putBlock : string -> string -> string -> result unit;
  putBlockList : string -> list string -> string -> result unit
}.

(** [readBlock(from, to)]: the promise is resolved with the bytes read, or
    rejected. *)
Definition readBlock (C : Collaborators) (this : AzureBlockUpload) (from to : Z)
  : result string :=
  let slicedFile := slice C (file this) from to in
  match readAsArrayBuffer C slicedFile with
  | onload arrayBuffer => Ok arrayBuffer
  | onabort => Err "Reading aborted"
  | onerror => Err "file reading has failed"
  end.

Inductive Event :=
| CallReadBlock (nBlock : nat) (from to : Z)
| CallPutBlock (nBlock : nat) (data blockID : string)
| CallPutBlockList (nBlock : nat) (blockIDList : list string) (fileType : string)
| OnProgress (progress : num)
| OnSuccess
| OnError (error : Error).

Record State := {
  remainingBytes : Z;            (* this.totalRemainingBytes *)
  blockIDList : list string;
  promise : Promise;
  pool : ThreadPool;
  jobs : list Phase;
  trace : list Event
}.

Definition set_remainingBytes (z : Z) (s : State) : State :=
  {| remainingBytes := z; blockIDList := blockIDList s; promise := promise s;
     pool := pool s; jobs := jobs s; trace := trace s |}.

Definition push_blockID (id : string) (s : State) : State :=
  {| remainingBytes := remainingBytes s; blockIDList := blockIDList s ++ [id];
     promise := promise s; pool := pool s; jobs := jobs s; trace := trace s |}.

Definition set_promise (p : Promise) (s : State) : State :=
  {| remainingBytes := remainingBytes s; blockIDList := blockIDList s; promise := p;
     pool := pool s; jobs := jobs s; trace := trace s |}.

Definition set_pool (p : ThreadPool) (s : State) : State :=
  {| remainingBytes := remainingBytes s; blockIDList := blockIDList s;
     promise := promise s; pool := p; jobs := jobs s; trace := trace s |}.

Definition set_job (nBlock : nat) (p : Phase) (s : State) : State :=
  {| remainingBytes := remainingBytes s; blockIDList := blockIDList s;
     promise := promise s; pool := pool s; jobs := <[nBlock := p]> (jobs s);
     trace := trace s |}.

Definition emit (e : Event) (s : State) : State :=
  {| remainingBytes := remainingBytes s; blockIDList := blockIDList s;
     promise := promise s; pool := pool s; jobs := jobs s; trace := trace s ++ [e] |}.

(** Modelled from the spec: [ThreadPool], when a task is over: a slot of
    the pool is free again. *)
Definition pool_release (s : State) : State :=
  set_pool {| size := size (pool s); running := running (pool s) - 1;
              queue := queue (pool s) |} s.

Section Start.

Variable this : AzureBlockUpload.
Variable C : Collaborators.

(** [from] and [to] of [job(nBlock)]. *)
Definition block_from (nBlock : nat) : Z := Z.of_nat nBlock * blockSize this.

Definition block_to (nBlock : nat) : Z :=
  if (Z.of_nat nBlock + 1) * blockSize this <? fileSize this
  then (Z.of_nat nBlock + 1) * blockSize this
  else fileSize this.

(** [btoa(`chunk${padStart(nBlock, 5)}`)] *)
Definition blockID (nBlock : nat) : string :=
  base64 ("chunk" +:+ padStart (string_of_nat nBlock) 5).

(** The [catch] block of [job]; the job is over. *)
Definition job_catch (nBlock : nat) (stage : Stage) (error : Error) (s : State) : State :=
  let s := emit (OnError error) s in
  let s := set_promise (reject error (promise s)) s in
  pool_release (set_job nBlock (Caught stage error) s).

(** [job(nBlock)] up to its first [await]. *)
Definition job_begin (nBlock : nat) (s : State) : State :=
  let from := block_from nBlock in
  let to := block_to nBlock in
  let s := push_blockID (blockID nBlock) s in
  let s := emit (CallReadBlock nBlock from to) s in
  set_job nBlock (AwaitRead (readBlock C this from to)) s.

(** From the settling of [this.readBlock] to the call of [putBlock]. *)
Definition job_after_read (nBlock : nat) (r : result string) (s : State) : State :=
  match r with
  | Err error => job_catch nBlock AtRead error s
  | Ok data =>
    let s := emit (CallPutBlock nBlock data (blockID nBlock)) s in
    set_job nBlock (AwaitPutBlock (putBlock C (url this) data (blockID nBlock))) s
  end.

(** From [this.callbacks.onProgress] to the end of the [try] block. *)
Definition job_finish (nBlock : nat) (s : State) : State :=
  let progress := js_div_num (Z.of_nat nBlock + 1) (totalBlocks this) in
  let s := emit (OnProgress progress) s in
  if remainingBytes s =? 0 then
    let s := emit OnSuccess s in
    let s := set_promise (resolve VUndefined (promise s)) s in
    pool_release (set_job nBlock Returned s)
  else
    pool_release (set_job nBlock Returned s).

(** From the settling of [putBlock]. *)
Definition job_after_putBlock (nBlock : nat) (r : result unit) (s : State) : State :=
  match r with
  | Err error => job_catch nBlock AtPutBlock error s
  | Ok _ =>
    let s := set_remainingBytes (remainingBytes s - blockSize this) s in
    let s := if remainingBytes s <? 0 then set_remainingBytes 0 s else s in
    if remainingBytes s =? 0 then
      let s := emit (CallPutBlockList nBlock (blockIDList s) (fileType this)) s in
      set_job nBlock
        (AwaitCommit (putBlockList C (url this) (blockIDList s) (fileType this))) s
    else job_finish nBlock s
  end.

(** From the settling of [commit()]. *)
Definition job_after_commit (nBlock : nat) (r : result unit) (s : State) : State :=
  match r with
  | Err error => job_catch nBlock AtCommit error s
  | Ok _ => job_finish nBlock s
  end.

(** Modelled from the spec: [ThreadPool.run], called as
    [pool.run(() => job(nBlock))]: the task starts at once if a slot is
    free, and waits at the end of the queue if none is. *)
Definition pool_run (nBlock : nat) (s : State) : State :=
  if running (pool s) <? size (pool s) then
    job_begin nBlock
      (set_pool {| size := size (pool s); running := running (pool s) + 1;
                   queue := queue (pool s) |} s)
  else
    set_pool {| size := size (pool s); running := running (pool s);
                queue := queue (pool s) ++ [nBlock] |} s.

(** Modelled from the spec: [ThreadPool], when a slot is free: the pool
    starts the task that has waited longest. *)
Definition pool_dispatch (s : State) : State :=
  match queue (pool s) with
  | [] => s
  | nBlock :: rest =>
    if running (pool s) <? size (pool s) then
      job_begin nBlock
        (set_pool {| size := size (pool s); running := running (pool s) + 1;
                     queue := rest |} s)
    else s
  end.

Definition initial_state (k : nat) : State :=
  {| remainingBytes := totalRemainingBytes this;
     blockIDList := [];
     promise := Pending;
     pool := {| size := simultaneousUploads this; running := 0; queue := [] |};
     jobs := replicate k Queued;
     trace := [] |}.

(** [start()], up to the return of the promise. [None]: the loop does
    not end. *)
Definition start : option State :=
  match loop_count (totalBlocks this) with
  | Some k =>
    Some (fold_left (fun s nBlock => pool_run nBlock s) (seq 0 k) (initial_state k))
  | None => None
  end.

Definition step (a : Action) (s : State) : State :=
  match a with
  | Dispatch => pool_dispatch s
  | Settle nBlock =>
    match jobs s !! nBlock with
    | Some (AwaitRead r) => job_after_read nBlock r s
    | Some (AwaitPutBlock r) => job_after_putBlock nBlock r s
    | Some (AwaitCommit r) => job_after_commit nBlock r s
    | _ => s
    end
  end.

Definition run (schedule : list Action) (s : State) : State :=
  fold_left (fun s a => step a s) schedule s.

End Start.

(** The jobs that called [putBlockList] and the lists they passed, the
    calls of [putBlock], and the arguments of [onError]. *)
Definition commit_callers (t : list Event) : list nat :=
  flat_map (fun e => match e with CallPutBlockList n _ _ => [n] | _ => [] end) t.

Definition committed_lists (t : list Event) : list (list string) :=
  flat_map (fun e => match e with CallPutBlockList _ ids _ => [ids] | _ => [] end) t.

Definition put_calls (t : list Event) : list (nat * string * string) :=
  flat_map (fun e => match e with CallPutBlock n data id => [(n, data, id)] | _ => [] end) t.

Definition errors (t : list Event) : list Error :=
  flat_map (fun e => match e with OnError e => [e] | _ => [] end) t.

(** The calls of [onSuccess], which is handed nothing. *)
Definition successes (t : list Event) : list unit :=
  flat_map (fun e => match e with OnSuccess => [tt] | _ => [] end) t.

End Earlier.

Coercion Earlier.opts_object : Earlier.Opts >-> Earlier.OptsArgument.

(** ** The two versions side by side *)

(** The options, the object and the collaborators of the later version that
    stand for those of the earlier one: the prefix is ["chunk"], reading is
    the method of the earlier class, and nothing is encrypted. *)
Definition later_opts (opts : Earlier.Opts) : Opts :=
  {| opt_blockIDPrefix := VString "chunk";
     opt_blockSize := Earlier.opt_blockSize opts;
     opt_simultaneousUploads := Earlier.opt_simultaneousUploads opts |}.

Definition later_upload (u : Earlier.AzureBlockUpload) : AzureBlockUpload :=
  {| url := Earlier.url u;
     file := Earlier.file u;
     blockSize := Earlier.blockSize u;
     simultaneousUploads := Earlier.simultaneousUploads u;
     blockIDPrefix := VString "chunk";
     fileSize := Earlier.fileSize u;
     fileType := Earlier.fileType u;
     currentFilePointer := Earlier.currentFilePointer u;
     totalRemainingBytes := Earlier.totalRemainingBytes u;
     totalBlocks := Earlier.totalBlocks u |}.

Definition later_collaborators (C : Earlier.Collaborators) (u : Earlier.AzureBlockUpload)
  : Collaborators :=
  {| readBlock := fun _ from to => Earlier.readBlock C u from to;
     randomBytes := fun _ => EmptyString;
     encryptWithKeyUsingArtefacts := fun _ data _ => Ok (data, EmptyString);
     putBlock := Earlier.putBlock C;
     putBlockList := Earlier.putBlockList C |}.

(** A browser whose [BlobStorage.BLOCK_MAX_SIZE] is [max]. *)
Definition browser_with (max : Z) : Platform :=
  {| File_is_function := true;
     getSize := Earlier.size_of;
     getType := Earlier.type_of;
     BLOCK_MAX_SIZE := max |}.

(** What the earlier version shows of an event and of a state of the later
    one: [onProgress] is not told the file name, [onSuccess] is handed
    nothing, and there are no artifacts. *)
Definition earlier_event (e : Event) : Earlier.Event :=
  match e with
  | CallReadBlock n from to => Earlier.CallReadBlock n from to
  | CallPutBlock n data id => Earlier.CallPutBlock n data id
  | CallPutBlockList n ids type => Earlier.CallPutBlockList n ids type
  | OnProgress progress _ => Earlier.OnProgress progress
  | OnSuccess _ => Earlier.OnSuccess
  | OnError error => Earlier.OnError error
  end.

Definition earlier_state (s : State) : Earlier.State :=
  {| Earlier.remainingBytes := remainingBytes s;
     Earlier.blockIDList := blockIDList s;
     Earlier.promise := promise s;
     Earlier.pool := pool s;
     Earlier.jobs := jobs s;
     Earlier.trace := map earlier_event (trace s) |}.

(** [Blob#slice(start, end)] on the bytes of a blob: a negative offset
    counts from the end, both offsets are clamped to the size, and the
    slice is empty when the end is not after the start. *)
Definition Blob_slice (bytes : string) (start end_ : Z) : string :=
  let size := Z.of_nat (String.length bytes) in
  let relativeStart := if start <? 0 then Z.max (size + start) 0 else Z.min start size in
  let relativeEnd := if end_ <? 0 then Z.max (size + end_) 0 else Z.min end_ size in
  let span := Z.max (relativeEnd - relativeStart) 0 in
  String.substring (Z.to_nat relativeStart) (Z.to_nat span) bytes.

(** The earlier upload of a file of [size] bytes in blocks of [blockSize_]
    on two slots, and collaborators that succeed. *)
Definition earlier_example_opts (blockSize_ : value) : Earlier.Opts :=
  {| Earlier.opt_blockSize := blockSize_;
     Earlier.opt_simultaneousUploads := VNumber 2 |}.

Definition earlier_example_new (size : Z) (blockSize_ : value)
  : result Earlier.AzureBlockUpload :=
  Earlier.constructor 4194304 (VString "https://blob/a")
    (VFile "a.bin" size "application/octet-stream") (earlier_example_opts blockSize_).

Definition earlier_example_upload (size blockSize_ : Z) : Earlier.AzureBlockUpload :=
  Earlier.analizeFile
    {| Earlier.url := "https://blob/a";
       Earlier.file := VFile "a.bin" size "application/octet-stream";
       Earlier.blockSize := blockSize_;
       Earlier.simultaneousUploads := 2;
       Earlier.fileSize := 0; Earlier.fileType := EmptyString;
       Earlier.currentFilePointer := 0;
       Earlier.totalRemainingBytes := 0; Earlier.totalBlocks := Fin 0 |}.

(** A file whose bytes are [bytes], read without failure. *)
Definition earlier_example_collaborators (bytes : string) : Earlier.Collaborators :=
  {| Earlier.slice := fun _ from to => Blob_slice bytes from to;
     Earlier.readAsArrayBuffer := fun blob => Earlier.onload blob;
     Earlier.putBlock := fun _ _ _ => Ok tt;
     Earlier.putBlockList := fun _ _ _ => Ok tt |}.

(** The same file when the [FileReader] fails on the bytes ["4567"]. *)
Definition earlier_failing_collaborators (bytes : string) : Earlier.Collaborators :=
  {| Earlier.slice := fun _ from to => Blob_slice bytes from to;
     Earlier.readAsArrayBuffer :=
       fun blob => if String.eqb blob "4567" then Earlier.onerror else Earlier.onload blob;
     Earlier.putBlock := fun _ _ _ => Ok tt;
     Earlier.putBlockList := fun _ _ _ => Ok tt |}.

(** ** The failure of a block *)

Section Failures.

Variable this : AzureBlockUpload.
Variable C : Collaborators.
Variable dataEncryptionKey : value.

(** The first call of job [nBlock] that fails, of [FileUtils.readBlock],
    [Cryppo.encryptWithKeyUsingArtefacts] (called when a key is given) and
    [BlobStorage.putBlock], in the order of the job, with the error it
    throws or rejects with; [None] when none of them fails.  The
    identifier is computed here; [App.failure_of] has its failure too. *)
Definition failure_of (nBlock : nat) : option (Stage * Error) :=
  match readBlock C (file this) (block_from this nBlock) (block_to this nBlock) with
  | Err error => Some (AtRead, error)
  | Ok data =>
    if truthy dataEncryptionKey then
      match encryptWithKeyUsingArtefacts C dataEncryptionKey data (randomBytes C nBlock) with
      | Err error => Some (AtEncrypt, error)
      | Ok (encrypted, _) =>
        match putBlock C (url this) encrypted (blockID this nBlock) with
        | Err error => Some (AtPutBlock, error)
        | Ok _ => None
        end
      end
    else
      match putBlock C (url this) data (blockID this nBlock) with
      | Err error => Some (AtPutBlock, error)
      | Ok _ => None
      end
  end.

(** A job is left through [catch], before its decrement, at the first of
    its calls that fails and with the error of that call, and it goes
    through the decrement only when none fails. *)
Definition Thrown (s : State) : Prop :=
  forall n p, jobs s !! n = Some p ->
    match p with
    | AwaitCommit _ | Returned | Caught AtCommit _ => failure_of n = None
    | Caught stage error => failure_of n = Some (stage, error)
    | _ => True
    end.

End Failures.

(** Collaborators with which every block is read, and [putBlock] fails for
    block 1 of the example upload. *)
Definition put_failing_collaborators : Collaborators :=
  {| readBlock := readBlock example_collaborators;
     randomBytes := randomBytes example_collaborators;
     encryptWithKeyUsingArtefacts := encryptWithKeyUsingArtefacts example_collaborators;
     putBlock := fun _ _ id =>
       if String.eqb id (base64 "block    1") then Err "put failed" else Ok tt;
     putBlockList := putBlockList example_collaborators |}.

(** Three blocks on two slots: block 1 is read and its [putBlock] fails,
    block 0 is put, block 2 starts and is put. *)
Definition put_failing_schedule : list Action :=
  [Settle 1; Settle 1; Settle 0; Settle 0; Dispatch; Settle 2; Settle 2]%nat.

(** ** The identifier in the browser *)

Definition is_ascii (a : ascii) : bool :=
  let '(Ascii _ _ _ _ _ _ _ b7) := a in negb b7.

(** A byte [10xxxxxx], which goes on a UTF-8 sequence. *)
Definition is_continuation (a : ascii) : bool :=
  let '(Ascii _ _ _ _ _ _ b6 b7) := a in b7 && negb b6.

(** The character U+00C0 to U+00FF that [0xC3] and the byte [a] encode. *)
Definition high_latin1 (a : ascii) : ascii :=
  let '(Ascii b0 b1 b2 b3 b4 b5 _ _) := a in Ascii b0 b1 b2 b3 b4 b5 true true.

(** [window.btoa] takes its argument for a sequence of bytes, one for each
    character, and throws on a character above U+00FF.  [latin1] gives that
    sequence from the UTF-8 bytes a string is held as: a byte below [0x80] is
    its own character, the two-byte sequences that start with [0xC2] and
    [0xC3] encode U+0080 to U+00FF, and any other sequence encodes a
    character above U+00FF ([None]). *)
Fixpoint latin1 (str : string) : option string :=
  match str with
  | EmptyString => Some EmptyString
  | String a rest =>
    if is_ascii a then String a <$> latin1 rest
    else
      match rest with
      | String b rest' =>
        if is_continuation b then
          if Ascii.eqb a "194" then String b <$> latin1 rest'
          else if Ascii.eqb a "195" then String (high_latin1 b) <$> latin1 rest'
          else None
        else None
      | EmptyString => None
      end
  end.

Fixpoint all_ascii (str : string) : bool :=
  match str with
  | EmptyString => true
  | String a rest => is_ascii a && all_ascii rest
  end.

(** The [InvalidCharacterError] of [window.btoa]. *)
Definition InvalidCharacterError : Error :=
  "InvalidCharacterError: The string to be encoded contains characters outside of the Latin1 range.".

(** [window.btoa(str)] *)
Definition btoa (str : string) : result string :=
  match latin1 str with
  | Some bytes => Ok (base64 bytes)
  | None => Err InvalidCharacterError
  end.

(** An upload with another prefix. *)
Definition with_blockIDPrefix (prefix : value) (this : AzureBlockUpload) : AzureBlockUpload :=
  {| url := url this;
     file := file this;
     blockSize := blockSize this;
     simultaneousUploads := simultaneousUploads this;
     blockIDPrefix := prefix;
     fileSize := fileSize this;
     fileType := fileType this;
     currentFilePointer := currentFilePointer this;
     totalRemainingBytes := totalRemainingBytes this;
     totalBlocks := totalBlocks this |}.

(** ** The job on either platform *)

(** [job], [start] and the pool with the computation of the identifier as
    the source has it: the conversion of the prefix to a string, which can
    throw, and the [base64] of the source, which is [window.btoa] where
    [isRunningOnWeb] holds (the constant of [./app]) and can throw there.
    Either throws inside the [try] block of [job] and before the identifier
    is pushed.  The job from the settling of [putBlock] on is the code
    above. *)
Module App.

(** [base64(str)]:
    [isRunningOnWeb ? window.btoa(str) : Buffer.from(str).toString("base64")] *)
Definition base64 (isRunningOnWeb : bool) (str : string) : result string :=
  if isRunningOnWeb then btoa str else Ok (base64 str).

Section Start.

Variable isRunningOnWeb : bool.
Variable this : AzureBlockUpload.
Variable C : Collaborators.
Variable dataEncryptionKey : value.

(** [base64(`${this.blockIDPrefix}${padStart(nBlock, 5)}`)] *)
Definition blockID (nBlock : nat) : result string :=
  match to_string (blockIDPrefix this) with
  | Err error => Err error
  | Ok prefix => base64 isRunningOnWeb (prefix +:+ padStart (string_of_nat nBlock) 5)
  end.

(** The constant [blockID] of a job that has gone past its computation. *)
Definition blockID_of (nBlock : nat) : string :=
  match blockID nBlock with
  | Ok id => id
  | Err _ => EmptyString
  end.

(** [job(nBlock)] up to its first [await]: the identifier is computed
    and, when its computation has not thrown, pushed; then
    [FileUtils.readBlock] is called. *)
Definition job_begin (nBlock : nat) (s : State) : State :=
  let from := block_from this nBlock in
  let to := block_to this nBlock in
  match blockID nBlock with
  | Err error => job_catch nBlock AtBase64 error s
  | Ok id =>
    let s := push_blockID id s in
    let s := emit (CallReadBlock nBlock from to) s in
    set_job nBlock (AwaitRead (readBlock C (file this) from to)) s
  end.

(** From the settling of [readBlock] to the call of [putBlock]. *)
Definition job_after_read (nBlock : nat) (r : result string) (s : State) : State :=
  match r with
  | Err error => job_catch nBlock AtRead error s
  | Ok data =>
    let from := block_from this nBlock in
    let to := block_to this nBlock in
    let s := set_artifacts (set_range nBlock (range_string from to) (artifacts s)) s in
    if truthy dataEncryptionKey then
      let iv_ := randomBytes C nBlock in
      match encryptWithKeyUsingArtefacts C dataEncryptionKey data iv_ with
      | Err error => job_catch nBlock AtEncrypt error s
      | Ok (encrypted, tag) =>
        let s := set_artifacts (set_iv nBlock iv_ (artifacts s)) s in
        let s := set_artifacts (set_at nBlock tag (artifacts s)) s in
        let s := emit (CallPutBlock nBlock encrypted (blockID_of nBlock)) s in
        set_job nBlock
          (AwaitPutBlock (putBlock C (url this) encrypted (blockID_of nBlock))) s
      end
    else
      let s := emit (CallPutBlock nBlock data (blockID_of nBlock)) s in
      set_job nBlock
        (AwaitPutBlock (putBlock C (url this) data (blockID_of nBlock))) s
  end.

(** Modelled from the spec: [ThreadPool.run], as [pool_run] above. *)
Definition pool_run (nBlock : nat) (s : State) : State :=
  if running (pool s) <? size (pool s) then
    job_begin nBlock
      (set_pool {| size := size (pool s); running := running (pool s) + 1;
                   queue := queue (pool s) |} s)
  else
    set_pool {| size := size (pool s); running := running (pool s);
                queue := queue (pool s) ++ [nBlock] |} s.

(** Modelled from the spec: [ThreadPool], when a slot is free, as
    [pool_dispatch] above. *)
Definition pool_dispatch (s : State) : State :=
  match queue (pool s) with
  | [] => s
  | nBlock :: rest =>
    if running (pool s) <? size (pool s) then
      job_begin nBlock
        (set_pool {| size := size (pool s); running := running (pool s) + 1;
                     queue := rest |} s)
    else s
  end.

(** [start(dataEncryptionKey)], up to the return of the promise. *)
Definition start : option State :=
  match loop_count (totalBlocks this) with
  | Some k =>
    Some (fold_left (fun s nBlock => pool_run nBlock s) (seq 0 k) (initial_state this k))
  | None => None
  end.

Definition step (a : Action) (s : State) : State :=
  match a with
  | Dispatch => pool_dispatch s
  | Settle nBlock =>
    match jobs s !! nBlock with
    | Some (AwaitRead r) => job_after_read nBlock r s
    | Some (AwaitPutBlock r) => job_after_putBlock this C nBlock r s
    | Some (AwaitCommit r) => job_after_commit this nBlock r s
    | _ => s
    end
  end.

Definition run (schedule : list Action) (s : State) : State :=
  fold_left (fun s a => step a s) schedule s.

(** The upload whose prefix is the bytes that [base64] encodes: the
    upload itself outside the browser, and in the browser the one with
    the prefix as [window.btoa] takes it; none when the conversion of
    the prefix or [window.btoa] throws. *)
Definition encoded : option AzureBlockUpload :=
  match to_string (blockIDPrefix this) with
  | Err _ => None
  | Ok prefix =>
    if isRunningOnWeb then
      (fun bytes => with_blockIDPrefix (VString bytes) this) <$> latin1 prefix
    else Some this
  end.

(** The first step of job [nBlock] that fails, of the computation of
    its identifier, [FileUtils.readBlock],
    [Cryppo.encryptWithKeyUsingArtefacts] (called when a key is given)
    and [BlobStorage.putBlock], in the order of the job, with the error
    it throws or rejects with; [None] when none of them fails. *)
Definition failure_of (nBlock : nat) : option (Stage * Error) :=
  match blockID nBlock with
  | Err error => Some (AtBase64, error)
  | Ok id =>
    match readBlock C (file this) (block_from this nBlock) (block_to this nBlock) with
    | Err error => Some (AtRead, error)
    | Ok data =>
      if truthy dataEncryptionKey then
        match encryptWithKeyUsingArtefacts C dataEncryptionKey data
                (randomBytes C nBlock) with
        | Err error => Some (AtEncrypt, error)
        | Ok (encrypted, _) =>
          match putBlock C (url this) encrypted id with
          | Err error => Some (AtPutBlock, error)
          | Ok _ => None
          end
        end
      else
        match putBlock C (url this) data id with
        | Err error => Some (AtPutBlock, error)
        | Ok _ => None
        end
    end
  end.

(** The error of the computation of an identifier, when it throws. *)
Definition blockID_error : Error :=
  match to_string (blockIDPrefix this) with
  | Err error => error
  | Ok _ => InvalidCharacterError
  end.

End Start.

End App.

(** Where the computation of the identifier throws, no job gets further:
    nothing is pushed and no collaborator is called. *)
Record Unencoded (error : Error) (s : State) : Prop := {
  un_ids : blockIDList s = [];
  un_jobs : forall n p, jobs s !! n = Some p ->
              p = Queued \/ (p = Caught AtBase64 error /\ In (OnError error) (trace s));
  un_trace : forall e, In e (trace s) -> e = OnError error;
  un_promise : promise s = first_settlement (trace s)
}.

(** The state after [j] turns of the loop of [start], for [k] jobs, when the
    computation of the identifier throws [error] and the pool has a slot:
    the first [j] jobs have been left through [catch]. *)
Definition caught_state (this : AzureBlockUpload) (error : Error) (k j : nat) : State :=
  {| remainingBytes := totalRemainingBytes this;
     blockIDList := [];
     artifacts := {| iv := ∅; ad := "none"; at_ := ∅; range := ∅;
                     encryption_stratergy := AES_GCM |};
     promise := match j with O => Pending | S _ => Rejected error end;
     pool := {| size := simultaneousUploads this; running := 0; queue := [] |};
     jobs := replicate j (Caught AtBase64 error) ++ replicate (k - j) Queued;
     trace := replicate j (OnError error) |}.

(** ** Example uploads in the browser *)

(** ["caf"] and U+00E9, and ["bloc"] and U+0100, as UTF-8. *)
Definition prefix_latin1 : string := "caf" +:+ String "195" (String "169" EmptyString).

Definition prefix_beyond : string := "bloc" +:+ String "196" (String "128" EmptyString).

Definition web_opts (prefix : string) : Opts :=
  {| opt_blockIDPrefix := VString prefix;
     opt_blockSize := VNumber 4;
     opt_simultaneousUploads := VNumber 2 |}.

(** [new AzureBlockUpload("https://blob/a", file, { blockIDPrefix, blockSize: 4,
    simultaneousUploads: 2 })] for a file of 10 bytes, and the object it
    returns. *)
Definition web_new (prefix : string) : result AzureBlockUpload :=
  constructor browser (VString "https://blob/a")
    (VFile "a.bin" 10 "application/octet-stream") (web_opts prefix).

Definition web_upload (prefix : string) : AzureBlockUpload :=
  with_blockIDPrefix (VString prefix) (example_upload 10 4).

(** The example upload with the prefix [1e21], a number, and with a symbol
    for a prefix. *)
Definition numbered_upload : AzureBlockUpload :=
  with_blockIDPrefix (VNumber (10 ^ 21)) (example_upload 10 4).

Definition symbol_upload : AzureBlockUpload :=
  with_blockIDPrefix VSymbol (example_upload 10 4).
(** * Properties *)

(** ** The block plan *)

Lemma js_rem_pos (a b : Z) : 0 <= a -> 0 < b -> js_rem a b = Fin (a mod b).
Proof.
  intros Ha Hb. unfold js_rem.
  destruct (Z.eqb_spec b 0) as [->|_]; [lia|].
  now rewrite Z.rem_mod_nonneg by lia.
Qed.

Lemma is_zero_Fin (z : Z) : is_zero (Fin z) = (z =? 0).
Proof. now destruct z. Qed.

Lemma ceil_div_bounds (a b : Z) :
  0 < b -> (ceil_div a b - 1) * b < a <= ceil_div a b * b.
Proof.
  intros Hb. unfold ceil_div.
  pose proof (Z.div_mod (a + b - 1) b ltac:(lia)) as E.
  pose proof (Z.mod_pos_bound (a + b - 1) b Hb) as B.
  nia.
Qed.

Lemma ceil_div_unique (a b q : Z) :
  0 < b -> (q - 1) * b < a <= q * b -> q = ceil_div a b.
Proof.
  intros Hb Hq. pose proof (ceil_div_bounds a b Hb) as Hc. nia.
Qed.

Lemma totalBlocks_value (f bs : Z) :
  0 < f -> 0 < bs ->
  (if is_zero (js_rem f bs) then js_div f bs else Math_ceil (js_div f bs))
  = Fin (ceil_div f bs).
Proof.
  intros Hf Hbs. rewrite js_rem_pos, is_zero_Fin by lia.
  unfold js_div. destruct (Z.eqb_spec bs 0) as [->|_]; [lia|].
  rewrite Z.rem_mod_nonneg by lia.
  pose proof (Z.div_mod f bs ltac:(lia)) as E.
  pose proof (Z.mod_pos_bound f bs Hbs) as B.
  destruct (Z.eqb_spec (f mod bs) 0) as [H0|Hn]; cbn [Math_ceil]; f_equal.
  - rewrite Z.quot_div_nonneg by lia. apply ceil_div_unique; nia.
  - apply ceil_div_unique; [lia|].
    pose proof (Z.div_mod (- f) bs ltac:(lia)) as E'.
    pose proof (Z.mod_pos_bound (- f) bs Hbs) as B'.
    nia.
Qed.

Lemma analizeFile_planned (P : Platform) (this : AzureBlockUpload) :
  0 < fileSize (analizeFile P this) ->
  0 < blockSize (analizeFile P this) ->
  planned (analizeFile P this).
Proof.
  intros Hf Hb. split; try assumption; cbn in *.
  - reflexivity.
  - now apply totalBlocks_value.
Qed.

Lemma constructor_Ok (P : Platform) (url_ file_ : value) (opts : Opts) (u : AzureBlockUpload) :
  constructor P url_ file_ opts = Ok u ->
  exists this, u = analizeFile P this
    /\ file this = file_
    /\ blockSize this = number_or (opt_blockSize opts) (BLOCK_MAX_SIZE P)
    /\ simultaneousUploads this = number_or (opt_simultaneousUploads opts) 3
    /\ blockIDPrefix this = js_or (opt_blockIDPrefix opts) (VString "block").
Proof.
  unfold constructor. cbn [opts_fields]. intros H.
  destruct url_; try discriminate.
  repeat match type of H with (if ?c then _ else _) = _ => destruct c; try discriminate end.
  injection H as <-. eexists. split; [reflexivity|]. cbn. auto.
Qed.

Lemma constructor_planned (P : Platform) (url_ file_ : value) (opts : Opts) (u : AzureBlockUpload) :
  constructor P url_ file_ opts = Ok u ->
  0 < fileSize u -> 0 < blockSize u ->
  planned u.
Proof.
  intros H Hf Hb. apply constructor_Ok in H as (this & -> & _).
  now apply analizeFile_planned.
Qed.

(** A file size that is not negative gives a plan with blocks to send, or a
    loop that submits no job, or (for a block size of 0 and a file that is
    not empty) a loop that does not end. *)
Lemma analizeFile_cases (P : Platform) (this : AzureBlockUpload) :
  0 <= fileSize (analizeFile P this) ->
  planned (analizeFile P this)
  \/ loop_count (totalBlocks (analizeFile P this)) = Some 0%nat
  \/ loop_count (totalBlocks (analizeFile P this)) = None.
Proof.
  intros Hf.
  destruct (Z.ltb_spec 0 (fileSize (analizeFile P this))) as [Hpos|Hz];
    [destruct (Z.ltb_spec 0 (blockSize (analizeFile P this))) as [Hb|Hb]|].
  - left. now apply analizeFile_planned.
  - (* a block size that is not positive *)
    right. cbn in Hpos, Hb |- *.
    set (f := getSize P (file this)) in *.
    set (bs := if f <? blockSize this then f else blockSize this) in *.
    unfold js_rem, js_div.
    destruct (Z.eqb_spec bs 0) as [E0|Hn0].
    + destruct (Z.eqb_spec f 0); [lia|]. cbn.
      destruct (Z.ltb_spec f 0); [lia|]. now right.
    + left. rewrite is_zero_Fin.
      destruct (Z.eqb_spec (Z.rem f bs) 0) as [Er|Er]; cbn [Math_ceil loop_count]; f_equal.
      * pose proof (Z.quot_rem' f bs) as Hq. nia.
      * pose proof (Z.div_mod (- f) bs Hn0) as Hd.
        pose proof (Z.mod_neg_bound (- f) bs ltac:(lia)) as Hm. nia.
  - (* an empty file *)
    right. cbn in Hf, Hz |- *.
    set (f := getSize P (file this)) in *.
    assert (E : f = 0) by lia. rewrite E.
    set (bs := if 0 <? blockSize this then 0 else blockSize this).
    unfold js_rem, js_div.
    destruct (Z.eqb_spec bs 0) as [E0|Hn0]; [now left|].
    left. rewrite is_zero_Fin, Z.rem_0_l by exact Hn0. cbn.
    now rewrite Z.quot_0_l by exact Hn0.
Qed.

Lemma constructor_cases (P : Platform) (url_ file_ : value) (opts : Opts) (u : AzureBlockUpload) :
  constructor P url_ file_ opts = Ok u -> 0 <= fileSize u ->
  planned u \/ loop_count (totalBlocks u) = Some 0%nat \/ loop_count (totalBlocks u) = None.
Proof.
  intros H Hf. apply constructor_Ok in H as (this & -> & _). now apply analizeFile_cases.
Qed.

(** An upload of [tb > 0] blocks has a file that is not empty and a
    positive block size. *)
Lemma blocks_planned (P : Platform) (url_ file_ : value) (opts : Opts) (u : AzureBlockUpload)
    (tb : Z) :
  constructor P url_ file_ opts = Ok u -> 0 <= fileSize u ->
  totalBlocks u = Fin tb -> 0 < tb ->
  planned u.
Proof.
  intros H Hf Htb Hpos.
  destruct (constructor_cases _ _ _ _ _ H Hf) as [Hp|[Hn|Hn]]; [exact Hp|exfalso..];
    rewrite Htb in Hn; cbn in Hn; [injection Hn as Hn; lia|discriminate Hn].
Qed.

Lemma planned_blocks_pos (u : AzureBlockUpload) :
  planned u -> 0 < ceil_div (fileSize u) (blockSize u).
Proof.
  intros [Hf Hb _ _]. pose proof (ceil_div_bounds (fileSize u) (blockSize u) Hb). nia.
Qed.

Lemma lookup_map_seq {A} (g : nat -> A) (k n : nat) :
  map g (seq 0 k) !! n = if (n <? k)%nat then Some (g n) else None.
Proof.
  assert (G : forall a, map g (seq a k) !! n
                        = if (n <? k)%nat then Some (g (a + n)%nat) else None).
  { revert n. induction k as [|k IH]; intros n a; [now destruct n|].
    destruct n as [|n]; cbn [seq map].
    - cbn. now rewrite Nat.add_0_r.
    - change ((g a :: map g (seq (S a) k)) !! S n) with (map g (seq (S a) k) !! n).
      rewrite IH. change (S n <? S k)%nat with (n <? k)%nat.
      destruct (n <? k)%nat; [|reflexivity]. do 2 f_equal. lia. }
  apply G.
Qed.

Lemma sum_lengths_app (l1 l2 : list (Z * Z)) :
  sum_lengths (l1 ++ l2) = sum_lengths l1 + sum_lengths l2.
Proof.
  unfold sum_lengths. induction l1 as [|r l1 IH]; cbn; [reflexivity|].
  cbn in IH. rewrite IH. lia.
Qed.

(** Ranges that follow one another add up to the distance from the first
    start to the last end. *)
Lemma sum_lengths_chain (lo hi : nat -> Z) (k : nat) :
  (forall n, (n < k)%nat -> hi n = lo (S n)) ->
  sum_lengths (map (fun n => (lo n, hi n)) (seq 0 (S k))) = hi k - lo 0%nat.
Proof.
  induction k as [|k IH]; intros Hc.
  - cbn. unfold range_length. cbn. lia.
  - rewrite seq_S, map_app, sum_lengths_app, IH by (intros; apply Hc; lia).
    cbn [map Nat.add]. unfold sum_lengths. cbn. unfold range_length. cbn.
    rewrite (Hc k) by lia. lia.
Qed.

Section Plan.

Variable u : AzureBlockUpload.
Hypothesis Hu : planned u.

Let f := fileSize u.
Let bs := blockSize u.
Let tb := ceil_div f bs.

Lemma plan_bounds : 0 < f /\ 0 < bs /\ 0 < tb /\ (tb - 1) * bs < f <= tb * bs.
Proof.
  destruct Hu as [Hf Hb _ _]. subst f bs tb.
  pose proof (ceil_div_bounds (fileSize u) (blockSize u) Hb). repeat split; nia.
Qed.

Lemma block_to_min (n : nat) :
  block_to u n = Z.min ((Z.of_nat n + 1) * bs) f.
Proof.
  unfold block_to. fold bs f.
  destruct (Z.ltb_spec ((Z.of_nat n + 1) * bs) f); lia.
Qed.

Lemma block_to_inner (n : nat) :
  Z.of_nat n + 1 < tb -> block_to u n = block_from u (S n).
Proof.
  intros Hn. rewrite block_to_min. unfold block_from. fold bs.
  destruct plan_bounds as (_ & Hb & _ & Hlo & _). nia.
Qed.

Lemma block_to_last (n : nat) :
  Z.of_nat n + 1 = tb -> block_to u n = f.
Proof.
  intros Hn. rewrite block_to_min.
  destruct plan_bounds as (_ & Hb & _ & _ & Hhi). nia.
Qed.

Lemma block_nonempty (n : nat) :
  Z.of_nat n < tb -> 0 <= block_from u n < block_to u n /\ block_to u n <= f.
Proof.
  intros Hn. rewrite block_to_min. unfold block_from. fold bs.
  destruct plan_bounds as (_ & Hb & _ & Hlo & Hhi). nia.
Qed.

Lemma block_ranges_planned :
  block_ranges u
  = Some (map (fun n => (block_from u n, block_to u n)) (seq 0 (Z.to_nat tb))).
Proof.
  unfold block_ranges. now rewrite (planned_totalBlocks u Hu).
Qed.

Lemma block_ranges_sum :
  sum_lengths (map (fun n => (block_from u n, block_to u n)) (seq 0 (Z.to_nat tb))) = f.
Proof.
  destruct plan_bounds as (_ & Hb & Htb & _).
  destruct (Z.to_nat tb) as [|k] eqn:Ek; [lia|].
  rewrite sum_lengths_chain by (intros n Hn; apply block_to_inner; lia).
  rewrite (block_to_last k) by lia.
  unfold block_from. cbn [Z.of_nat]. lia.
Qed.

Lemma block_covering (x : Z) :
  0 <= x < f ->
  exists n, Z.of_nat n < tb /\ block_from u n <= x < block_to u n.
Proof.
  intros Hx. destruct plan_bounds as (_ & Hb & _ & Hlo & Hhi).
  exists (Z.to_nat (x / bs)).
  pose proof (Z.div_mod x bs ltac:(lia)) as E.
  pose proof (Z.mod_pos_bound x bs Hb) as B.
  assert (0 <= x / bs) by (apply Z.div_pos; lia).
  rewrite block_to_min. unfold block_from. fold bs.
  rewrite Z2Nat.id by lia. nia.
Qed.

Lemma block_disjoint (n m : nat) (x : Z) :
  block_from u n <= x < block_to u n ->
  block_from u m <= x < block_to u m ->
  n = m.
Proof.
  rewrite !block_to_min. unfold block_from. fold bs.
  destruct plan_bounds as (_ & Hb & _). intros Hn Hm.
  assert (Z.of_nat n = Z.of_nat m) by nia. lia.
Qed.

End Plan.

(** C5 (as amended: files that are not empty).  For a file of [f > 0] bytes
    and a requested block size [b > 0], the plan has
    [totalBlocks = ceil(f / blockSize)] blocks, where [blockSize] is the
    smaller of [f] and [b]; block [n] covers
    [[n * blockSize, min((n+1) * blockSize, f))]; no block is empty, every
    byte offset of the file lies in exactly one block, and the lengths of the
    blocks add up to [f]. *)
Theorem plan_partitions_file
    (P : Platform) (url_ file_ : value) (opts : Opts) (u : AzureBlockUpload) (f b : Z) :
  constructor P url_ file_ opts = Ok u ->
  getSize P file_ = f -> 0 < f ->
  opt_blockSize opts = VNumber b -> 0 < b ->
  fileSize u = f /\ blockSize u = Z.min f b /\
  exists (tb : Z) (rs : list (Z * Z)),
    totalBlocks u = Fin tb
    /\ (tb - 1) * blockSize u < f <= tb * blockSize u
    /\ block_ranges u = Some rs
    /\ Z.of_nat (length rs) = tb
    /\ (forall n : nat, Z.of_nat n < tb ->
          rs !! n = Some (Z.of_nat n * blockSize u,
                          Z.min ((Z.of_nat n + 1) * blockSize u) f))
    /\ (forall (n : nat) lo hi, rs !! n = Some (lo, hi) -> 0 <= lo < hi /\ hi <= f)
    /\ (forall x, 0 <= x < f ->
          exists (n : nat) lo hi, rs !! n = Some (lo, hi) /\ lo <= x < hi)
    /\ (forall (n m : nat) lo hi lo' hi' x,
          rs !! n = Some (lo, hi) -> rs !! m = Some (lo', hi') ->
          lo <= x < hi -> lo' <= x < hi' -> n = m)
    /\ sum_lengths rs = f.
Proof.
  intros Hc Hsize Hf Hb Hbpos.
  apply constructor_Ok in Hc as (this & -> & Hfile & Hbs & _).
  assert (Ef : fileSize (analizeFile P this) = f) by (cbn; now rewrite Hfile).
  assert (Eb : blockSize (analizeFile P this) = Z.min f b).
  { cbn. rewrite Hfile, Hsize, Hbs, Hb. unfold number_or, js_or. cbn.
    destruct (Z.eqb_spec b 0); [lia|]. cbn.
    destruct (Z.ltb_spec f b); lia. }
  assert (Hu : planned (analizeFile P this)) by (apply analizeFile_planned; lia).
  set (u := analizeFile P this) in *.
  destruct (plan_bounds u Hu) as (_ & Hbs' & Htb & Hlo & Hhi).
  split; [exact Ef|]. split; [exact Eb|].
  exists (ceil_div (fileSize u) (blockSize u)), 
         (map (fun n => (block_from u n, block_to u n))
              (seq 0 (Z.to_nat (ceil_div (fileSize u) (blockSize u))))).
  rewrite <- Ef.
  split; [apply (planned_totalBlocks u Hu)|].
  split; [lia|].
  split; [apply (block_ranges_planned u Hu)|].
  split; [rewrite length_map, length_seq; lia|].
  assert (L : forall (n : nat) lo hi,
             map (fun n => (block_from u n, block_to u n))
                 (seq 0 (Z.to_nat (ceil_div (fileSize u) (blockSize u)))) !! n
             = Some (lo, hi) ->
             Z.of_nat n < ceil_div (fileSize u) (blockSize u)
             /\ lo = block_from u n /\ hi = block_to u n).
  { intros n lo hi. rewrite lookup_map_seq.
    destruct (Nat.ltb_spec n (Z.to_nat (ceil_div (fileSize u) (blockSize u))));
      [|discriminate].
    intros [= <- <-]. repeat split; lia. }
  repeat split.
  - intros n Hn. rewrite lookup_map_seq.
    destruct (Nat.ltb_spec n (Z.to_nat (ceil_div (fileSize u) (blockSize u)))); [|lia].
    rewrite block_to_min. reflexivity.
  - apply L in H as (Hn & -> & ->). apply (block_nonempty u Hu n Hn).
  - apply L in H as (Hn & -> & ->). apply (block_nonempty u Hu n Hn).
  - apply L in H as (Hn & -> & ->). apply (block_nonempty u Hu n Hn).
  - intros x Hx. destruct (block_covering u Hu x Hx) as (n & Hn & Hin).
    exists n, (block_from u n), (block_to u n). split; [|exact Hin].
    rewrite lookup_map_seq.
    destruct (Nat.ltb_spec n (Z.to_nat (ceil_div (fileSize u) (blockSize u)))); [reflexivity|lia].
  - intros n m lo hi lo' hi' x Hn Hm Hx Hx'.
    apply L in Hn as (_ & -> & ->). apply L in Hm as (_ & -> & ->).
    exact (block_disjoint u Hu n m x Hx Hx').
  - apply (block_ranges_sum u Hu).
Qed.

(** The plan of a file of 10 bytes in blocks of 4: [plan_partitions_file]
    applies, and the blocks are [0,4), [4,8) and [8,10). *)
Lemma plan_partitions_file_example :
  example_new 10 (VNumber 4) = Ok (example_upload 10 4)
  /\ 0 < getSize browser (VFile "a.bin" 10 "application/octet-stream")
  /\ totalBlocks (example_upload 10 4) = Fin 3
  /\ exists rs, block_ranges (example_upload 10 4) = Some rs
                /\ rs = [(0, 4); (4, 8); (8, 10)]
                /\ sum_lengths rs = 10.
Proof.
  destruct (plan_partitions_file browser (VString "https://blob/a")
              (VFile "a.bin" 10 "application/octet-stream")
              (example_opts (VNumber 4)) (example_upload 10 4) 10 4)
    as (_ & _ & tb & rs & Htb & _ & Hrs & _ & _ & _ & _ & _ & Hsum);
    [reflexivity | reflexivity | lia | reflexivity | lia |].
  split; [reflexivity|]. split; [reflexivity|]. split; [reflexivity|].
  exists rs. split; [exact Hrs|]. split; [|exact Hsum].
  vm_compute in Hrs. now injection Hrs as <-.
Defined.

(** C5, the claim as it was stated: for an empty file the block size becomes
    0, [0 % 0] is [NaN], and [totalBlocks] is [NaN], not the number of
    blocks of a plan. *)
Lemma plan_of_empty_file_has_no_block_count :
  example_new 0 (VNumber 4) = Ok (example_upload 0 4)
  /\ fileSize (example_upload 0 4) = 0
  /\ blockSize (example_upload 0 4) = 0
  /\ totalBlocks (example_upload 0 4) = NaN
  /\ ~ (exists tb : Z, totalBlocks (example_upload 0 4) = Fin tb).
Proof.
  repeat split; try reflexivity. intros [tb H]. discriminate H.
Qed.

(** ** The errors of the constructor *)

Lemma jstype_eqb_eq (a b : jstype) : jstype_eqb a b = true <-> a = b.
Proof. destruct a, b; cbn; split; congruence. Qed.

(** C9, the claim as it was stated: a block size of -4, and one of 0, are
    accepted, and so is a file whose size reads as negative. *)
Lemma constructor_accepts_nonpositive_block_size :
  (forall e, example_new 10 (VNumber (-4)) <> Err e)
  /\ (exists u, example_new 10 (VNumber (-4)) = Ok u /\ blockSize u = -4
                /\ totalBlocks u = Fin (-2))
  /\ (exists u, example_new 10 (VNumber 0) = Ok u /\ blockSize u = 10)
  /\ (exists u, example_new (-1) (VNumber 4) = Ok u /\ fileSize u = -1).
Proof.
  split; [intros e H; discriminate H|].
  repeat split; eexists; (split; [reflexivity|]); try split; reflexivity.
Qed.

(** ** Block identifiers *)

Lemma sextet_of_base64_digit (s : sextet) : sextet_of_digit (base64_digit s) = Some s.
Proof.
  destruct s as [[[[[b5 b4] b3] b2] b1] b0].
  destruct b5, b4, b3, b2, b1, b0; vm_compute; reflexivity.
Qed.

Lemma base64_digit_inj (s s' : sextet) : base64_digit s = base64_digit s' -> s = s'.
Proof.
  intros H. apply (f_equal sextet_of_digit) in H.
  rewrite !sextet_of_base64_digit in H. congruence.
Qed.

Lemma base64_digit_not_pad (s : sextet) : base64_digit s <> base64_pad.
Proof.
  destruct s as [[[[[b5 b4] b3] b2] b1] b0].
  destruct b5, b4, b3, b2, b1, b0; vm_compute; discriminate.
Qed.

Lemma digits3_inj (a b c a' b' c' : ascii) :
  digits3 a b c = digits3 a' b' c' -> a = a' /\ b = b' /\ c = c'.
Proof.
  destruct a, b, c, a', b', c'. cbn. intros [= -> -> -> -> -> -> -> -> -> -> -> ->
                                             -> -> -> -> -> -> -> -> -> -> -> ->].
  auto.
Qed.

(** The digits of one byte, and of two, with the missing bytes read as zero. *)
Lemma digits1_inj (a a' : ascii) :
  fst (fst (fst (digits3 a zero zero))) = fst (fst (fst (digits3 a' zero zero))) ->
  snd (fst (fst (digits3 a zero zero))) = snd (fst (fst (digits3 a' zero zero))) ->
  a = a'.
Proof.
  destruct a, a'. cbn. intros [= -> -> -> -> -> ->] [= -> ->]. reflexivity.
Qed.

Lemma digits2_inj (a b a' b' : ascii) :
  fst (fst (fst (digits3 a b zero))) = fst (fst (fst (digits3 a' b' zero))) ->
  snd (fst (fst (digits3 a b zero))) = snd (fst (fst (digits3 a' b' zero))) ->
  snd (fst (digits3 a b zero)) = snd (fst (digits3 a' b' zero)) ->
  a = a' /\ b = b'.
Proof.
  destruct a, b, a', b'. cbn.
  intros [= -> -> -> -> -> ->] [= -> -> -> -> -> ->] [= -> -> -> ->]. auto.
Qed.

Lemma digits3_parts_inj (a b c a' b' c' : ascii) :
  fst (fst (fst (digits3 a b c))) = fst (fst (fst (digits3 a' b' c'))) ->
  snd (fst (fst (digits3 a b c))) = snd (fst (fst (digits3 a' b' c'))) ->
  snd (fst (digits3 a b c)) = snd (fst (digits3 a' b' c')) ->
  snd (digits3 a b c) = snd (digits3 a' b' c') ->
  a = a' /\ b = b' /\ c = c'.
Proof.
  intros H1 H2 H3 H4. apply digits3_inj.
  destruct (digits3 a b c) as [[[s1 s2] s3] s4], (digits3 a' b' c') as [[[t1 t2] t3] t4].
  cbn in *. congruence.
Qed.

Lemma base64_unfold3 (a b c : ascii) (rest : string) :
  base64 (String a (String b (String c rest)))
  = String (base64_digit (fst (fst (fst (digits3 a b c)))))
      (String (base64_digit (snd (fst (fst (digits3 a b c)))))
         (String (base64_digit (snd (fst (digits3 a b c))))
            (String (base64_digit (snd (digits3 a b c))) (base64 rest)))).
Proof. destruct a, b, c. reflexivity. Qed.

Lemma base64_unfold2 (a b : ascii) :
  base64 (String a (String b EmptyString))
  = String (base64_digit (fst (fst (fst (digits3 a b zero)))))
      (String (base64_digit (snd (fst (fst (digits3 a b zero)))))
         (String (base64_digit (snd (fst (digits3 a b zero))))
            (String base64_pad EmptyString))).
Proof. destruct a, b. reflexivity. Qed.

Lemma base64_unfold1 (a : ascii) :
  base64 (String a EmptyString)
  = String (base64_digit (fst (fst (fst (digits3 a zero zero)))))
      (String (base64_digit (snd (fst (fst (digits3 a zero zero)))))
         (String base64_pad (String base64_pad EmptyString))).
Proof. destruct a. reflexivity. Qed.

(** Strings three characters at a time. *)
Lemma string_triples_ind (Q : string -> Prop) :
  Q EmptyString ->
  (forall a, Q (String a EmptyString)) ->
  (forall a b, Q (String a (String b EmptyString))) ->
  (forall a b c rest, Q rest -> Q (String a (String b (String c rest)))) ->
  forall s, Q s.
Proof.
  intros H0 H1 H2 H3.
  fix IH 1. intros [|a [|b [|c rest]]];
    [apply H0 | apply H1 | apply H2 | apply H3, IH].
Qed.

Lemma base64_inj (s s' : string) : base64 s = base64 s' -> s = s'.
Proof.
  revert s'. induction s as [|a|a b|a b c rest IH] using string_triples_ind;
    intros [|a' [|b' [|c' rest']]];
    rewrite ?base64_unfold1, ?base64_unfold2, ?base64_unfold3;
    try reflexivity; try discriminate; intros H; injection H; clear H; intros;
    repeat match goal with
           | E : base64_digit _ = base64_pad |- _ =>
             exfalso; exact (base64_digit_not_pad _ E)
           | E : base64_pad = base64_digit _ |- _ =>
             exfalso; exact (base64_digit_not_pad _ (eq_sym E))
           | E : base64_digit _ = base64_digit _ |- _ => apply base64_digit_inj in E
           end.
  - f_equal. eapply digits1_inj; eassumption.
  - destruct (digits2_inj a b a' b') as [-> ->]; [eassumption..|reflexivity].
  - destruct (digits3_parts_inj a b c a' b' c') as (-> & -> & ->); [eassumption..|].
    do 3 f_equal. now apply IH.
Qed.

Lemma append_inv_head (p a b : string) : p +:+ a = p +:+ b -> a = b.
Proof. induction p as [|c p IH]; cbn; [auto|]. intros [= H]. auto. Qed.

Lemma length_spaces (k : nat) : String.length (spaces k) = k.
Proof. induction k as [|k IH]; [reflexivity|]. cbn [spaces zeros String.length]. now rewrite IH. Qed.

Lemma length_zeros (k : nat) : String.length (zeros k) = k.
Proof. induction k as [|k IH]; [reflexivity|]. cbn [spaces zeros String.length]. now rewrite IH. Qed.

Lemma length_append (a b : string) :
  String.length (a +:+ b) = (String.length a + String.length b)%nat.
Proof.
  induction a as [|c a IH]; [reflexivity|].
  change (String c a +:+ b) with (String c (a +:+ b)). cbn [String.length]. now rewrite IH.
Qed.

Lemma drop_spaces_padding (k : nat) (s : string) :
  starts_with_space s = false -> drop_spaces (spaces k +:+ s) = s.
Proof.
  intros Hs. induction k as [|k IH]; cbn; [|exact IH].
  destruct s as [|c s]; [reflexivity|].
  cbn in Hs |- *.
  destruct c as [[] [] [] [] [] [] [] []]; try reflexivity; discriminate Hs.
Qed.

Lemma drop_spaces_padStart (s : string) (n : nat) :
  starts_with_space s = false -> drop_spaces (padStart s n) = s.
Proof.
  intros Hs. unfold padStart. destruct (_ <? _)%nat.
  - now apply drop_spaces_padding.
  - now apply (drop_spaces_padding 0).
Qed.

Lemma length_padStart (s : string) (n : nat) :
  String.length (padStart s n) = Nat.max n (String.length s).
Proof.
  unfold padStart. destruct (Nat.ltb_spec (String.length s) n).
  - rewrite length_append, length_spaces. lia.
  - lia.
Qed.

Lemma to_uint_not_Nil (n : nat) : Nat.to_uint n <> Decimal.Nil.
Proof.
  intros H. pose proof (DecimalNat.Unsigned.to_of (Nat.to_uint n)) as E.
  rewrite DecimalNat.Unsigned.of_to, H in E. discriminate E.
Qed.

Lemma string_of_nat_inj (n m : nat) : string_of_nat n = string_of_nat m -> n = m.
Proof.
  unfold string_of_nat. intros H.
  apply (f_equal NilZero.uint_of_string) in H.
  rewrite !NilZero.usu in H by apply to_uint_not_Nil.
  injection H as H. now apply DecimalNat.Unsigned.to_uint_inj.
Qed.

Lemma string_of_nat_no_space (n : nat) : starts_with_space (string_of_nat n) = false.
Proof.
  unfold string_of_nat. now destruct (Nat.to_uint n).
Qed.

Lemma padStart_index_inj (n m k : nat) :
  padStart (string_of_nat n) k = padStart (string_of_nat m) k -> n = m.
Proof.
  intros H. apply (f_equal drop_spaces) in H.
  rewrite !drop_spaces_padStart in H by apply string_of_nat_no_space.
  now apply string_of_nat_inj.
Qed.

Lemma blockID_inj (u : AzureBlockUpload) (n m : nat) :
  blockID u n = blockID u m -> n = m.
Proof.
  unfold blockID. intros H.
  apply base64_inj, append_inv_head in H. now apply padStart_index_inj in H.
Qed.

(** The width of a decimal numeral: a number with [k + 1] digits is at least
    [10 ^ k]. *)
Lemma of_uint_acc_lower (d : Decimal.uint) (acc : nat) :
  (acc * 10 ^ Decimal.nb_digits d <= Nat.of_uint_acc d acc)%nat.
Proof.
  revert acc. induction d; intros acc; cbn [Nat.of_uint_acc Decimal.nb_digits];
    [rewrite Nat.pow_0_r; lia | ..];
    (etransitivity; [|apply IHd]);
    rewrite Nat.tail_mul_spec, Nat.pow_succ_r';
    generalize (10 ^ Decimal.nb_digits d)%nat; intros p; nia.
Qed.

Lemma nzhead_not_D0 (d d' : Decimal.uint) : Decimal.nzhead d <> Decimal.D0 d'.
Proof. induction d; cbn; try discriminate; assumption. Qed.

Lemma to_uint_digits (n : nat) :
  n <> 0%nat -> (10 ^ (Decimal.nb_digits (Nat.to_uint n) - 1) <= n)%nat.
Proof.
  intros Hn.
  pose proof (DecimalNat.Unsigned.of_to n) as E.
  pose proof (DecimalNat.Unsigned.to_of (Nat.to_uint n)) as N. rewrite E in N.
  destruct (Nat.to_uint n) as [|d|d|d|d|d|d|d|d|d|d] eqn:Ed;
    [now destruct (to_uint_not_Nil n) | ..];
    cbn [Decimal.nb_digits]; rewrite Nat.sub_succ, Nat.sub_0_r;
    rewrite <- E; unfold Nat.of_uint; cbn [Nat.of_uint_acc];
    try (etransitivity; [|apply of_uint_acc_lower]; cbn; lia).
  (* a leading zero: the numeral is 0 *)
  exfalso. unfold Decimal.unorm in N. cbn [Decimal.nzhead] in N.
  destruct (Decimal.nzhead d) eqn:Hd;
    try (symmetry in N; rewrite <- Hd in N; exact (nzhead_not_D0 _ _ N)).
  injection N as ->. cbn in E. congruence.
Qed.

Lemma length_string_of_uint (d : Decimal.uint) :
  d <> Decimal.Nil -> String.length (NilZero.string_of_uint d) = Decimal.nb_digits d.
Proof.
  assert (G : forall d, String.length (NilEmpty.string_of_uint d) = Decimal.nb_digits d).
  { clear d. induction d; cbn; congruence. }
  intros Hd. destruct d; [contradiction | ..]; apply G.
Qed.

Lemma length_string_of_nat (n k : nat) :
  (0 < k)%nat -> Z.of_nat n < 10 ^ Z.of_nat k ->
  (String.length (string_of_nat n) <= k)%nat.
Proof.
  intros Hk Hz.
  assert (Hn : (n < 10 ^ k)%nat).
  { apply Nat2Z.inj_lt. now rewrite Nat2Z.inj_pow. }
  unfold string_of_nat.
  rewrite length_string_of_uint by apply to_uint_not_Nil.
  destruct (Nat.eq_dec n 0%nat) as [->|Hn0]; [cbn; lia|].
  pose proof (to_uint_digits n Hn0) as H.
  destruct (Nat.le_gt_cases (Decimal.nb_digits (Nat.to_uint n)) k) as [|Hgt]; [assumption|].
  exfalso. assert (10 ^ k <= 10 ^ (Decimal.nb_digits (Nat.to_uint n) - 1))%nat
    by (apply Nat.pow_le_mono_r; lia). lia.
Qed.

(** ** Counting phases and reading traces *)

Lemma count_app (f : Phase -> bool) (l1 l2 : list Phase) :
  count f (l1 ++ l2) = (count f l1 + count f l2)%nat.
Proof. induction l1 as [|p l1 IH]; cbn; [reflexivity|]. rewrite IH. lia. Qed.

Lemma count_insert (f : Phase -> bool) (l : list Phase) (n : nat) (p q : Phase) :
  l !! n = Some p ->
  (count f (<[n := q]> l) + (if f p then 1 else 0)
   = count f l + (if f q then 1 else 0))%nat.
Proof.
  revert n. induction l as [|x l IH]; intros [|n] H; try discriminate H.
  - injection H as ->. change (<[0%nat := q]> (p :: l)) with (q :: l).
    cbn [count]. destruct (f p), (f q); lia.
  - change (<[S n := q]> (x :: l)) with (x :: <[n := q]> l).
    change ((x :: l) !! S n) with (l !! n) in H.
    cbn [count]. specialize (IH n H). destruct (f x), (f p), (f q); lia.
Qed.

Lemma count_le_length (f : Phase -> bool) (l : list Phase) :
  (count f l <= length l)%nat.
Proof. induction l as [|p l IH]; cbn; [lia|]. destruct (f p); lia. Qed.

Lemma count_lt_length (f : Phase -> bool) (l : list Phase) (n : nat) (p : Phase) :
  l !! n = Some p -> f p = false -> (count f l < length l)%nat.
Proof.
  revert n. induction l as [|x l IH]; intros [|n] H Hf; try discriminate H.
  - injection H as ->. cbn. rewrite Hf. pose proof (count_le_length f l). lia.
  - cbn in H |- *. specialize (IH n H Hf). destruct (f x); lia.
Qed.

Lemma count_full (f : Phase -> bool) (l : list Phase) (n : nat) (p : Phase) :
  count f l = length l -> l !! n = Some p -> f p = true.
Proof.
  intros Hc H. destruct (f p) eqn:Hf; [reflexivity|].
  pose proof (count_lt_length f l n p H Hf). lia.
Qed.

Lemma count_all (f : Phase -> bool) (l : list Phase) :
  forallb f l = true -> count f l = length l.
Proof.
  induction l as [|p l IH]; cbn; [reflexivity|].
  intros [Hp Hl]%andb_prop. rewrite Hp, IH by assumption. lia.
Qed.

Lemma count_none (f : Phase -> bool) (l : list Phase) :
  (forall p, In p l -> f p = false) -> count f l = 0%nat.
Proof.
  induction l as [|p l IH]; intros H; cbn; [reflexivity|].
  rewrite (H p), IH; [reflexivity| |now left]. intros q Hq. apply H. now right.
Qed.

Lemma count_implies (f g : Phase -> bool) (l : list Phase) :
  (forall p, f p = true -> g p = true) -> (count f l <= count g l)%nat.
Proof.
  intros H. induction l as [|p l IH]; cbn; [lia|].
  destruct (f p) eqn:Hf; [rewrite (H p Hf)|destruct (g p)]; lia.
Qed.

Lemma forallb_lookup (f : Phase -> bool) (l : list Phase) (n : nat) (p : Phase) :
  forallb f l = true -> l !! n = Some p -> f p = true.
Proof.
  intros H Hn. rewrite forallb_forall in H. apply H.
  apply list_elem_of_In. apply list_elem_of_lookup. eauto.
Qed.

Lemma work_insert (l : list Phase) (n : nat) (p q : Phase) :
  l !! n = Some p ->
  (work (<[n := q]> l) + weight p = work l + weight q)%nat.
Proof.
  revert n. induction l as [|x l IH]; intros [|n] H; try discriminate H.
  - injection H as ->. change (<[0%nat := q]> (p :: l)) with (q :: l).
    cbn [work]. lia.
  - change (<[S n := q]> (x :: l)) with (x :: <[n := q]> l).
    change ((x :: l) !! S n) with (l !! n) in H.
    cbn [work]. specialize (IH n H). lia.
Qed.

Lemma work_zero (l : list Phase) : work l = 0%nat -> forallb settled l = true.
Proof.
  induction l as [|p l IH]; cbn; [reflexivity|].
  intros H. rewrite IH by lia. now destruct p.
Qed.

Lemma commit_callers_app (t1 t2 : list Event) :
  commit_callers (t1 ++ t2) = commit_callers t1 ++ commit_callers t2.
Proof. apply flat_map_app. Qed.

Lemma committed_lists_app (t1 t2 : list Event) :
  committed_lists (t1 ++ t2) = committed_lists t1 ++ committed_lists t2.
Proof. apply flat_map_app. Qed.

Lemma successes_app (t1 t2 : list Event) :
  successes (t1 ++ t2) = successes t1 ++ successes t2.
Proof. apply flat_map_app. Qed.

Lemma errors_app (t1 t2 : list Event) : errors (t1 ++ t2) = errors t1 ++ errors t2.
Proof. apply flat_map_app. Qed.

Lemma blocks_read_app (t1 t2 : list Event) :
  blocks_read (t1 ++ t2) = blocks_read t1 ++ blocks_read t2.
Proof. apply flat_map_app. Qed.

Lemma blocks_put_app (t1 t2 : list Event) :
  blocks_put (t1 ++ t2) = blocks_put t1 ++ blocks_put t2.
Proof. apply flat_map_app. Qed.

Lemma first_settlement_app (t1 t2 : list Event) :
  first_settlement (t1 ++ t2) = fold_left settle t2 (first_settlement t1).
Proof. apply fold_left_app. Qed.

Create Rewrite HintDb trace_readings.
#[local] Hint Rewrite commit_callers_app committed_lists_app successes_app errors_app
  blocks_read_app blocks_put_app first_settlement_app : trace_readings.

Lemma settlement_of_errors (t : list Event) (p : Promise) :
  successes t = [] ->
  fold_left settle t p
  = match p with
    | Pending => match errors t with [] => Pending | e :: _ => Rejected e end
    | _ => p
    end.
Proof.
  revert p. induction t as [|ev t IH]; intros p Hs; [now destruct p|].
  destruct ev; try discriminate Hs; cbn [fold_left settle]; rewrite IH by exact Hs;
    destruct p; reflexivity.
Qed.

Lemma settlement_of_successes (t : list Event) (p : Promise) :
  errors t = [] ->
  fold_left settle t p
  = match p with
    | Pending => match successes t with [] => Pending | _ :: _ => Resolved VUndefined end
    | _ => p
    end.
Proof.
  revert p. induction t as [|ev t IH]; intros p Hs; [now destruct p|].
  destruct ev; try discriminate Hs; cbn [fold_left settle]; rewrite IH by exact Hs;
    destruct p; reflexivity.
Qed.

(** ** The steps of an upload *)

Section Jobs.

Variable this : AzureBlockUpload.
Variable C : Collaborators.
Variable dataEncryptionKey : value.

Abbreviation step_ := (step this C dataEncryptionKey).
Abbreviation run_ := (run this C dataEncryptionKey).
Abbreviation Step_ := (Step this C dataEncryptionKey).
Abbreviation Invariant_ := (Invariant this C dataEncryptionKey).

Ltac unfold_job :=
  unfold job_begin, job_catch, job_finish, pool_release, set_job, emit, set_pool,
    set_promise, set_artifacts, set_remainingBytes, push_blockID, progress_event;
  cbn [remainingBytes blockIDList artifacts promise pool jobs trace size running queue].

Lemma State_eta (s : State) :
  s = {| remainingBytes := remainingBytes s; blockIDList := blockIDList s;
         artifacts := artifacts s; promise := promise s; pool := pool s;
         jobs := jobs s; trace := trace s |}.
Proof. now destruct s. Qed.

(** Every step is one of the cases of [Step], or changes nothing. *)
Lemma step_Step (a : Action) (s : State) : step_ a s = s \/ Step_ s (step_ a s).
Proof.
  destruct a as [|n]; cbn [step].
  - unfold pool_dispatch. destruct (queue (pool s)) as [|n rest] eqn:Eq; [now left|].
    destruct (Z.ltb_spec (running (pool s)) (size (pool s))); [|now left].
    right. unfold_job. now apply Step_dispatch.
  - destruct (jobs s !! n) as [[|r|r|r| |]|] eqn:En; try now left.
    + (* readBlock settles *)
      right. destruct r as [data|error]; cbn [job_after_read].
      * destruct (truthy dataEncryptionKey) eqn:Ek.
        -- destruct (encryptWithKeyUsingArtefacts C dataEncryptionKey data (randomBytes C n))
             as [[encrypted tag]|error] eqn:Ee; unfold_job.
           ++ eapply (Step_read _ _ _ s n data _ encrypted); [exact En|].
              now apply Encrypted_ok.
           ++ eapply (Step_caught _ _ _ s n _ AtEncrypt error); [exact En|].
              apply Throws_encrypt. now apply Encrypted_failed.
        -- unfold_job. eapply (Step_read _ _ _ s n data _ data); [exact En|].
           now apply Encrypted_plain.
      * unfold_job.
        eapply (Step_caught _ _ _ s n _ AtRead error); [exact En|]. apply Throws_read.
    + (* putBlock settles *)
      right. destruct r as [v|error]; cbn [job_after_putBlock].
      * unfold_job.
        destruct (Z.ltb_spec (remainingBytes s - blockSize this) 0) as [Hneg|Hpos];
          unfold_job.
        -- eapply (Step_put_last _ _ _ s n v); [exact En|lia].
        -- destruct (Z.eqb_spec (remainingBytes s - blockSize this) 0) as [Hz|Hnz];
             unfold_job.
           ++ rewrite Hz. eapply (Step_put_last _ _ _ s n v); [exact En|lia].
           ++ destruct (Z.eqb_spec (remainingBytes s - blockSize this) 0); [contradiction|].
              unfold_job. eapply (Step_put _ _ _ s n v); [exact En|lia].
      * unfold_job.
        eapply (Step_caught _ _ _ s n _ AtPutBlock error); [exact En|]. apply Throws_putBlock.
    + (* commit() settles *)
      right. destruct r as [v|error]; cbn [job_after_commit].
      * unfold_job.
        destruct (Z.eqb_spec (remainingBytes s) 0) as [Hz|Hnz]; unfold_job.
        -- rewrite <- app_assoc. now eapply (Step_commit _ _ _ s n v).
        -- now eapply (Step_commit_early _ _ _ s n v).
      * unfold_job.
        eapply (Step_caught _ _ _ s n _ AtCommit error); [exact En|]. apply Throws_commit.
Qed.

(** *** The loop of [start] *)

Abbreviation loop_state_ := (loop_state this C).
Abbreviation slots_ := (slots this).

Lemma slots_free (j : nat) :
  Z.of_nat (slots_ j) < simultaneousUploads this ->
  slots_ j = j /\ slots_ (S j) = S j.
Proof. unfold slots. lia. Qed.

Lemma slots_full (j : nat) :
  simultaneousUploads this <= Z.of_nat (slots_ j) ->
  slots_ (S j) = slots_ j /\ (slots_ j <= j)%nat.
Proof. unfold slots. lia. Qed.

Lemma slots_le (j : nat) : (slots_ j <= j)%nat.
Proof. unfold slots. lia. Qed.

Lemma pool_run_loop_state (k j : nat) :
  (j < k)%nat -> pool_run this C j (loop_state_ k j) = loop_state_ k (S j).
Proof.
  intros Hj. unfold pool_run. cbn [pool running size loop_state].
  destruct (Z.ltb_spec (Z.of_nat (slots_ j)) (simultaneousUploads this)) as [Hfree|Hfull].
  - destruct (slots_free j Hfree) as [E ES]. unfold loop_state.
    rewrite ES, E. unfold_job. rewrite !seq_S, !map_app. cbn [map Nat.add].
    rewrite !Nat.sub_diag. cbn [seq].
    f_equal.
    + f_equal. lia.
    + rewrite insert_app_r_alt by (rewrite length_map, length_seq; lia).
      rewrite length_map, length_seq, Nat.sub_diag.
      replace (k - j)%nat with (S (k - S j)) by lia.
      cbn [replicate]. now rewrite <- app_assoc.
  - destruct (slots_full j Hfull) as [ES Hle]. unfold loop_state.
    rewrite ES. unfold_job. do 2 f_equal.
    replace (S j - slots_ j)%nat with (S (j - slots_ j)) by lia.
    rewrite seq_S. do 2 f_equal. lia.
Qed.

Lemma start_loop (k j : nat) :
  (j <= k)%nat ->
  fold_left (fun s n => pool_run this C n s) (seq 0 j) (initial_state this k)
  = loop_state_ k j.
Proof.
  induction j as [|j IH]; intros Hj.
  - unfold loop_state, initial_state.
    replace (slots_ 0) with 0%nat by (unfold slots; lia).
    cbn. now rewrite ?Nat.sub_0_r.
  - rewrite seq_S, fold_left_app, IH by lia. cbn [fold_left Nat.add].
    now apply pool_run_loop_state.
Qed.

(** [start] returns with the first jobs, as many as the pool has slots,
    waiting for their blocks, and the others queued. *)
Lemma start_state (tb : Z) :
  totalBlocks this = Fin tb ->
  start this C = Some (loop_state_ (Z.to_nat tb) (Z.to_nat tb)).
Proof.
  intros H. unfold start. rewrite H. cbn [loop_count]. now rewrite start_loop.
Qed.

(** *** The order in which jobs start *)

Lemma count_map_true (f : Phase -> bool) (g : nat -> Phase) (l : list nat) :
  (forall n, f (g n) = true) -> count f (map g l) = length l.
Proof.
  intros H. induction l as [|n l IH]; cbn; [reflexivity|]. now rewrite H, IH.
Qed.

Lemma count_replicate_false (f : Phase -> bool) (p : Phase) (n : nat) :
  f p = false -> count f (replicate n p) = 0%nat.
Proof. intros H. induction n as [|n IH]; cbn; [reflexivity|]. now rewrite H, IH. Qed.

Lemma flat_map_singletons {A B} (g : A -> B) (l : list A) :
  flat_map (fun x => [g x]) l = map g l.
Proof. induction l as [|x l IH]; cbn; [reflexivity|]. now rewrite IH. Qed.

Lemma flat_map_nothing {A B} (l : list A) : flat_map (fun _ : A => @nil B) l = [].
Proof. induction l as [|x l IH]; cbn; auto. Qed.

Lemma loop_state_reads (k j : nat) :
  blocks_read (trace (loop_state_ k j)) = seq 0 (slots_ j)
  /\ blocks_put (trace (loop_state_ k j)) = []
  /\ commit_callers (trace (loop_state_ k j)) = []
  /\ committed_lists (trace (loop_state_ k j)) = []
  /\ successes (trace (loop_state_ k j)) = []
  /\ errors (trace (loop_state_ k j)) = []
  /\ first_settlement (trace (loop_state_ k j)) = Pending.
Proof.
  cbn [loop_state trace].
  unfold blocks_read, blocks_put, commit_callers, committed_lists, successes, errors,
    first_settlement.
  rewrite !flat_map_concat_map, !map_map. cbn.
  rewrite <- !flat_map_concat_map, flat_map_singletons, map_id, !flat_map_nothing.
  repeat split. generalize (seq 0 (slots_ j)). intros l.
  induction l as [|n l IH]; cbn; auto.
Qed.

Lemma loop_state_lookup (k j i : nat) :
  jobs (loop_state_ k j) !! i
  = if (i <? slots_ j)%nat then Some (AwaitRead (read_of this C i))
    else if (i <? k)%nat then Some Queued else None.
Proof.
  cbn [loop_state jobs]. rewrite lookup_app, lookup_map_seq.
  destruct (Nat.ltb_spec i (slots_ j)) as [Hlt|Hge]; [reflexivity|].
  rewrite length_map, length_seq.
  destruct (Nat.ltb_spec i k) as [Hk|Hk].
  - apply lookup_replicate_2. lia.
  - apply lookup_ge_None_2. rewrite length_replicate. lia.
Qed.

Lemma start_Structure (k : nat) : Structure this k (loop_state_ k k).
Proof.
  pose proof (slots_le k) as Hm.
  destruct (loop_state_reads k k) as (Hr & Hp & _).
  assert (L : length (blockIDList (loop_state_ k k)) = slots_ k)
    by (cbn; now rewrite length_map, length_seq).
  split; rewrite ?L.
  - cbn. rewrite length_app, length_map, length_seq, length_replicate. lia.
  - exact Hm.
  - reflexivity.
  - intros i p. rewrite loop_state_lookup.
    destruct (i <? slots_ k)%nat; [now intros [= <-]|].
    destruct (i <? k)%nat; [now intros [= <-]|discriminate].
  - cbn. rewrite count_app, count_map_true, length_seq, count_replicate_false by easy. lia.
  - reflexivity.
  - reflexivity.
  - cbn. rewrite count_app, count_map_true, length_seq, count_replicate_false by easy.
    f_equal. lia.
  - exact Hr.
  - rewrite Hp. intros n [].
Qed.

Lemma queue_head (k : nat) (s : State) (n : nat) (rest : list nat) :
  Structure this k s -> queue (pool s) = n :: rest ->
  n = length (blockIDList s) /\ (n < k)%nat /\ rest = seq (S n) (k - S n)
  /\ jobs s !! n = Some Queued.
Proof.
  intros Hs Hq. rewrite (st_queue _ _ _ Hs) in Hq.
  destruct (k - length (blockIDList s))%nat as [|x] eqn:Ex; [discriminate Hq|].
  cbn [seq] in Hq. injection Hq as <- <-.
  assert (Hlt : (length (blockIDList s) < k)%nat) by lia.
  repeat split; [exact Hlt | f_equal; lia |].
  destruct (lookup_lt_is_Some_2 (jobs s) (length (blockIDList s))) as [p Hp];
    [rewrite (st_jobs _ _ _ Hs); exact Hlt|].
  pose proof (st_started _ _ _ Hs _ _ Hp) as Hst.
  rewrite Nat.ltb_irrefl in Hst. rewrite Hp. now destruct p.
Qed.

Ltac invert_step H :=
  inversion H; subst; clear H;
  try match goal with
      | HT : Throws _ _ _ _ _ _ _ _ _ |- _ => inversion HT; subst; clear HT
      end;
  try match goal with
      | HE : Encrypted _ _ _ _ _ _ _ _ |- _ => inversion HE; subst; clear HE
      end.

Lemma Step_Structure (k : nat) (s s' : State) :
  Structure this k s -> Step_ s s' -> Structure this k s'.
Proof.
  intros Hs Hstep. invert_step Hstep.
  all: pose proof (st_jobs _ _ _ Hs) as Hlen.
  1: { (* the pool starts the next job *)
    destruct (queue_head k s _ _ Hs H) as (-> & Hlt & -> & Hq).
    split; cbn [jobs blockIDList pool trace size running queue];
      rewrite ?length_app, ?length_insert; cbn [length];
      rewrite ?Nat.add_1_r.
    - exact Hlen.
    - lia.
    - rewrite seq_S, map_app. cbn [map Nat.add]. f_equal. apply (st_ids _ _ _ Hs).
    - intros i p Hi. apply list_lookup_insert_Some in Hi as [(<- & <- & _)|(Hne & Hi)].
      + transitivity true; [reflexivity|]. symmetry. apply Nat.ltb_lt. lia.
      + rewrite (st_started _ _ _ Hs _ _ Hi).
        destruct (Nat.ltb_spec i (length (blockIDList s))),
                 (Nat.ltb_spec i (S (length (blockIDList s)))); try reflexivity; lia.
    - pose proof (count_insert started _ _ _ (AwaitRead (readBlock C (file this)
                   (block_from this (length (blockIDList s)))
                   (block_to this (length (blockIDList s))))) Hq) as Hc.
      cbn in Hc. pose proof (st_count _ _ _ Hs). lia.
    - reflexivity.
    - apply (st_size _ _ _ Hs).
    - pose proof (count_insert awaiting _ _ _ (AwaitRead (readBlock C (file this)
                   (block_from this (length (blockIDList s)))
                   (block_to this (length (blockIDList s))))) Hq) as Hc.
      cbn in Hc. pose proof (st_running _ _ _ Hs). lia.
    - rewrite blocks_read_app, (st_reads _ _ _ Hs), seq_S. reflexivity.
    - intros n. rewrite blocks_put_app, app_nil_r. intros Hn.
      pose proof (st_puts _ _ _ Hs n Hn). lia. }
  all: match goal with
       | Hj : jobs _ !! ?n = Some ?p |- Structure _ _ {| jobs := <[?n := ?q]> _ |} =>
         pose proof (count_insert started _ _ _ q Hj) as Hcs;
         pose proof (count_insert awaiting _ _ _ q Hj) as Hca;
         pose proof (st_started _ _ _ Hs _ _ Hj) as Hst;
         pose proof (lookup_lt_Some _ _ _ Hj) as Hn
       end;
    cbn [started awaiting] in Hcs, Hca, Hst;
    (split; cbn [jobs blockIDList pool trace size running queue];
     rewrite ?length_insert;
     [ exact Hlen
     | apply (st_bound _ _ _ Hs)
     | apply (st_ids _ _ _ Hs)
     | intros i p Hi; apply list_lookup_insert_Some in Hi as [(<- & <- & _)|(Hne & Hi)];
       [exact Hst | apply (st_started _ _ _ Hs _ _ Hi)]
     | pose proof (st_count _ _ _ Hs); lia
     | apply (st_queue _ _ _ Hs)
     | apply (st_size _ _ _ Hs)
     | pose proof (st_running _ _ _ Hs); lia
     | rewrite blocks_read_app, app_nil_r; apply (st_reads _ _ _ Hs)
     | intros m; rewrite blocks_put_app; unfold progress_event;
       cbn [blocks_put flat_map app]; rewrite ?app_nil_r; intros Hm;
       first [ apply (st_puts _ _ _ Hs m Hm)
             | apply in_app_or in Hm as [Hm|[<-|[]]];
               [apply (st_puts _ _ _ Hs m Hm) | now apply Nat.ltb_lt] ] ]).
Qed.

(** *** The counter and the commit *)

Section Planned.

Hypothesis Hplan : planned this.

Let f := fileSize this.
Let bs := blockSize this.
Let k := planned_jobs this.

(** The counter after [d] decrements. *)
Lemma remaining_positive (d : nat) :
  (d < k)%nat -> 0 < f - Z.of_nat d * bs.
Proof.
  destruct (plan_bounds this Hplan) as (_ & Hb & Htb & Hlo & _).
  subst k f bs. unfold planned_jobs. intros Hd. nia.
Qed.

Lemma remaining_zero (d : nat) :
  (k <= d)%nat -> f - Z.of_nat d * bs <= 0.
Proof.
  destruct (plan_bounds this Hplan) as (_ & Hb & Htb & _ & Hhi).
  subst k f bs. unfold planned_jobs. intros Hd. nia.
Qed.

Lemma start_planned :
  start this C = Some (loop_state_ k k).
Proof. apply start_state, (planned_totalBlocks this Hplan). Qed.

Lemma loop_state_no_commit (j i : nat) (p : Phase) :
  jobs (loop_state_ k j) !! i = Some p ->
  decremented p = false /\ committing p = false /\ caught p = false
  /\ range_recorded p = false /\ encrypted p = false.
Proof.
  rewrite loop_state_lookup.
  destruct (i <? slots_ j)%nat; [now intros [= <-]|].
  destruct (i <? k)%nat; [now intros [= <-]|discriminate].
Qed.

Lemma loop_state_count_none (j : nat) (g : Phase -> bool) :
  (forall r, g (AwaitRead r) = false) -> g Queued = false ->
  count g (jobs (loop_state_ k j)) = 0%nat.
Proof.
  intros Hr Hq. apply count_none. intros p Hp.
  apply list_elem_of_In, list_elem_of_lookup in Hp as [i Hi].
  rewrite loop_state_lookup in Hi.
  destruct (i <? slots_ j)%nat; [now injection Hi as <-|].
  destruct (i <? k)%nat; [now injection Hi as <-|discriminate].
Qed.

Lemma start_Counters : Counters this k (loop_state_ k k).
Proof.
  destruct (loop_state_reads k k) as (_ & _ & Hc & Hl & Hs & _).
  pose proof (planned_fileSize this Hplan) as Hf.
  pose proof (planned_remaining this Hplan) as Hr.
  assert (R : remainingBytes (loop_state_ k k) = f) by exact Hr.
  split; rewrite ?R, ?Hc, ?Hl, ?Hs, ?loop_state_count_none by easy.
  - cbn. subst f. lia.
  - destruct (Z.eqb_spec f 0); [subst f; lia|reflexivity].
  - intros n r Hn. now apply loop_state_no_commit in Hn as (Hn & _).
  - reflexivity.
  - intros a [].
  - intros ids [].
Qed.

Lemma count_implies_strict (g h : Phase -> bool) (l : list Phase) (n : nat) (p : Phase) :
  (forall q, g q = true -> h q = true) ->
  l !! n = Some p -> g p = false -> h p = true ->
  (count g l < count h l)%nat.
Proof.
  intros Hgh. revert n. induction l as [|x l IH]; intros [|n] H Hg Hh; try discriminate H.
  - injection H as ->. cbn [count]. rewrite Hg, Hh.
    pose proof (count_implies g h l Hgh). lia.
  - change ((x :: l) !! S n) with (l !! n) in H. specialize (IH n H Hg Hh).
    cbn [count]. destruct (g x) eqn:Hx; [rewrite (Hgh x Hx)|destruct (h x)]; lia.
Qed.

Lemma all_decremented (s : State) :
  Structure this k s -> Counters this k s ->
  remainingBytes s = 0 -> count decremented (jobs s) = k.
Proof.
  intros Hs Hc Hz. pose proof (ct_remaining _ _ _ Hc) as Hr.
  pose proof (count_le_length decremented (jobs s)) as Hle.
  rewrite (st_jobs _ _ _ Hs) in Hle.
  destruct (Nat.eq_dec (count decremented (jobs s)) k) as [E|Hne]; [exact E|].
  pose proof (remaining_positive (count decremented (jobs s)) ltac:(lia)).
  fold f bs in Hr. lia.
Qed.

Lemma not_decremented_positive (s : State) (n : nat) (p : Phase) :
  Structure this k s -> Counters this k s ->
  jobs s !! n = Some p -> decremented p = false ->
  (count decremented (jobs s) < k)%nat
  /\ remainingBytes s = f - Z.of_nat (count decremented (jobs s)) * bs
  /\ 0 < remainingBytes s.
Proof.
  intros Hs Hc Hn Hp. pose proof (ct_remaining _ _ _ Hc) as Hr.
  pose proof (count_lt_length decremented _ _ _ Hn Hp) as Hlt.
  rewrite (st_jobs _ _ _ Hs) in Hlt.
  pose proof (remaining_positive _ Hlt). fold f bs in Hr. lia.
Qed.

Ltac read_trace :=
  autorewrite with trace_readings; unfold progress_event;
  cbn [commit_callers committed_lists successes errors blocks_read blocks_put
       flat_map fold_left settle app];
  rewrite ?app_nil_r.

Lemma Step_Counters (s s' : State) :
  Structure this k s -> Counters this k s -> Step_ s s' -> Counters this k s'.
Proof.
  intros Hs Hc Hstep.
  destruct (Hc) as [Hrem Hcall Hcing Hcom Hsucc Hcomd].
  pose proof (st_jobs _ _ _ Hs) as Hlen.
  pose proof (planned_blockSize this Hplan) as Hbs.
  invert_step Hstep.
  1: destruct (queue_head k s _ _ Hs H) as (-> & Hlt & -> & Hj).
  all: match goal with
       | Hj : jobs _ !! ?n = Some ?p |- Counters _ _ {| jobs := <[?n := ?q]> _ |} =>
         pose proof (count_insert decremented _ _ _ q Hj) as Hd;
         pose proof (count_insert committing _ _ _ q Hj) as Hg;
         first [ destruct (not_decremented_positive s n p Hs Hc Hj eq_refl)
                   as (Hdk & Hval & Hpos)
               | idtac ]
       end;
    cbn [decremented committing] in Hd, Hg.
  (* a commit that settles while the counter is not zero: there is none *)
  all: try match goal with
           | Hj : jobs _ !! _ = Some (AwaitCommit _), Hnz : remainingBytes _ <> 0 |- _ =>
             exfalso; exact (Hnz (Hcing _ _ Hj))
           end.
  all: split; cbn [jobs blockIDList pool trace remainingBytes artifacts]; read_trace.
  (* the counter *)
  all: try match goal with
           | |- _ = Z.max 0 _ =>
             match type of Hd with
             | (count ?g ?l' + _ = ?c + _)%nat =>
               first [ replace (count g l') with c by lia
                     | replace (count g l') with (S c) by lia ]
             end;
             fold f bs in Hrem |- *; lia
           end.
  (* the callers of putBlockList *)
  all: try match goal with
           | |- if _ =? 0 then _ else _ =>
             destruct (Z.eqb_spec (remainingBytes s) 0) as [Ez|Enz];
             first [ exact Hcall
                   | exfalso; lia
                   | rewrite Hcall; cbn; eexists; reflexivity
                   | match goal with
                     | |- if ?c then _ else _ => destruct c eqn:Ec
                     end; first [exact Hcall | exfalso; lia] ]
           end.
  (* jobs that wait for the commit *)
  all: try match goal with
           | |- forall n r, _ !! n = Some (AwaitCommit r) -> _ =>
             intros i r Hi;
             apply list_lookup_insert_Some in Hi as [(_ & Hi & _)|(_ & Hi)];
             first [ discriminate Hi
                   | reflexivity
                   | exact (Hcing _ _ Hi)
                   | pose proof (Hcing _ _ Hi); lia ]
           end.
  (* calls of putBlockList, jobs in the commit, calls of onSuccess *)
  all: try match goal with
           | |- length _ = (_ + _)%nat => rewrite ?length_app; cbn [length]; lia
           end.
  (* the arguments of onSuccess *)
  all: try match goal with
           | |- forall a, In a _ -> _ /\ _ =>
             intros a Ha;
             first [ exact (Hsucc a Ha)
                   | exfalso; destruct (Hsucc a Ha); lia
                   | apply in_app_or in Ha as [Ha|[<-|[]]];
                     [exact (Hsucc a Ha) | now split] ]
           end.
  (* the lists handed to putBlockList *)
  all: try match goal with
           | |- forall ids, In ids _ -> _ /\ _ =>
             intros ids Hi;
             first [ exact (Hcomd ids Hi)
                   | exfalso; destruct (Hcomd ids Hi) as [-> Hk]; lia
                   | apply in_app_or in Hi as [Hi|[<-|[]]];
                     [exact (Hcomd ids Hi) | split; [reflexivity|]] ]
           end.
  (* the last decrement: every job has started *)
  assert (Hall : S (count decremented (jobs s)) = k).
  { destruct (Nat.eq_dec (S (count decremented (jobs s))) k) as [E|Hne]; [exact E|].
    pose proof (remaining_positive (S (count decremented (jobs s))) ltac:(lia)).
    fold bs in H0. lia. }
  pose proof (count_implies_strict decremented started (jobs s) nBlock _
                ltac:(now intros []) H eq_refl eq_refl) as Hstrict.
  pose proof (st_count _ _ _ Hs). pose proof (st_bound _ _ _ Hs). lia.
Qed.
(** *** The promise and the errors *)

Lemma start_Outcome : Outcome (loop_state_ k k).
Proof.
  destruct (loop_state_reads k k) as (_ & _ & _ & _ & _ & He & Hp).
  split; rewrite ?He, ?Hp, ?loop_state_count_none by easy; try reflexivity.
  intros n stage e Hn. now apply loop_state_no_commit in Hn as (_ & _ & Hn & _).
Qed.

Lemma Step_Outcome (s s' : State) :
  Structure this k s -> Outcome s -> Step_ s s' -> Outcome s'.
Proof.
  intros Hs [Hprom Herr Hcaught] Hstep. invert_step Hstep.
  1: destruct (queue_head k s _ _ Hs H) as (-> & Hlt & -> & Hj).
  all: match goal with
       | Hj : jobs _ !! ?n = Some ?p |- Outcome {| jobs := <[?n := ?q]> _ |} =>
         pose proof (count_insert caught _ _ _ q Hj) as Hd
       end;
    cbn [caught] in Hd.
  all: split; cbn [jobs promise trace]; read_trace.
  all: try (rewrite Hprom; reflexivity).
  all: try (rewrite ?length_app; cbn [length]; lia).
  all: intros i stage' e' Hi;
    apply list_lookup_insert_Some in Hi as [(_ & Hi & _)|(_ & Hi)];
    first [ discriminate Hi
          | exact (Hcaught _ _ _ Hi)
          | injection Hi as <- <-; apply in_or_app; right; now left
          | apply in_or_app; left; exact (Hcaught _ _ _ Hi) ].
Qed.

(** *** The artifacts *)

Lemma start_Recorded : Recorded this C dataEncryptionKey (loop_state_ k k).
Proof.
  split; try reflexivity.
  - intros n p Hn. apply loop_state_no_commit in Hn as (_ & _ & _ & -> & _).
    reflexivity.
  - intros n p Hn. apply loop_state_no_commit in Hn as (_ & _ & _ & _ & ->).
    now rewrite andb_false_r.
  - intros n p Hn. apply loop_state_no_commit in Hn as (_ & _ & _ & _ & ->).
    rewrite andb_false_r. cbn. rewrite lookup_empty. split; [intros []|]; discriminate.
  - intros n _. cbn. now rewrite !lookup_empty.
Qed.

Lemma Step_Recorded (s s' : State) :
  Structure this k s -> Recorded this C dataEncryptionKey s -> Step_ s s' ->
  Recorded this C dataEncryptionKey s'.
Proof.
  intros Hs [Hrange Hiv Hat Hout Had Hstr] Hstep. invert_step Hstep.
  1: destruct (queue_head k s _ _ Hs H) as (-> & Hlt & -> & Hj).
  all: match goal with
       | Hj : jobs _ !! ?n = Some ?p |- _ =>
         pose proof (Hrange _ _ Hj) as Hr0; pose proof (Hiv _ _ Hj) as Hi0;
         pose proof (Hat _ _ Hj) as Ha0;
         cbn [range_recorded encrypted] in Hr0, Hi0, Ha0
       end.
  all: split;
    cbn [jobs artifacts range iv at_ ad encryption_stratergy set_range set_iv set_at];
    try assumption.
  all: try match goal with
           | Hk : truthy dataEncryptionKey = _ |- _ => rewrite Hk in Hi0, Ha0 |- *
           end;
    cbn [andb] in Hi0, Ha0 |- *.
  (* outside the jobs *)
  all: try match goal with
           | |- forall n, _ !! n = None -> _ =>
             intros i Hi; apply list_lookup_insert_None in Hi;
             rewrite ?lookup_insert_ne by congruence; exact (Hout i Hi)
           end.
  (* at the index of a job *)
  all: intros i p' Hi;
    apply list_lookup_insert_Some in Hi as [(<- & <- & _)|(Hne & Hi)];
    [ cbn [range_recorded encrypted andb]; rewrite ?andb_false_r, ?andb_true_r;
      rewrite ?lookup_insert_eq;
      first [ reflexivity | assumption | split; [reflexivity|eauto] | idtac ]
    | rewrite ?lookup_insert_ne by assumption;
      first [ exact (Hrange _ _ Hi) | exact (Hiv _ _ Hi) | exact (Hat _ _ Hi) | idtac ] ].
  all: rewrite ?andb_false_r, ?andb_true_r in Hi0, Ha0; try assumption.
  all: specialize (Hiv _ _ Hi); specialize (Hat _ _ Hi);
    match goal with
    | Hk : truthy dataEncryptionKey = _ |- _ => rewrite Hk in Hiv, Hat
    end;
    cbn [andb] in Hiv, Hat; assumption.
Qed.
(** *** The promises of the collaborators *)

Lemma start_Consistent : Consistent this C dataEncryptionKey (loop_state_ k k).
Proof.
  intros n p. rewrite loop_state_lookup.
  destruct (n <? slots_ k)%nat; [now intros [= <-]|].
  destruct (n <? k)%nat; [now intros [= <-]|discriminate].
Qed.

Lemma Step_Consistent (s s' : State) :
  Consistent this C dataEncryptionKey s -> Step_ s s' ->
  Consistent this C dataEncryptionKey s'.
Proof.
  intros Hc Hstep. invert_step Hstep.
  all: try match goal with
           | Hj : jobs _ !! _ = Some _ |- _ =>
             pose proof (Hc _ _ Hj) as H0; cbn [phase_consistent] in H0
           end.
  all: intros i p' Hi; cbn [jobs] in Hi;
    apply list_lookup_insert_Some in Hi as [(<- & <- & _)|(Hne & Hi)];
    [|exact (Hc _ _ Hi)]; cbn [phase_consistent]; try easy.
  all: unfold payload_of; try rewrite <- H0;
    repeat match goal with
           | Hk : truthy dataEncryptionKey = _ |- _ => rewrite Hk
           | He : encryptWithKeyUsingArtefacts _ _ _ _ = _ |- _ => rewrite He
           end; eauto.
  - destruct H0 as (payload & Hp & Hput). eauto.
  - destruct H0 as (ids & Hids). eauto.
Qed.

(** *** Every state of an upload *)

Lemma start_Invariant : Invariant_ (loop_state_ k k).
Proof.
  split; [apply start_Structure | apply start_Counters | apply start_Outcome
         | apply start_Recorded | apply start_Consistent].
Qed.

Lemma step_Invariant (a : Action) (s : State) : Invariant_ s -> Invariant_ (step_ a s).
Proof.
  intros Hs. destruct (step_Step a s) as [->|Hstep]; [exact Hs|].
  destruct Hs as [H1 H2 H3 H4 H5]. split;
    eauto using Step_Structure, Step_Counters, Step_Outcome, Step_Recorded,
                Step_Consistent.
Qed.

Lemma run_Invariant (schedule : list Action) (s : State) :
  Invariant_ s -> Invariant_ (run_ schedule s).
Proof.
  revert s. induction schedule as [|a schedule IH]; intros s Hs; [exact Hs|].
  apply IH, step_Invariant, Hs.
Qed.

Lemma run_app (l1 l2 : list Action) (s : State) :
  run_ (l1 ++ l2) s = run_ l2 (run_ l1 s).
Proof. apply fold_left_app. Qed.

(** *** Every upload can be run to its end *)

Lemma settle_moves (n : nat) (p : Phase) (s : State) :
  jobs s !! n = Some p -> awaiting p = true ->
  exists q, jobs (step_ (Settle n) s) = <[n := q]> (jobs s)
            /\ (weight q < weight p)%nat.
Proof.
  intros Hj Hp. cbn [step]. rewrite Hj.
  destruct p as [|[data|e]|[v|e]|[v|e]| |]; try discriminate Hp;
    cbn [job_after_read job_after_putBlock job_after_commit weight].
  - destruct (truthy dataEncryptionKey);
      [destruct (encryptWithKeyUsingArtefacts C dataEncryptionKey data (randomBytes C n))
         as [[encrypted_ tag]|e]|];
      unfold_job; eexists; (split; [reflexivity|cbn; lia]).
  - unfold_job. eexists; (split; [reflexivity|cbn; lia]).
  - unfold_job.
    destruct (remainingBytes s - blockSize this <? 0); unfold_job;
      [eexists; (split; [reflexivity|cbn; lia])|].
    destruct (remainingBytes s - blockSize this =? 0); unfold_job;
      eexists; (split; [reflexivity|cbn; lia]).
  - unfold_job. eexists; (split; [reflexivity|cbn; lia]).
  - unfold_job. destruct (remainingBytes s =? 0); unfold_job;
      eexists; (split; [reflexivity|cbn; lia]).
  - unfold_job. eexists; (split; [reflexivity|cbn; lia]).
Qed.

Lemma count_positive (g : Phase -> bool) (l : list Phase) :
  (0 < count g l)%nat -> exists n p, l !! n = Some p /\ g p = true.
Proof.
  induction l as [|x l IH]; cbn [count]; [lia|].
  destruct (g x) eqn:Hx; [exists 0%nat, x; now split|].
  intros H. destruct (IH ltac:(lia)) as (n & p & Hn & Hp). now exists (S n), p.
Qed.

Lemma count_zero_lookup (g : Phase -> bool) (l : list Phase) (n : nat) (p : Phase) :
  count g l = 0%nat -> l !! n = Some p -> g p = false.
Proof.
  intros Hz Hn. destruct (g p) eqn:Hp; [|reflexivity].
  assert (H : (count (fun x => negb (g x)) l < length l)%nat)
    by (apply (count_lt_length _ l n p Hn); now rewrite Hp).
  assert (E : (count (fun x => negb (g x)) l + count g l = length l)%nat).
  { clear. induction l as [|x l IH]; cbn [count length]; [reflexivity|].
    destruct (g x); cbn; lia. }
  lia.
Qed.

Lemma not_all_settled (l : list Phase) :
  forallb settled l = false -> exists n p, l !! n = Some p /\ settled p = false.
Proof.
  induction l as [|x l IH]; cbn [forallb]; [discriminate|].
  destruct (settled x) eqn:Hx; [|exists 0%nat, x; now split].
  intros H. destruct (IH H) as (n & p & Hn & Hp). now exists (S n), p.
Qed.

Hypothesis Hpool : 0 < simultaneousUploads this.

(** While a job is not over, some action moves a job forward. *)
Lemma progress (s : State) :
  Structure this k s -> forallb settled (jobs s) = false ->
  exists a, (work (jobs (step_ a s)) < work (jobs s))%nat.
Proof.
  intros Hs Hn.
  destruct (Nat.eq_dec (count awaiting (jobs s)) 0%nat) as [Hz|Hnz].
  - (* no job is suspended: one is queued, and a slot is free *)
    destruct (not_all_settled _ Hn) as (i & p & Hi & Hp).
    assert (Hq : p = Queued).
    { pose proof (count_zero_lookup awaiting _ _ _ Hz Hi) as Ha.
      destruct p; try discriminate Hp; try discriminate Ha; reflexivity. }
    subst p. pose proof (st_started _ _ _ Hs _ _ Hi) as Hst. cbn in Hst.
    symmetry in Hst. apply Nat.ltb_ge in Hst.
    pose proof (lookup_lt_Some _ _ _ Hi) as Hik. rewrite (st_jobs _ _ _ Hs) in Hik.
    exists Dispatch. cbn [step]. unfold pool_dispatch.
    rewrite (st_queue _ _ _ Hs).
    destruct (k - length (blockIDList s))%nat as [|x] eqn:Ex; [lia|].
    cbn [seq]. rewrite (st_running _ _ _ Hs), (st_size _ _ _ Hs), Hz.
    destruct (Z.ltb_spec (Z.of_nat 0) (simultaneousUploads this)); [|lia].
    unfold_job.
    destruct (lookup_lt_is_Some_2 (jobs s) (length (blockIDList s))) as [p' Hp'];
      [rewrite (st_jobs _ _ _ Hs); lia|].
    pose proof (st_started _ _ _ Hs _ _ Hp') as Hst'.
    rewrite Nat.ltb_irrefl in Hst'. destruct p'; try discriminate Hst'.
    pose proof (work_insert _ _ _ (AwaitRead (readBlock C (file this)
                  (block_from this (length (blockIDList s)))
                  (block_to this (length (blockIDList s))))) Hp') as Hw.
    cbn [weight] in Hw. lia.
  - destruct (count_positive awaiting (jobs s) ltac:(lia)) as (n & p & Hj & Hp).
    exists (Settle n). destruct (settle_moves n p s Hj Hp) as (q & -> & Hlt).
    pose proof (work_insert _ _ _ q Hj). lia.
Qed.

Lemma completion (s : State) :
  Invariant_ s ->
  exists schedule, forallb settled (jobs (run_ schedule s)) = true.
Proof.
  remember (work (jobs s)) as w eqn:Ew. revert s Ew.
  induction w as [w IH] using lt_wf_ind. intros s -> Hs.
  destruct (forallb settled (jobs s)) eqn:Hn; [now exists []|].
  destruct (progress s (inv_structure _ _ _ _ Hs) Hn) as [a Ha].
  destruct (IH _ Ha (step_ a s) eq_refl (step_Invariant a s Hs)) as [schedule Hd].
  now exists (a :: schedule).
Qed.

End Planned.

(** *** What a run only adds to *)

Lemma step_grows (a : Action) (s : State) :
  (exists t, trace (step_ a s) = trace s ++ t)
  /\ (exists ids, blockIDList (step_ a s) = blockIDList s ++ ids).
Proof.
  destruct (step_Step a s) as [->|Hstep].
  - split; exists []; now rewrite app_nil_r.
  - inversion Hstep; cbn [trace blockIDList]; split; eauto;
      exists []; now rewrite app_nil_r.
Qed.

Lemma run_grows (schedule : list Action) (s : State) :
  (exists t, trace (run_ schedule s) = trace s ++ t)
  /\ (exists ids, blockIDList (run_ schedule s) = blockIDList s ++ ids).
Proof.
  revert s. induction schedule as [|a schedule IH]; intros s.
  - split; exists []; now rewrite app_nil_r.
  - cbn [run fold_left].
    destruct (IH (step_ a s)) as [[t Ht] [ids Hids]].
    destruct (step_grows a s) as [[t0 Ht0] [ids0 Hids0]].
    unfold run in Ht, Hids. rewrite Ht, Hids, Ht0, Hids0, <- !app_assoc. eauto.
Qed.

(** A call of [putBlockList] is made by the job whose [putBlock] settles,
    and leaves the counter at zero. *)
Lemma step_commit_callers (a : Action) (s : State) :
  commit_callers (trace (step_ a s)) = commit_callers (trace s)
  \/ exists n, a = Settle n
               /\ commit_callers (trace (step_ a s)) = commit_callers (trace s) ++ [n]
               /\ remainingBytes (step_ a s) = 0.
Proof.
  destruct a as [|n]; cbn [step].
  - left. unfold pool_dispatch. destruct (queue (pool s)); [reflexivity|].
    destruct (_ <? _); [|reflexivity]. unfold_job.
    now rewrite commit_callers_app, app_nil_r.
  - destruct (jobs s !! n) as [[|[data|e]|[v|e]|[v|e]| |]|]; try (now left);
      unfold job_after_read, job_after_putBlock, job_after_commit.
    + left. destruct (truthy dataEncryptionKey);
        [destruct (encryptWithKeyUsingArtefacts C dataEncryptionKey data (randomBytes C n))
           as [[encrypted_ tag]|e]|];
        unfold_job; now rewrite commit_callers_app, app_nil_r.
    + left. unfold_job. now rewrite commit_callers_app, app_nil_r.
    + unfold_job.
      destruct (remainingBytes s - blockSize this <? 0); unfold_job;
        [cbn [Z.eqb]; unfold_job; right; exists n; now rewrite commit_callers_app|].
      destruct (Z.eqb_spec (remainingBytes s - blockSize this) 0); unfold_job;
        [right; exists n; now rewrite commit_callers_app|].
      left. destruct (Z.eqb_spec (remainingBytes s - blockSize this) 0); [contradiction|].
      unfold_job. now rewrite ?commit_callers_app, ?app_nil_r.
    + left. unfold_job. now rewrite commit_callers_app, app_nil_r.
    + left. unfold_job. destruct (remainingBytes s =? 0); unfold_job;
        now rewrite ?commit_callers_app, ?app_nil_r.
    + left. unfold_job. now rewrite commit_callers_app, app_nil_r.
Qed.

Lemma run_snoc (schedule : list Action) (a : Action) (s : State) :
  run_ (schedule ++ [a]) s = step_ a (run_ schedule s).
Proof. unfold run. now rewrite fold_left_app. Qed.

(** *** Consequences for the runs of a planned upload *)

Section Outcomes.

Hypothesis Hplan : planned this.

Let k := planned_jobs this.
Let s0 := loop_state_ k k.

Lemma reachable_Invariant (schedule : list Action) : Invariant_ (run_ schedule s0).
Proof. apply run_Invariant, start_Invariant; exact Hplan. Qed.

Lemma commit_at_most_once (s : State) :
  Invariant_ s -> (length (commit_callers (trace s)) <= 1)%nat.
Proof.
  intros Hs. pose proof (ct_callers _ _ _ (inv_counters _ _ _ _ Hs)) as H.
  destruct (remainingBytes s =? 0); [destruct H as [n ->]|rewrite H]; cbn; lia.
Qed.

Lemma positive_or_zero (s : State) :
  Invariant_ s -> remainingBytes s <> 0 -> 0 < remainingBytes s.
Proof.
  intros Hs Hnz. pose proof (ct_remaining _ _ _ (inv_counters _ _ _ _ Hs)). lia.
Qed.

Lemma transferred_commits (s : State) :
  Invariant_ s -> forallb transferred (jobs s) = true ->
  remainingBytes s = 0 /\ exists n, commit_callers (trace s) = [n].
Proof.
  intros Hs Hall.
  assert (Hd : forallb decremented (jobs s) = true).
  { rewrite forallb_forall in Hall |- *. intros p Hp.
    specialize (Hall p Hp). now destruct p as [| | | | |[]]. }
  apply count_all in Hd. rewrite (st_jobs _ _ _ (inv_structure _ _ _ _ Hs)) in Hd.
  pose proof (ct_remaining _ _ _ (inv_counters _ _ _ _ Hs)) as Hr. rewrite Hd in Hr.
  pose proof (remaining_zero Hplan (planned_jobs this) (le_n _)) as Hz.
  assert (Hrz : remainingBytes s = 0) by lia.
  split; [exact Hrz|].
  pose proof (ct_callers _ _ _ (inv_counters _ _ _ _ Hs)) as Hc.
  now rewrite Hrz in Hc.
Qed.

(** The one call of [putBlockList] is made in the step in which the
    counter goes from a positive value to zero. *)
Lemma commit_origin (schedule : list Action) (n : nat) :
  commit_callers (trace (run_ schedule s0)) = [n] ->
  exists before after,
    schedule = before ++ Settle n :: after
    /\ 0 < remainingBytes (run_ before s0)
    /\ remainingBytes (run_ (before ++ [Settle n]) s0) = 0.
Proof.
  induction schedule as [|a schedule IH] using rev_ind; intros Hc.
  - exfalso. cbn [run fold_left] in Hc. subst s0.
    destruct (loop_state_reads k k) as (_ & _ & E & _). rewrite E in Hc.
    discriminate Hc.
  - rewrite run_snoc in Hc.
    pose proof (reachable_Invariant schedule) as Hs.
    destruct (step_commit_callers a (run_ schedule s0)) as [E|(m & -> & E & Hz)];
      rewrite E in Hc.
    + destruct (IH Hc) as (before & after & -> & Hpos & Hzero).
      exists before, (after ++ [a]). rewrite <- app_assoc. now split.
    + pose proof (ct_callers _ _ _ (inv_counters _ _ _ _ Hs)) as Hcall.
      destruct (Z.eqb_spec (remainingBytes (run_ schedule s0)) 0) as [Ez|Enz].
      * destruct Hcall as [i Hi]. rewrite Hi in Hc. discriminate Hc.
      * rewrite Hcall in Hc. injection Hc as ->.
        exists schedule, []. repeat split.
        -- now apply positive_or_zero.
        -- now rewrite run_snoc.
Qed.

Lemma failed_block (s : State) (n : nat) (p : Phase) :
  Invariant_ s -> jobs s !! n = Some p -> block_failed p = true ->
  0 < remainingBytes s
  /\ successes (trace s) = []
  /\ commit_callers (trace s) = []
  /\ exists e rest, errors (trace s) = e :: rest /\ promise s = Rejected e.
Proof.
  intros Hs Hn Hp.
  assert (Hnd : decremented p = false) by (now destruct p as [| | | | |[]]).
  destruct (not_decremented_positive Hplan s n p (inv_structure _ _ _ _ Hs)
              (inv_counters _ _ _ _ Hs) Hn Hnd) as (_ & _ & Hpos).
  assert (Hsucc : successes (trace s) = []).
  { destruct (successes (trace s)) as [|a l] eqn:E; [reflexivity|].
    destruct (ct_successes _ _ _ (inv_counters _ _ _ _ Hs) a) as [_ Hz];
      [rewrite E; now left|lia]. }
  pose proof (ct_callers _ _ _ (inv_counters _ _ _ _ Hs)) as Hc.
  destruct (Z.eqb_spec (remainingBytes s) 0) as [Ez|_]; [lia|].
  repeat split; try assumption.
  destruct p as [| | | | |stage e]; try discriminate Hp.
  pose proof (oc_caught _ (inv_outcome _ _ _ _ Hs) _ _ _ Hn) as He.
  pose proof (oc_promise _ (inv_outcome _ _ _ _ Hs)) as Hprom.
  unfold first_settlement in Hprom. rewrite settlement_of_errors in Hprom by exact Hsucc.
  destruct (errors (trace s)) as [|e1 rest]; [destruct He|]. eauto.
Qed.

Lemma returned_resolves (s : State) :
  Invariant_ s -> forallb returned (jobs s) = true ->
  promise s = Resolved VUndefined
  /\ successes (trace s) = [artifacts s]
  /\ errors (trace s) = [].
Proof.
  intros Hs Hall.
  assert (Ht : forallb transferred (jobs s) = true).
  { rewrite forallb_forall in Hall |- *. intros p Hp.
    specialize (Hall p Hp). now destruct p. }
  destruct (transferred_commits s Hs Ht) as (Hz & n & Hn).
  assert (Hcg : count committing (jobs s) = 0%nat).
  { apply count_none. intros p Hp. rewrite forallb_forall in Hall.
    specialize (Hall p Hp). now destruct p. }
  assert (Hcc : count caught (jobs s) = 0%nat).
  { apply count_none. intros p Hp. rewrite forallb_forall in Hall.
    specialize (Hall p Hp). now destruct p. }
  pose proof (ct_commits _ _ _ (inv_counters _ _ _ _ Hs)) as Hcom.
  rewrite Hn, Hcg in Hcom. cbn in Hcom.
  pose proof (oc_errors _ (inv_outcome _ _ _ _ Hs)) as Herr. rewrite Hcc in Herr.
  assert (He : errors (trace s) = []) by (now destruct (errors (trace s))).
  destruct (successes (trace s)) as [|a [|b l]] eqn:Es; try discriminate Hcom.
  destruct (ct_successes _ _ _ (inv_counters _ _ _ _ Hs) a) as [-> _];
    [rewrite Es; now left|].
  repeat split; [|exact He].
  rewrite (oc_promise _ (inv_outcome _ _ _ _ Hs)). unfold first_settlement.
  rewrite settlement_of_successes by exact He. now rewrite Es.
Qed.

(** A job that is over stays as it is. *)
Lemma Step_settled_persists (s s' : State) (n : nat) (p : Phase) :
  Invariant_ s -> Step_ s s' -> jobs s !! n = Some p -> settled p = true ->
  jobs s' !! n = Some p.
Proof.
  intros Hs Hstep Hn Hp. invert_step Hstep.
  1: destruct (queue_head k s _ _ (inv_structure _ _ _ _ Hs) H) as (-> & _ & -> & Hj).
  all: cbn [jobs];
    match goal with
    | Hj : jobs _ !! ?m = Some _ |- _ =>
      destruct (Nat.eq_dec m n) as [E|Hne];
      [rewrite E, Hn in Hj; injection Hj as ->; discriminate Hp
      |now rewrite list_lookup_insert_ne]
    end.
Qed.

Lemma settled_persists (a : Action) (s : State) (n : nat) (p : Phase) :
  Invariant_ s -> jobs s !! n = Some p -> settled p = true ->
  jobs (step_ a s) !! n = Some p.
Proof.
  intros Hs Hn Hp. destruct (step_Step a s) as [->|Hstep]; [exact Hn|].
  exact (Step_settled_persists _ _ n p Hs Hstep Hn Hp).
Qed.

Lemma run_settled_persists (schedule : list Action) (s : State) (n : nat) (p : Phase) :
  Invariant_ s -> jobs s !! n = Some p -> settled p = true ->
  jobs (run_ schedule s) !! n = Some p.
Proof.
  revert s. induction schedule as [|a schedule IH]; intros s Hs Hn Hp; [exact Hn|].
  cbn [run fold_left]. apply IH; [now apply step_Invariant| |exact Hp].
  now apply settled_persists.
Qed.

(** When the collaborators of a job succeed, the job transfers its block. *)
Lemma settled_transferred (s : State) (n : nat) (p : Phase) :
  Invariant_ s -> jobs s !! n = Some p -> settled p = true ->
  job_ok this C dataEncryptionKey n = true -> transferred p = true.
Proof.
  intros Hs Hn Hp Hok.
  pose proof (inv_consistent _ _ _ _ Hs n p Hn) as Hc.
  unfold job_ok in Hok.
  destruct p as [| | | | |[] e]; try discriminate Hp; try reflexivity;
    cbn [phase_consistent] in Hc; exfalso.
  - exact Hc.
  - unfold payload_of in Hok. rewrite Hc in Hok. discriminate Hok.
  - rewrite Hc in Hok. discriminate Hok.
  - destruct Hc as (payload & Hpay & Hput). rewrite Hpay, Hput in Hok. discriminate Hok.
Qed.

Lemma settled_returned (s : State) (n : nat) (p : Phase) :
  Invariant_ s -> jobs s !! n = Some p -> settled p = true ->
  job_ok this C dataEncryptionKey n = true ->
  (forall ids e, putBlockList C (url this) ids (fileType this) <> Err e) ->
  returned p = true.
Proof.
  intros Hs Hn Hp Hok Hcommit.
  pose proof (settled_transferred s n p Hs Hn Hp Hok) as Ht.
  pose proof (inv_consistent _ _ _ _ Hs n p Hn) as Hc.
  destruct p as [| | | | |[] e]; try discriminate Ht; try reflexivity.
  cbn [phase_consistent] in Hc. destruct Hc as [ids Hids].
  now destruct (Hcommit ids e).
Qed.

Lemma forallb_from_lookup (g : Phase -> bool) (l : list Phase) :
  (forall n p, l !! n = Some p -> g p = true) -> forallb g l = true.
Proof.
  intros H. apply forallb_forall. intros p Hp.
  apply list_elem_of_In, list_elem_of_lookup in Hp as [n Hn]. eauto.
Qed.

(** The identifier of a started job is in the list, at the index of its
    block. *)
Lemma started_blockID (s : State) (n : nat) :
  Invariant_ s -> (n < length (blockIDList s))%nat ->
  blockIDList s !! n = Some (blockID this n).
Proof.
  intros Hs Hn. rewrite (st_ids _ _ _ (inv_structure _ _ _ _ Hs)), lookup_map_seq.
  destruct (Nat.ltb_spec n (length (blockIDList s))); [reflexivity|lia].
Qed.

Lemma started_index (s : State) (n : nat) (p : Phase) :
  Invariant_ s -> jobs s !! n = Some p -> started p = true ->
  (n < length (blockIDList s))%nat.
Proof.
  intros Hs Hn Hp. apply Nat.ltb_lt.
  now rewrite <- (st_started _ _ _ (inv_structure _ _ _ _ Hs) _ _ Hn).
Qed.

Lemma committed_in_order (s : State) (ids : list string) :
  Invariant_ s -> In ids (committed_lists (trace s)) ->
  ids = map (blockID this) (seq 0 k).
Proof.
  intros Hs Hi.
  destruct (ct_committed _ _ _ (inv_counters _ _ _ _ Hs) ids Hi) as [-> Hlen].
  rewrite (st_ids _ _ _ (inv_structure _ _ _ _ Hs)). now rewrite Hlen.
Qed.

Lemma plain_upload_no_iv (s : State) :
  Invariant_ s -> truthy dataEncryptionKey = false ->
  iv (artifacts s) = ∅ /\ at_ (artifacts s) = ∅.
Proof.
  intros Hs Hk. destruct (inv_recorded _ _ _ _ Hs) as [_ Hiv Hat Hout _ _].
  split; apply map_eq; intros n; rewrite lookup_empty;
    destruct (jobs s !! n) as [p|] eqn:Hn;
    try (now destruct (Hout n Hn) as (_ & ? & ?)).
  - rewrite (Hiv n p Hn), Hk. reflexivity.
  - specialize (Hat n p Hn). rewrite Hk in Hat. cbn in Hat.
    destruct (at_ (artifacts s) !! n) eqn:E; [|reflexivity].
    destruct Hat as [Hat _]. now specialize (Hat (ex_intro _ _ eq_refl)).
Qed.

Hypothesis Hpool : 0 < simultaneousUploads this.

(** Every run goes on to a state in which all jobs have transferred their
    blocks, when their collaborators succeed. *)
Lemma healthy_completion (schedule : list Action) :
  (forall n, (n < k)%nat -> job_ok this C dataEncryptionKey n = true) ->
  exists rest,
    forallb transferred (jobs (run_ (schedule ++ rest) s0)) = true
    /\ ((forall ids e, putBlockList C (url this) ids (fileType this) <> Err e) ->
        forallb returned (jobs (run_ (schedule ++ rest) s0)) = true).
Proof.
  intros Hok.
  destruct (completion Hplan Hpool (run_ schedule s0) (reachable_Invariant schedule))
    as [rest Hrest].
  exists rest. rewrite run_app.
  pose proof (run_Invariant Hplan rest _ (reachable_Invariant schedule)) as Hs.
  assert (Hk : forall n p, jobs (run_ rest (run_ schedule s0)) !! n = Some p ->
                           (n < k)%nat /\ settled p = true).
  { intros n p Hn. split.
    - apply lookup_lt_Some in Hn.
      now rewrite (st_jobs _ _ _ (inv_structure _ _ _ _ Hs)) in Hn.
    - exact (forallb_lookup _ _ _ _ Hrest Hn). }
  split; [|intros Hcommit]; apply forallb_from_lookup; intros n p Hn;
    destruct (Hk n p Hn) as [Hlt Hp].
  - exact (settled_transferred _ n p Hs Hn Hp (Hok n Hlt)).
  - exact (settled_returned _ n p Hs Hn Hp (Hok n Hlt) Hcommit).
Qed.

End Outcomes.

End Jobs.

(** ** The upload as the caller sees it *)

(** An upload without jobs stays as [start] leaves it. *)
Lemma run_idle (u : AzureBlockUpload) (C : Collaborators) (key : value)
    (schedule : list Action) :
  run u C key schedule (initial_state u 0) = initial_state u 0.
Proof.
  induction schedule as [|a l IH]; [reflexivity|].
  cbn [run fold_left].
  assert (Ea : step u C key a (initial_state u 0) = initial_state u 0)
    by (now destruct a as [|[|n]]).
  rewrite Ea. exact IH.
Qed.

(** [start] returns the state of a planned upload, or one without jobs. *)
Lemma start_cases (P : Platform) (url_ file_ : value) (opts : Opts)
    (u : AzureBlockUpload) (C : Collaborators) (s0 : State) :
  constructor P url_ file_ opts = Ok u -> 0 <= fileSize u ->
  start u C = Some s0 ->
  (planned u /\ s0 = loop_state u C (planned_jobs u) (planned_jobs u))
  \/ s0 = initial_state u 0.
Proof.
  intros Hc Hf Hs.
  destruct (constructor_cases _ _ _ _ _ Hc Hf) as [Hp|[Hn|Hn]].
  - left. split; [exact Hp|]. rewrite (start_planned u C Hp) in Hs. now injection Hs.
  - right. unfold start in Hs. rewrite Hn in Hs. now injection Hs.
  - unfold start in Hs. rewrite Hn in Hs. discriminate Hs.
Qed.







(** C6 (as amended).  In every state of an upload, [artifacts.range] holds
    the range of exactly the blocks that were read, with a key or without;
    [artifacts.iv] and [artifacts.at] hold an entry for exactly the blocks
    that were encrypted when a key was given, and stay empty when none was;
    and the artifacts object is what [onSuccess] is handed, with its [ad]
    and [encryption_stratergy], in both cases. *)
Theorem artifacts_recorded
    (P : Platform) (url_ file_ : value) (opts : Opts) (u : AzureBlockUpload)
    (C : Collaborators) (key : value) (s0 : State) :
  constructor P url_ file_ opts = Ok u -> 0 <= fileSize u ->
  start u C = Some s0 ->
  forall schedule,
    (forall n p, jobs (run u C key schedule s0) !! n = Some p ->
       range (artifacts (run u C key schedule s0)) !! n
       = if range_recorded p
         then Some (range_string (block_from u n) (block_to u n)) else None)
    /\ (truthy key = false ->
        iv (artifacts (run u C key schedule s0)) = ∅
        /\ at_ (artifacts (run u C key schedule s0)) = ∅)
    /\ (truthy key = true ->
        forall n p, jobs (run u C key schedule s0) !! n = Some p ->
          iv (artifacts (run u C key schedule s0)) !! n
          = (if encrypted p then Some (randomBytes C n) else None)
          /\ (is_Some (at_ (artifacts (run u C key schedule s0)) !! n)
              <-> encrypted p = true))
    /\ (forall a, In a (successes (trace (run u C key schedule s0))) ->
          a = artifacts (run u C key schedule s0)
          /\ ad a = "none" /\ encryption_stratergy a = AES_GCM).
Proof.
  intros Hc Hf Hstart schedule.
  destruct (start_cases _ _ _ _ _ C s0 Hc Hf Hstart) as [[Hplan ->]| ->].
  - set (s0 := loop_state u C (planned_jobs u) (planned_jobs u)).
    pose proof (reachable_Invariant u C key Hplan schedule) as Hs. fold s0 in Hs.
    pose proof (inv_recorded _ _ _ _ Hs) as Hr.
    split; [exact (rc_range _ _ _ _ Hr)|].
    split; [exact (plain_upload_no_iv u C key _ Hs)|].
    split.
    + intros Hkey n p Hn. split.
      * rewrite (rc_iv _ _ _ _ Hr _ _ Hn), Hkey. reflexivity.
      * pose proof (rc_at _ _ _ _ Hr _ _ Hn) as Hat. now rewrite Hkey in Hat.
    + intros a Ha.
      destruct (ct_successes _ _ _ (inv_counters _ _ _ _ Hs) a Ha) as [-> _].
      split; [reflexivity|].
      split; [apply (rc_ad _ _ _ _ Hr)|apply (rc_strategy _ _ _ _ Hr)].
  - (* no job: nothing is recorded *)
    rewrite run_idle. cbn [initial_state jobs artifacts trace iv at_ successes flat_map].
    split; [intros n p Hn; discriminate Hn|].
    split; [now split|].
    split; [intros _ n p Hn; discriminate Hn|intros a []].
Qed.

(** The upload of 10 bytes in blocks of 4 without a key, after block 1 was
    read: [artifacts_recorded] applies, and only the range of block 1 is
    recorded. *)
Lemma artifacts_recorded_example :
  example_new 10 (VNumber 4) = Ok (example_upload 10 4)
  /\ exists s0,
      start (example_upload 10 4) example_collaborators = Some s0
      /\ range (artifacts (run (example_upload 10 4) example_collaborators VUndefined
                               [Settle 1%nat] s0)) !! 1%nat = Some "bytes=4-7"
      /\ range (artifacts (run (example_upload 10 4) example_collaborators VUndefined
                               [Settle 1%nat] s0)) !! 0%nat = None
      /\ iv (artifacts (run (example_upload 10 4) example_collaborators VUndefined
                            [Settle 1%nat] s0)) = ∅.
Proof.
  split; [reflexivity|].
  exists (loop_state (example_upload 10 4) example_collaborators 3 3).
  split; [vm_compute; reflexivity|].
  destruct (artifacts_recorded browser (VString "https://blob/a")
              (VFile "a.bin" 10 "application/octet-stream") (example_opts (VNumber 4))
              (example_upload 10 4) example_collaborators VUndefined
              (loop_state (example_upload 10 4) example_collaborators 3 3)
              eq_refl ltac:(cbn; lia) ltac:(vm_compute; reflexivity) [Settle 1%nat])
    as (Hrange & Hplain & _).
  split; [|split].
  - rewrite (Hrange 1%nat (AwaitPutBlock (Ok tt))) by (vm_compute; reflexivity).
    vm_compute. reflexivity.
  - rewrite (Hrange 0%nat (AwaitRead (Ok "data"))) by (vm_compute; reflexivity).
    reflexivity.
  - apply Hplain. reflexivity.
Defined.

(** C6, the claim as it was stated: in the finished upload of 10 bytes
    without a key, the ranges of the three blocks are recorded, and
    [onSuccess] is handed the artifacts that hold them. *)
Lemma plain_upload_records_ranges :
  exists s0 a,
    start (example_upload 10 4) example_collaborators = Some s0
    /\ truthy VUndefined = false
    /\ successes (trace (run (example_upload 10 4) example_collaborators VUndefined
                             example_schedule s0)) = [a]
    /\ a = artifacts (run (example_upload 10 4) example_collaborators VUndefined
                          example_schedule s0)
    /\ range a !! 0%nat = Some "bytes=0-3"
    /\ range a !! 1%nat = Some "bytes=4-7"
    /\ range a !! 2%nat = Some "bytes=8-9"
    /\ range a <> ∅.
Proof.
  eexists. eexists. split; [vm_compute; reflexivity|].
  split; [reflexivity|]. split; [vm_compute; reflexivity|].
  split; [vm_compute; reflexivity|].
  repeat split; try (vm_compute; reflexivity).
  intros H. apply (f_equal (fun m : gmap nat string => m !! 0%nat)) in H.
  vm_compute in H. discriminate H.
Qed.

(** A file of 0 bytes gives a block count that is not a number, or 0 when
    the requested block size is negative: never 1. *)
Lemma empty_file_totalBlocks (P : Platform) (url_ file_ : value) (opts : Opts)
    (u : AzureBlockUpload) :
  constructor P url_ file_ opts = Ok u -> fileSize u = 0 ->
  totalBlocks u = NaN \/ totalBlocks u = Fin 0.
Proof.
  intros Hc Hf. apply constructor_Ok in Hc as (this & -> & _).
  cbn in Hf |- *. rewrite Hf.
  set (bs := if 0 <? blockSize this then 0 else blockSize this).
  unfold js_rem, js_div.
  destruct (Z.eqb_spec bs 0) as [E0|Hn0]; [now left|].
  right. rewrite is_zero_Fin, Z.rem_0_l by exact Hn0. cbn.
  now rewrite Z.quot_0_l by exact Hn0.
Qed.

(** C7, for every file of 0 bytes.  The constructor throws nothing; the
    block count is [NaN], or 0 for a negative block size, and not 1;
    [start] hands no job to the pool, and whatever happens next the promise
    stays pending: nothing is read, put or committed, and no callback is
    called. *)
Theorem empty_file_upload_never_settles
    (P : Platform) (url_ file_ : value) (opts : Opts) (u : AzureBlockUpload)
    (C : Collaborators) (key : value) :
  constructor P url_ file_ opts = Ok u -> fileSize u = 0 ->
  totalBlocks u <> Fin 1
  /\ exists s0,
      start u C = Some s0
      /\ jobs s0 = []
      /\ forall schedule,
          run u C key schedule s0 = s0
          /\ promise (run u C key schedule s0) = Pending
          /\ trace (run u C key schedule s0) = [].
Proof.
  intros Hc Hf.
  pose proof (empty_file_totalBlocks _ _ _ _ _ Hc Hf) as Htb.
  split; [destruct Htb as [-> | ->]; discriminate|].
  exists (initial_state u 0).
  split; [unfold start; now destruct Htb as [-> | ->]|].
  split; [reflexivity|].
  intros schedule. rewrite run_idle. repeat split.
Qed.

(** The file of 0 bytes with a requested block size of 4:
    [empty_file_upload_never_settles] applies; the block size becomes 0, the
    block count is [NaN], and after any of the steps of the example schedule
    the promise is pending and nothing was called. *)
Lemma empty_file_upload_never_settles_example :
  example_new 0 (VNumber 4) = Ok (example_upload 0 4)
  /\ blockSize (example_upload 0 4) = 0
  /\ totalBlocks (example_upload 0 4) = NaN
  /\ exists s0,
      start (example_upload 0 4) example_collaborators = Some s0
      /\ promise (run (example_upload 0 4) example_collaborators VUndefined
                      example_schedule s0) = Pending
      /\ trace (run (example_upload 0 4) example_collaborators VUndefined
                    example_schedule s0) = [].
Proof.
  split; [reflexivity|]. split; [reflexivity|]. split; [reflexivity|].
  destruct (empty_file_upload_never_settles browser (VString "https://blob/a")
              (VFile "a.bin" 0 "application/octet-stream") (example_opts (VNumber 4))
              (example_upload 0 4) example_collaborators VUndefined
              eq_refl eq_refl)
    as (_ & s0 & Hs0 & _ & Hrun).
  exists s0. split; [exact Hs0|].
  destruct (Hrun example_schedule) as (_ & Hp & Ht). now split.
Defined.




(** ** The calls of an upload *)

Lemma read_calls_app (t1 t2 : list Event) :
  read_calls (t1 ++ t2) = read_calls t1 ++ read_calls t2.
Proof. apply flat_map_app. Qed.

Lemma put_calls_app (t1 t2 : list Event) :
  put_calls (t1 ++ t2) = put_calls t1 ++ put_calls t2.
Proof. apply flat_map_app. Qed.

Lemma progress_reports_app (t1 t2 : list Event) :
  progress_reports (t1 ++ t2) = progress_reports t1 ++ progress_reports t2.
Proof. apply flat_map_app. Qed.

#[local] Hint Rewrite read_calls_app put_calls_app progress_reports_app : trace_readings.

Lemma blocks_put_calls (t : list Event) :
  blocks_put t = map (fun c => fst (fst c)) (put_calls t).
Proof.
  unfold blocks_put, put_calls.
  induction t as [|e t IH]; [reflexivity|].
  destruct e; cbn [flat_map app map fst]; now rewrite ?IH.
Qed.

(** How the blocks that satisfy [g] change when job [n] goes from [p] to
    [q]: the list [l] of those blocks gains [n], or stays. *)
Lemma phase_list_step (g : Phase -> bool) (l new : list nat) (js : list Phase)
    (n : nat) (p q : Phase) :
  js !! n = Some p ->
  (forall m, In m l <-> exists p', js !! m = Some p' /\ g p' = true) ->
  (new = [] /\ g q = g p) \/ (new = [n] /\ g q = true) ->
  forall m, In m (l ++ new) <-> exists p', <[n := q]> js !! m = Some p' /\ g p' = true.
Proof.
  intros Hn Hl Hnew m. pose proof (lookup_lt_Some _ _ _ Hn) as Hlt.
  destruct (Nat.eq_dec m n) as [->|Hne].
  - split.
    + intros Hin. exists q. split; [apply list_lookup_insert_Some; now left|].
      destruct Hnew as [[-> Hg]|[_ Hg]]; [|exact Hg].
      rewrite app_nil_r in Hin. apply Hl in Hin as (p' & Hp' & Hg').
      rewrite Hn in Hp'. injection Hp' as <-. congruence.
    + intros (p' & Hp' & Hg').
      apply list_lookup_insert_Some in Hp' as [(_ & <- & _)|(Hne & _)]; [|congruence].
      destruct Hnew as [[-> Hg]|[-> Hg]]; [|apply in_or_app; right; now left].
      rewrite app_nil_r. apply Hl. exists p. split; [exact Hn|congruence].
  - rewrite (list_lookup_insert_ne js n m q) by congruence. rewrite <- Hl.
    destruct Hnew as [[-> _]|[-> _]]; [now rewrite app_nil_r|].
    rewrite in_app_iff. cbn. intuition congruence.
Qed.

Section Called.

Variable this : AzureBlockUpload.
Variable C : Collaborators.
Variable dataEncryptionKey : value.

Abbreviation step_ := (step this C dataEncryptionKey).
Abbreviation run_ := (run this C dataEncryptionKey).
Abbreviation Step_ := (Step this C dataEncryptionKey).
Abbreviation Invariant_ := (Invariant this C dataEncryptionKey).
Abbreviation Puts_ := (Puts this C dataEncryptionKey).
Abbreviation Progress_ := (Progress this).
Abbreviation loop_state_ := (loop_state this C).

Let k := planned_jobs this.

Ltac invert_step H :=
  inversion H; subst; clear H;
  try match goal with
      | HT : Throws _ _ _ _ _ _ _ _ _ |- _ => inversion HT; subst; clear HT
      end;
  try match goal with
      | HE : Encrypted _ _ _ _ _ _ _ _ |- _ => inversion HE; subst; clear HE
      end.

Ltac read_trace :=
  autorewrite with trace_readings; unfold progress_event;
  cbn [commit_callers committed_lists successes errors blocks_read blocks_put
       read_calls put_calls progress_reports flat_map fold_left settle app];
  rewrite ?app_nil_r.

Lemma loop_state_calls (k0 j : nat) :
  read_calls (trace (loop_state_ k0 j))
  = map (fun n => (n, block_from this n, block_to this n))
        (seq 0 (length (blockIDList (loop_state_ k0 j))))
  /\ put_calls (trace (loop_state_ k0 j)) = []
  /\ progress_reports (trace (loop_state_ k0 j)) = [].
Proof.
  cbn [loop_state trace blockIDList]. rewrite length_map, length_seq.
  generalize (seq 0 (slots this j)). intros l.
  induction l as [|n l (IH1 & IH2 & IH3)]; [now cbn|].
  cbn [map read_calls put_calls progress_reports flat_map app].
  fold (read_calls (map (fun n => CallReadBlock n (block_from this n) (block_to this n)) l)).
  fold (put_calls (map (fun n => CallReadBlock n (block_from this n) (block_to this n)) l)).
  fold (progress_reports
          (map (fun n => CallReadBlock n (block_from this n) (block_to this n)) l)).
  now rewrite IH1, IH2, IH3.
Qed.

Lemma loop_state_fresh (j i : nat) (p : Phase) :
  jobs (loop_state_ k j) !! i = Some p ->
  put_called p = false /\ decremented p = false /\ returned p = false.
Proof.
  rewrite loop_state_lookup.
  destruct (i <? slots this j)%nat; [now intros [= <-]|].
  destruct (i <? k)%nat; [now intros [= <-]|discriminate].
Qed.

Lemma start_Puts : Puts_ (loop_state_ k k).
Proof.
  destruct (loop_state_calls k k) as (Hr & Hp & _).
  pose proof (blocks_put_calls (trace (loop_state_ k k))) as Hb. rewrite Hp in Hb.
  split; rewrite ?Hb, ?Hp.
  - exact Hr.
  - constructor.
  - intros n. split; [intros []|]. intros (p & Hn & Hput).
    apply loop_state_fresh in Hn as (Hn & _). congruence.
  - intros n data id [].
  - intros n p Hn Hd. apply loop_state_fresh in Hn as (_ & Hn & _). congruence.
Qed.

Lemma start_Progress : Progress_ (loop_state_ k k).
Proof.
  destruct (loop_state_calls k k) as (_ & _ & Hp).
  split; rewrite ?Hp.
  - symmetry. apply count_none. intros p Hin.
    apply list_elem_of_In, list_elem_of_lookup in Hin as [i Hi].
    now apply loop_state_fresh in Hi as (_ & _ & Hi).
  - intros n Hn. now apply loop_state_fresh in Hn as (_ & _ & Hn).
  - intros r [].
Qed.

Lemma Step_Puts (s s' : State) :
  Structure this k s -> Consistent this C dataEncryptionKey s -> Puts_ s ->
  Step_ s s' -> Puts_ s'.
Proof.
  intros Hs Hc [Hreads Honce Hphase Hargs Hok] Hstep. invert_step Hstep.
  1: destruct (queue_head this k s _ _ Hs H) as (-> & Hlt & -> & Hj).
  all: match goal with
       | Hj : jobs _ !! ?n = Some ?p |- _ =>
         pose proof (Hc _ _ Hj) as Hcons; cbn [phase_consistent] in Hcons;
         pose proof (Hok n p Hj) as Hok0; cbn [decremented] in Hok0
       end.
  all: split; cbn [jobs blockIDList trace]; read_trace.
  (* the calls of readBlock *)
  all: try match goal with
           | |- read_calls _ = _ => exact Hreads
           | |- read_calls _ ++ _ = _ =>
             rewrite length_app, Nat.add_1_r, seq_S, map_app, <- Hreads; reflexivity
           end.
  (* putBlock is called once *)
  all: try match goal with
           | |- NoDup (blocks_put _) => exact Honce
           | Hj : jobs _ !! ?n = Some _ |- NoDup (blocks_put _ ++ [?n]) =>
             apply NoDup_app; split; [exact Honce|]; split; [|apply NoDup_singleton];
             intros m Hm Hm'; apply list_elem_of_In in Hm;
             apply list_elem_of_singleton in Hm'; subst m;
             apply Hphase in Hm as (p' & Hp' & Hput); rewrite Hj in Hp';
             injection Hp' as <-; discriminate Hput
           end.
  (* the jobs that called it *)
  all: try match goal with
           | Hj : jobs _ !! ?n = Some _ |- forall m, In m (blocks_put _ ++ [?n]) <-> _ =>
             eapply phase_list_step; [exact Hj | exact Hphase | right; now split]
           | Hj : jobs _ !! ?n = Some _ |- forall m, In m (blocks_put ?t) <-> _ =>
             intros m; rewrite <- (app_nil_r (blocks_put t)); revert m;
             eapply phase_list_step; [exact Hj | exact Hphase | left; now split]
           end.
  (* its arguments *)
  all: try match goal with
           | |- forall n data id, In _ (put_calls _) -> _ => exact Hargs
           | |- forall n data id, In _ (put_calls _ ++ _) -> _ =>
             intros m data' id Hin; apply in_app_or in Hin as [Hin|[Heq|[]]];
             [exact (Hargs _ _ _ Hin)|];
             injection Heq as <- <- <-; split; [|reflexivity];
             unfold payload_of; rewrite <- Hcons;
             repeat match goal with
                    | Hk : truthy dataEncryptionKey = _ |- _ => rewrite Hk
                    | He : encryptWithKeyUsingArtefacts _ _ _ _ = _ |- _ => rewrite He
                    end; reflexivity
           end.
  (* the jobs past it *)
  all: intros m p' Hm Hd;
    apply list_lookup_insert_Some in Hm as [(<- & <- & _)|(Hne & Hm)];
    [|exact (Hok _ _ Hm Hd)];
    first [ discriminate Hd | exact (Hok0 eq_refl) | idtac ].
  all: destruct Hcons as (payload & Hp & Hput); unfold job_ok; now rewrite Hp, <- Hput.
Qed.

Lemma Step_Progress (s s' : State) :
  Structure this k s -> Progress_ s -> Step_ s s' -> Progress_ s'.
Proof.
  intros Hs [Hcount Hof Hfrom] Hstep. invert_step Hstep.
  1: destruct (queue_head this k s _ _ Hs H) as (-> & Hlt & -> & Hj).
  all: match goal with
       | Hj : jobs _ !! ?n = Some ?p |- Progress _ {| jobs := <[?n := ?q]> _ |} =>
         pose proof (count_insert returned _ _ _ q Hj) as Hd; cbn [returned] in Hd;
         pose proof (lookup_lt_Some _ _ _ Hj) as Hn
       end.
  all: split; cbn [jobs trace]; read_trace.
  all: try (rewrite ?length_app; cbn [length]; lia).
  (* the job that returns *)
  all: try match goal with
           | |- forall n, _ !! n = Some Returned -> _ =>
             intros m Hm;
             apply list_lookup_insert_Some in Hm as [(<- & Hm & _)|(Hne & Hm)];
             first [ discriminate Hm
                   | exact (Hof _ Hm)
                   | apply in_or_app; right; now left
                   | apply in_or_app; left; exact (Hof _ Hm) ]
           end.
  (* the reports *)
  all: intros r Hr;
    try (apply in_app_or in Hr as [Hr|[<-|[]]];
         [|eexists; split; [apply list_lookup_insert_Some; left; eauto|reflexivity]]);
    destruct (Hfrom r Hr) as (m & Hm & ->); exists m; split; [|reflexivity];
    apply list_lookup_insert_Some; right; split; [congruence|exact Hm].
Qed.

Lemma start_Committer : Committer (loop_state_ k k).
Proof.
  intros n. destruct (loop_state_reads this C k k) as (_ & _ & -> & _). intros [].
Qed.

Lemma Step_Committer (s s' : State) :
  Structure this k s -> Counters this k s -> Committer s -> Step_ s s' -> Committer s'.
Proof.
  intros Hs Hc Hcom Hstep. invert_step Hstep.
  1: destruct (queue_head this k s _ _ Hs H) as (-> & Hlt & -> & Hj).
  all: intros x; cbn [jobs trace]; read_trace; intros Hx.
  (* the job that calls putBlockList *)
  all: try match type of Hx with
           | In _ (_ ++ _) =>
             apply in_app_or in Hx as [Hx|[<-|[]]];
             [|eexists; split;
               [apply list_lookup_insert_Some; left;
                repeat split; eauto using lookup_lt_Some|reflexivity]]
           end.
  all: destruct (Hcom x Hx) as (px & Hpx & Hphase).
  all: match goal with
       | Hj : jobs _ !! ?n = Some ?p0 |- _ =>
         destruct (Nat.eq_dec x n) as [->|Hne];
         [rewrite Hj in Hpx; injection Hpx as <-; cbn [returned committing] in Hphase;
          first [ discriminate Hphase
                | eexists; split;
                  [apply list_lookup_insert_Some; left;
                   repeat split; eauto using lookup_lt_Some|] ]
         |exists px; split; [now rewrite list_lookup_insert_ne by congruence|]]
       end;
    cbn [returned committing]; try reflexivity.
  all: try (destruct (returned px); [|exact Hphase];
            try exact Hphase;
            intros E; apply app_eq_nil in E as [E _]; contradiction).
  all: try (intros E; now apply app_eq_nil in E as [_ E]).
  (* a commit that settles while the counter is not zero: there is none *)
  all: exfalso;
    match goal with
    | Hj : jobs _ !! _ = Some (AwaitCommit _), Hnz : remainingBytes _ <> 0 |- _ =>
      exact (Hnz (ct_committing _ _ _ Hc _ _ Hj))
    end.
Qed.

(** *** In the runs of a planned upload *)

Hypothesis Hplan : planned this.

Lemma run_Calls (schedule : list Action) (s : State) :
  Invariant_ s -> Puts_ s /\ Progress_ s /\ Committer s ->
  Invariant_ (run_ schedule s)
  /\ Puts_ (run_ schedule s) /\ Progress_ (run_ schedule s)
  /\ Committer (run_ schedule s).
Proof.
  revert s. induction schedule as [|a schedule IH]; intros s Hs (Hp & Hg & Hm); [easy|].
  cbn [run fold_left]. apply IH; [now apply step_Invariant|].
  destruct (step_Step this C dataEncryptionKey a s) as [->|Hstep]; [easy|].
  split; [|split].
  - exact (Step_Puts s _ (inv_structure _ _ _ _ Hs) (inv_consistent _ _ _ _ Hs) Hp Hstep).
  - exact (Step_Progress s _ (inv_structure _ _ _ _ Hs) Hg Hstep).
  - exact (Step_Committer s _ (inv_structure _ _ _ _ Hs) (inv_counters _ _ _ _ Hs)
             Hm Hstep).
Qed.

Lemma reachable_Calls (schedule : list Action) :
  Invariant_ (run_ schedule (loop_state_ k k))
  /\ Puts_ (run_ schedule (loop_state_ k k))
  /\ Progress_ (run_ schedule (loop_state_ k k))
  /\ Committer (run_ schedule (loop_state_ k k)).
Proof.
  apply run_Calls; [now apply start_Invariant|].
  split; [apply start_Puts|]. split; [apply start_Progress|apply start_Committer].
Qed.

(** When [putBlockList] has been called, every job is past its
    decrement. *)
Lemma committed_all_decremented (s : State) :
  Invariant_ s -> commit_callers (trace s) <> [] ->
  remainingBytes s = 0
  /\ length (blockIDList s) = k
  /\ forall n p, jobs s !! n = Some p -> decremented p = true.
Proof.
  intros Hs Hc.
  pose proof (ct_callers _ _ _ (inv_counters _ _ _ _ Hs)) as Hcall.
  destruct (Z.eqb_spec (remainingBytes s) 0) as [Hz|_]; [|contradiction].
  pose proof (all_decremented this Hplan s (inv_structure _ _ _ _ Hs)
                (inv_counters _ _ _ _ Hs) Hz) as Hall.
  pose proof (st_jobs _ _ _ (inv_structure _ _ _ _ Hs)) as Hlen.
  split; [exact Hz|]. split.
  - pose proof (st_count _ _ _ (inv_structure _ _ _ _ Hs)) as Hcount.
    pose proof (st_bound _ _ _ (inv_structure _ _ _ _ Hs)) as Hb.
    pose proof (count_implies decremented started (jobs s) ltac:(now intros [])).
    fold k in Hall, Hlen, Hb. lia.
  - intros n p Hn. apply (count_full decremented (jobs s) n p); [|exact Hn].
    fold k in Hall, Hlen. lia.
Qed.

(** A state in which every job is over does not change any more. *)
Lemma settled_state_final (a : Action) (s : State) :
  Invariant_ s -> forallb settled (jobs s) = true -> step_ a s = s.
Proof.
  intros Hs Hall. destruct a as [|n]; cbn [step].
  - unfold pool_dispatch.
    destruct (queue (pool s)) as [|n rest] eqn:Hq; [reflexivity|].
    destruct (queue_head this k s n rest (inv_structure _ _ _ _ Hs) Hq) as (_ & _ & _ & Hn).
    now pose proof (forallb_lookup _ _ _ _ Hall Hn).
  - destruct (jobs s !! n) as [p|] eqn:Hn; [|reflexivity].
    pose proof (forallb_lookup _ _ _ _ Hall Hn). now destruct p.
Qed.

Lemma settled_run_final (schedule : list Action) (s : State) :
  Invariant_ s -> forallb settled (jobs s) = true -> run_ schedule s = s.
Proof.
  intros Hs Hall. induction schedule as [|a schedule IH]; [reflexivity|].
  cbn [run fold_left]. now rewrite settled_state_final.
Qed.

End Called.

Lemma payload_of_Some (u : AzureBlockUpload) (C : Collaborators) (key : value)
    (n : nat) (data : string) :
  payload_of u C key n = Some data ->
  exists raw,
    readBlock C (file u) (block_from u n) (block_to u n) = Ok raw
    /\ if truthy key
       then exists tag,
           encryptWithKeyUsingArtefacts C key raw (randomBytes C n) = Ok (data, tag)
       else data = raw.
Proof.
  unfold payload_of.
  destruct (readBlock C (file u) (block_from u n) (block_to u n)) as [raw|e];
    [|discriminate].
  intros H. exists raw. split; [reflexivity|].
  destruct (truthy key); [|now injection H as <-].
  destruct (encryptWithKeyUsingArtefacts C key raw (randomBytes C n)) as [[enc tag]|e];
    [|discriminate]. injection H as <-. now exists tag.
Qed.

Lemma put_call_block (t : list Event) (n : nat) (data id : string) :
  In (n, data, id) (put_calls t) -> In n (blocks_put t).
Proof.
  intros H. rewrite blocks_put_calls. apply in_map_iff. now exists (n, data, id).
Qed.

Lemma block_put_call (t : list Event) (n : nat) :
  In n (blocks_put t) -> exists data id, In (n, data, id) (put_calls t).
Proof.
  rewrite blocks_put_calls. intros H. apply in_map_iff in H as ([[m data] id] & E & H).
  cbn in E. subst m. eauto.
Qed.

(** X1.  In every run of an upload, [readBlock] is called for the blocks in
    the order of the blocks, each with its own range; [putBlock] is called at
    most once for a block, and only for a block that was read: with what
    [readBlock] returned for it, or with its encryption when a key is given,
    and with the identifier that [blockIDList] holds at the index of the
    block. *)
Theorem blocks_read_and_put_once
    (P : Platform) (url_ file_ : value) (opts : Opts) (u : AzureBlockUpload)
    (C : Collaborators) (key : value) (s0 : State) :
  constructor P url_ file_ opts = Ok u -> 0 <= fileSize u ->
  start u C = Some s0 ->
  forall schedule,
    read_calls (trace (run u C key schedule s0))
    = map (fun n => (n, block_from u n, block_to u n))
          (seq 0 (length (blockIDList (run u C key schedule s0))))
    /\ NoDup (blocks_put (trace (run u C key schedule s0)))
    /\ forall n data id,
         In (n, data, id) (put_calls (trace (run u C key schedule s0))) ->
         In n (blocks_read (trace (run u C key schedule s0)))
         /\ id = blockID u n
         /\ blockIDList (run u C key schedule s0) !! n = Some id
         /\ exists raw,
             readBlock C (file u) (block_from u n) (block_to u n) = Ok raw
             /\ if truthy key
                then exists tag,
                    encryptWithKeyUsingArtefacts C key raw (randomBytes C n)
                    = Ok (data, tag)
                else data = raw.
Proof.
  intros Hc Hf Hstart schedule.
  destruct (start_cases _ _ _ _ _ C s0 Hc Hf Hstart) as [[Hplan ->]| ->].
  - destruct (reachable_Calls u C key Hplan schedule) as (Hs & Hp & _ & _).
    set (s := run u C key schedule _) in *.
    split; [exact (pt_reads _ _ _ _ Hp)|]. split; [exact (pt_once _ _ _ _ Hp)|].
    intros n data id Hin.
    destruct (pt_args _ _ _ _ Hp n data id Hin) as [Hpay ->].
    assert (Hn : (n < length (blockIDList s))%nat).
    { apply put_call_block, (pt_phase _ _ _ _ Hp) in Hin as (p & Hj & Hput).
      apply (started_index u C key s n p Hs Hj). now destruct p as [| | | | |[]]. }
    split; [|split; [reflexivity|split]].
    + rewrite (st_reads _ _ _ (inv_structure _ _ _ _ Hs)). apply in_seq. lia.
    + exact (started_blockID u C key s n Hs Hn).
    + exact (payload_of_Some u C key n data Hpay).
  - rewrite run_idle. split; [reflexivity|]. split; [constructor|]. intros n data id [].
Qed.

(** The upload of 10 bytes in blocks of 4 with a key, where block 1 is put
    first: [blocks_read_and_put_once] applies; the three blocks are read in
    order and put once each, sealed. *)
Lemma blocks_read_and_put_once_example :
  example_new 10 (VNumber 4) = Ok (example_upload 10 4)
  /\ exists s0,
      start (example_upload 10 4) example_collaborators = Some s0
      /\ read_calls (trace (run (example_upload 10 4) example_collaborators (VString "key")
                                example_schedule s0))
         = [(0%nat, 0, 4); (1%nat, 4, 8); (2%nat, 8, 10)]
      /\ put_calls (trace (run (example_upload 10 4) example_collaborators (VString "key")
                               example_schedule s0))
         = [(1%nat, "sealed data", base64 "block    1");
            (0%nat, "sealed data", base64 "block    0");
            (2%nat, "sealed data", base64 "block    2")]
      /\ NoDup (blocks_put (trace (run (example_upload 10 4) example_collaborators
                                       (VString "key") example_schedule s0))).
Proof.
  split; [reflexivity|].
  exists (loop_state (example_upload 10 4) example_collaborators 3 3).
  split; [vm_compute; reflexivity|].
  destruct (blocks_read_and_put_once browser (VString "https://blob/a")
              (VFile "a.bin" 10 "application/octet-stream") (example_opts (VNumber 4))
              (example_upload 10 4) example_collaborators (VString "key")
              (loop_state (example_upload 10 4) example_collaborators 3 3)
              eq_refl ltac:(cbn; lia) ltac:(vm_compute; reflexivity) example_schedule)
    as (_ & Hnodup & _).
  split; [vm_compute; reflexivity|]. split; [vm_compute; reflexivity|]. exact Hnodup.
Defined.

Lemma NoDup_bounded_length (l : list nat) (k : nat) :
  NoDup l -> (forall n, In n l -> (n < k)%nat) -> (length l <= k)%nat.
Proof.
  intros Hnd Hb. rewrite <- (length_seq k 0).
  apply NoDup_incl_length; [now apply NoDup_ListNoDup|].
  intros n Hn. apply in_seq. specialize (Hb n Hn). lia.
Qed.

Lemma NoDup_covering_length (l : list nat) (k : nat) :
  (forall n, (n < k)%nat -> In n l) -> (k <= length l)%nat.
Proof.
  intros Hc. rewrite <- (length_seq k 0). apply NoDup_incl_length; [apply seq_NoDup|].
  intros n Hn. apply in_seq in Hn. apply Hc. lia.
Qed.

(** X2.  [putBlockList] is called only when every block of the file has been
    put and its [putBlock] has succeeded; and once it has been called, no
    block is read or put any more. *)
Theorem commit_after_every_put
    (P : Platform) (url_ file_ : value) (opts : Opts) (u : AzureBlockUpload)
    (C : Collaborators) (key : value) (s0 : State) :
  constructor P url_ file_ opts = Ok u -> 0 <= fileSize u ->
  start u C = Some s0 ->
  forall schedule,
    commit_callers (trace (run u C key schedule s0)) <> [] ->
    (forall n p, jobs (run u C key schedule s0) !! n = Some p ->
       exists data,
         In (n, data, blockID u n) (put_calls (trace (run u C key schedule s0)))
         /\ putBlock C (url u) data (blockID u n) = Ok tt)
    /\ forall later,
        read_calls (trace (run u C key (schedule ++ later) s0))
        = read_calls (trace (run u C key schedule s0))
        /\ put_calls (trace (run u C key (schedule ++ later) s0))
           = put_calls (trace (run u C key schedule s0)).
Proof.
  intros Hc Hf Hstart schedule Hcom.
  destruct (start_cases _ _ _ _ _ C s0 Hc Hf Hstart) as [[Hplan ->]| ->];
    [|rewrite run_idle in Hcom; now destruct Hcom].
  destruct (reachable_Calls u C key Hplan schedule) as (Hs & Hp & _ & _).
  destruct (committed_all_decremented u C key Hplan _ Hs Hcom) as (_ & Hlen & Hall).
  assert (Hput : forall n, (n < planned_jobs u)%nat ->
                   In n (blocks_put (trace (run u C key schedule
                           (loop_state u C (planned_jobs u) (planned_jobs u)))))).
  { intros n Hn. apply (pt_phase _ _ _ _ Hp).
    destruct (lookup_lt_is_Some_2
                (jobs (run u C key schedule
                         (loop_state u C (planned_jobs u) (planned_jobs u)))) n)
      as [p Hj]; [now rewrite (st_jobs _ _ _ (inv_structure _ _ _ _ Hs))|].
    exists p. split; [exact Hj|]. specialize (Hall n p Hj). now destruct p as [| | | | |[]]. }
  split.
  - intros n p Hn.
    assert (Hlt : (n < planned_jobs u)%nat).
    { apply lookup_lt_Some in Hn.
      now rewrite (st_jobs _ _ _ (inv_structure _ _ _ _ Hs)) in Hn. }
    destruct (block_put_call _ n (Hput n Hlt)) as (data & id & Hin).
    destruct (pt_args _ _ _ _ Hp n data id Hin) as [Hpay ->].
    exists data. split; [exact Hin|].
    pose proof (pt_ok _ _ _ _ Hp n p Hn (Hall n p Hn)) as Hok.
    unfold job_ok in Hok. rewrite Hpay in Hok.
    destruct (putBlock C (url u) data (blockID u n)) as [[]|e]; [reflexivity|discriminate].
  - intros later.
    destruct (reachable_Calls u C key Hplan (schedule ++ later)) as (Hs' & Hp' & _ & _).
    rewrite run_app in *.
    destruct (run_grows u C key later
                (run u C key schedule (loop_state u C (planned_jobs u) (planned_jobs u))))
      as [[t Ht] [ids Hids]].
    set (s := run u C key schedule _) in *. set (s' := run u C key later s) in *.
    split.
    + rewrite (pt_reads _ _ _ _ Hp'), (pt_reads _ _ _ _ Hp). do 2 f_equal.
      pose proof (st_bound _ _ _ (inv_structure _ _ _ _ Hs')) as Hb.
      rewrite Hids, length_app in Hb |- *. lia.
    + rewrite Ht, put_calls_app.
      assert (Hnil : blocks_put t = []).
      { pose proof (pt_once _ _ _ _ Hp') as Hnd. rewrite Ht, blocks_put_app in Hnd.
        assert (Hbound : forall n, In n (blocks_put (trace s) ++ blocks_put t) ->
                                   (n < planned_jobs u)%nat).
        { intros n Hn. rewrite <- blocks_put_app, <- Ht in Hn.
          pose proof (st_puts _ _ _ (inv_structure _ _ _ _ Hs') n Hn).
          pose proof (st_bound _ _ _ (inv_structure _ _ _ _ Hs')). lia. }
        pose proof (NoDup_bounded_length _ _ Hnd Hbound) as Hle.
        pose proof (NoDup_covering_length _ _ Hput) as Hge.
        rewrite length_app in Hle.
        destruct (blocks_put t); [reflexivity|cbn [length] in Hle; lia]. }
      rewrite blocks_put_calls in Hnil. apply map_eq_nil in Hnil.
      now rewrite Hnil, app_nil_r.
Qed.

(** The upload of 10 bytes in blocks of 4 where block 1 is put first:
    [commit_after_every_put] applies when block 2, the last to be put, has
    called [putBlockList]; the three blocks were put before. *)
Lemma commit_after_every_put_example :
  example_new 10 (VNumber 4) = Ok (example_upload 10 4)
  /\ exists s0,
      start (example_upload 10 4) example_collaborators = Some s0
      /\ commit_callers
           (trace (run (example_upload 10 4) example_collaborators VUndefined
                       (firstn 7 example_schedule) s0)) = [2%nat]
      /\ (exists data,
             In (0%nat, data, base64 "block    0")
                (put_calls (trace (run (example_upload 10 4) example_collaborators VUndefined
                                       (firstn 7 example_schedule) s0))))
      /\ put_calls (trace (run (example_upload 10 4) example_collaborators VUndefined
                               (firstn 7 example_schedule ++ [Settle 2%nat]) s0))
         = put_calls (trace (run (example_upload 10 4) example_collaborators VUndefined
                                 (firstn 7 example_schedule) s0)).
Proof.
  split; [reflexivity|].
  exists (loop_state (example_upload 10 4) example_collaborators 3 3).
  split; [vm_compute; reflexivity|].
  destruct (commit_after_every_put browser (VString "https://blob/a")
              (VFile "a.bin" 10 "application/octet-stream") (example_opts (VNumber 4))
              (example_upload 10 4) example_collaborators VUndefined
              (loop_state (example_upload 10 4) example_collaborators 3 3)
              eq_refl ltac:(cbn; lia) ltac:(vm_compute; reflexivity)
              (firstn 7 example_schedule))
    as (Hput & Hlater); [vm_compute; discriminate|].
  split; [vm_compute; reflexivity|]. split.
  - destruct (Hput 0%nat Returned) as (data & Hin & _); [vm_compute; reflexivity|].
    exists data. exact Hin.
  - exact (proj2 (Hlater [Settle 2%nat])).
Defined.

(** ** How an upload ends *)

Lemma settlement_resolved (t : list Event) (p : Promise) (v : value) :
  fold_left settle t p = Resolved v -> p = Resolved v \/ successes t <> [].
Proof.
  revert p. induction t as [|e t IH]; intros p H; [now left|].
  cbn [fold_left] in H. destruct (IH _ H) as [Hp|Hs].
  - destruct e; cbn [settle] in Hp; try (now left);
      destruct p; cbn in Hp; try discriminate Hp; try (now left).
    right. discriminate.
  - right. destruct e; cbn [successes flat_map app]; try exact Hs. discriminate.
Qed.

Lemma length_committed_lists (t : list Event) :
  length (committed_lists t) = length (commit_callers t).
Proof.
  unfold committed_lists, commit_callers.
  induction t as [|e t IH]; [reflexivity|].
  destruct e; cbn [flat_map app length]; now rewrite ?IH.
Qed.

Lemma count_lookup_positive (g : Phase -> bool) (l : list Phase) (n : nat) (p : Phase) :
  l !! n = Some p -> g p = true -> (0 < count g l)%nat.
Proof.
  revert n. induction l as [|x l IH]; intros [|n] Hn Hg; try discriminate Hn.
  - injection Hn as ->. cbn [count]. rewrite Hg. lia.
  - change ((x :: l) !! S n) with (l !! n) in Hn. specialize (IH n Hn Hg).
    cbn [count]. lia.
Qed.

Lemma count_two (g : Phase -> bool) (l : list Phase) (n m : nat) (p q : Phase) :
  l !! n = Some p -> g p = true -> l !! m = Some q -> g q = true -> m <> n ->
  (2 <= count g l)%nat.
Proof.
  intros Hn Hp Hm Hq. revert n m Hn Hm.
  induction l as [|x l IH]; intros n m Hn Hm Hne; [discriminate Hn|].
  destruct n as [|n], m as [|m]; [congruence| | |].
  - injection Hn as ->. change ((p :: l) !! S m) with (l !! m) in Hm.
    cbn [count]. rewrite Hp. pose proof (count_lookup_positive g l m q Hm Hq). lia.
  - injection Hm as ->. change ((q :: l) !! S n) with (l !! n) in Hn.
    cbn [count]. rewrite Hq. pose proof (count_lookup_positive g l n p Hn Hp). lia.
  - change ((x :: l) !! S n) with (l !! n) in Hn.
    change ((x :: l) !! S m) with (l !! m) in Hm.
    cbn [count]. specialize (IH n m Hn Hm ltac:(congruence)). lia.
Qed.

(** The one job that satisfies [g]. *)
Lemma count_one_unique (g : Phase -> bool) (l : list Phase) (n m : nat) (p q : Phase) :
  count g l = 1%nat -> l !! n = Some p -> g p = true ->
  l !! m = Some q -> m <> n -> g q = false.
Proof.
  intros Hc Hn Hp Hm Hne. destruct (g q) eqn:Hq; [exfalso|reflexivity].
  pose proof (count_two g l n m p q Hn Hp Hm Hq Hne). lia.
Qed.

(** A job past its decrement that is not in the commit has returned. *)
Lemma decremented_returned (p : Phase) :
  decremented p = true -> committing p = false -> p = Returned.
Proof. destruct p as [| | | | |[]]; easy. Qed.

Lemma success_all_returned (u : AzureBlockUpload) (C : Collaborators) (key : value)
    (s : State) :
  planned u -> Invariant u C key s -> successes (trace s) <> [] ->
  forallb returned (jobs s) = true.
Proof.
  intros Hplan Hs Hsucc.
  destruct (successes (trace s)) as [|a l] eqn:Es; [contradiction|].
  destruct (ct_successes _ _ _ (inv_counters _ _ _ _ Hs) a) as [_ Hz]; [rewrite Es; now left|].
  pose proof (ct_callers _ _ _ (inv_counters _ _ _ _ Hs)) as Hcall.
  rewrite Hz in Hcall. cbn in Hcall. destruct Hcall as [x Hx].
  pose proof (ct_commits _ _ _ (inv_counters _ _ _ _ Hs)) as Hcom.
  rewrite Hx, Es in Hcom. cbn [length] in Hcom.
  destruct (committed_all_decremented u C key Hplan s Hs) as (_ & _ & Hall);
    [rewrite Hx; discriminate|].
  apply forallb_forall. intros p Hp.
  apply list_elem_of_In, list_elem_of_lookup in Hp as [n Hn].
  rewrite (decremented_returned p (Hall n p Hn)); [reflexivity|].
  apply (count_zero_lookup u committing (jobs s) n p); [lia|exact Hn].
Qed.

(** X3.  The promise of [start] is resolved only at the end of an upload:
    every job has returned, every block has been put, [putBlockList] has been
    called once, with the whole list of identifiers, [onSuccess] has been
    called once and [onError] never; and from then on nothing happens. *)
Theorem resolved_only_when_uploaded
    (P : Platform) (url_ file_ : value) (opts : Opts) (u : AzureBlockUpload)
    (C : Collaborators) (key : value) (s0 : State) :
  constructor P url_ file_ opts = Ok u -> 0 <= fileSize u ->
  start u C = Some s0 ->
  forall schedule v,
    promise (run u C key schedule s0) = Resolved v ->
    v = VUndefined
    /\ jobs (run u C key schedule s0) <> []
    /\ forallb returned (jobs (run u C key schedule s0)) = true
    /\ (forall n p, jobs (run u C key schedule s0) !! n = Some p ->
          In n (blocks_put (trace (run u C key schedule s0))))
    /\ committed_lists (trace (run u C key schedule s0))
       = [blockIDList (run u C key schedule s0)]
    /\ successes (trace (run u C key schedule s0))
       = [artifacts (run u C key schedule s0)]
    /\ errors (trace (run u C key schedule s0)) = []
    /\ forall later,
        run u C key (schedule ++ later) s0 = run u C key schedule s0.
Proof.
  intros Hc Hf Hstart schedule v Hres.
  destruct (start_cases _ _ _ _ _ C s0 Hc Hf Hstart) as [[Hplan ->]| ->];
    [|rewrite run_idle in Hres; discriminate Hres].
  destruct (reachable_Calls u C key Hplan schedule) as (Hs & Hp & _ & _).
  set (s := run u C key schedule _) in *.
  assert (Hsucc : successes (trace s) <> []).
  { rewrite (oc_promise _ (inv_outcome _ _ _ _ Hs)) in Hres.
    now destruct (settlement_resolved _ _ _ Hres). }
  pose proof (success_all_returned u C key s Hplan Hs Hsucc) as Hall.
  destruct (returned_resolves u C key Hplan s Hs Hall) as (Hprom & Hsuc & Herr).
  split; [congruence|]. split.
  { intros Hnil. pose proof (st_jobs _ _ _ (inv_structure _ _ _ _ Hs)) as Hlen.
    rewrite Hnil in Hlen. pose proof (planned_blocks_pos u Hplan).
    unfold planned_jobs in Hlen. cbn [length] in Hlen. lia. }
  split; [exact Hall|]. split.
  { intros n p Hn. apply (pt_phase _ _ _ _ Hp). exists p. split; [exact Hn|].
    pose proof (forallb_lookup _ _ _ _ Hall Hn). now destruct p. }
  split.
  { pose proof (ct_callers _ _ _ (inv_counters _ _ _ _ Hs)) as Hcall.
    pose proof (length_committed_lists (trace s)) as Hlen.
    destruct (successes (trace s)) as [|a l] eqn:Es; [contradiction|].
    destruct (ct_successes _ _ _ (inv_counters _ _ _ _ Hs) a) as [_ Hz];
      [rewrite Es; now left|].
    rewrite Hz in Hcall. cbn in Hcall. destruct Hcall as [x Hx]. rewrite Hx in Hlen.
    destruct (committed_lists (trace s)) as [|ids [|ids' l']] eqn:El; try discriminate Hlen.
    destruct (ct_committed _ _ _ (inv_counters _ _ _ _ Hs) ids) as [-> _];
      [rewrite El; now left|reflexivity]. }
  split; [exact Hsuc|]. split; [exact Herr|].
  intros later. rewrite run_app. apply (settled_run_final u C key later s Hs).
  apply forallb_forall. intros p Hp'. rewrite forallb_forall in Hall.
  specialize (Hall p Hp'). now destruct p.
Qed.

(** The upload of 10 bytes in blocks of 4: [resolved_only_when_uploaded]
    applies at the end of the example schedule, and further steps change
    nothing. *)
Lemma resolved_only_when_uploaded_example :
  example_new 10 (VNumber 4) = Ok (example_upload 10 4)
  /\ exists s0,
      start (example_upload 10 4) example_collaborators = Some s0
      /\ promise (run (example_upload 10 4) example_collaborators VUndefined
                      example_schedule s0) = Resolved VUndefined
      /\ jobs (run (example_upload 10 4) example_collaborators VUndefined
                   example_schedule s0) = [Returned; Returned; Returned]
      /\ run (example_upload 10 4) example_collaborators VUndefined
             (example_schedule ++ [Dispatch; Settle 0%nat]) s0
         = run (example_upload 10 4) example_collaborators VUndefined example_schedule s0.
Proof.
  split; [reflexivity|].
  exists (loop_state (example_upload 10 4) example_collaborators 3 3).
  split; [vm_compute; reflexivity|].
  destruct (resolved_only_when_uploaded browser (VString "https://blob/a")
              (VFile "a.bin" 10 "application/octet-stream") (example_opts (VNumber 4))
              (example_upload 10 4) example_collaborators VUndefined
              (loop_state (example_upload 10 4) example_collaborators 3 3)
              eq_refl ltac:(cbn; lia) ltac:(vm_compute; reflexivity)
              example_schedule VUndefined)
    as (_ & _ & _ & _ & _ & _ & _ & Hlater); [vm_compute; reflexivity|].
  split; [vm_compute; reflexivity|]. split; [vm_compute; reflexivity|].
  exact (Hlater [Dispatch; Settle 0%nat]).
Defined.

(** The job that was thrown the error of the commit is the only one in the
    commit; the other jobs have returned, and [onSuccess] was not called. *)
Lemma caught_commit_alone (u : AzureBlockUpload) (C : Collaborators) (key : value)
    (s : State) (n : nat) (error : Error) :
  planned u -> Invariant u C key s ->
  jobs s !! n = Some (Caught AtCommit error) ->
  successes (trace s) = []
  /\ count committing (jobs s) = 1%nat
  /\ forall m p, jobs s !! m = Some p -> m <> n -> p = Returned.
Proof.
  intros Hplan Hs Hn.
  pose proof (count_lookup_positive committing _ _ _ Hn eq_refl) as Hpos.
  pose proof (ct_commits _ _ _ (inv_counters _ _ _ _ Hs)) as Hcom.
  pose proof (commit_at_most_once u C key s Hs) as Hone.
  assert (Hone' : count committing (jobs s) = 1%nat) by lia.
  assert (Hsucc : successes (trace s) = [])
    by (destruct (successes (trace s)); [reflexivity|cbn [length] in Hcom; lia]).
  destruct (committed_all_decremented u C key Hplan s Hs) as (_ & _ & Hall).
  { intros E. rewrite E in Hcom. cbn [length] in Hcom. lia. }
  repeat split; [exact Hsucc|exact Hone'|].
  intros m p Hm Hne. apply decremented_returned; [exact (Hall m p Hm)|].
  exact (count_one_unique committing (jobs s) n m _ p Hone' Hn eq_refl Hm Hne).
Qed.

(** X4.  When the commit fails, the upload is rejected with the error of
    [putBlockList] although every block has been put: [onError] is called
    with that error and nothing else, [onSuccess] is not called, the job of
    the last block does not report its progress, and every other job has
    returned; nothing happens afterwards. *)
Theorem commit_failure_rejects
    (P : Platform) (url_ file_ : value) (opts : Opts) (u : AzureBlockUpload)
    (C : Collaborators) (key : value) (s0 : State) :
  constructor P url_ file_ opts = Ok u -> 0 <= fileSize u ->
  start u C = Some s0 ->
  forall schedule n error,
    jobs (run u C key schedule s0) !! n = Some (Caught AtCommit error) ->
    promise (run u C key schedule s0) = Rejected error
    /\ errors (trace (run u C key schedule s0)) = [error]
    /\ successes (trace (run u C key schedule s0)) = []
    /\ commit_callers (trace (run u C key schedule s0)) = [n]
    /\ (forall m p, jobs (run u C key schedule s0) !! m = Some p ->
          In m (blocks_put (trace (run u C key schedule s0)))
          /\ (m <> n -> p = Returned))
    /\ S (length (progress_reports (trace (run u C key schedule s0))))
       = length (jobs (run u C key schedule s0))
    /\ forall later,
        run u C key (schedule ++ later) s0 = run u C key schedule s0.
Proof.
  intros Hc Hf Hstart schedule n error Hn.
  destruct (start_cases _ _ _ _ _ C s0 Hc Hf Hstart) as [[Hplan ->]| ->];
    [|rewrite run_idle in Hn; discriminate Hn].
  destruct (reachable_Calls u C key Hplan schedule) as (Hs & Hp & Hg & Hcaller).
  set (s := run u C key schedule _) in *.
  destruct (caught_commit_alone u C key s n error Hplan Hs Hn) as (Hsucc & Hone & Hothers).
  assert (Hret : forall m p, jobs s !! m = Some p -> put_called p = true /\ settled p = true).
  { intros m p Hm. destruct (Nat.eq_dec m n) as [->|Hne].
    - rewrite Hn in Hm. now injection Hm as <-.
    - now rewrite (Hothers m p Hm Hne). }
  assert (Hcaught : count caught (jobs s) = 1%nat).
  { pose proof (count_insert caught _ _ _ Returned Hn) as Hi. cbn [caught] in Hi.
    rewrite count_none in Hi; [lia|]. intros p Hp'.
    apply list_elem_of_In, list_elem_of_lookup in Hp' as [m Hm].
    apply list_lookup_insert_Some in Hm as [(_ & <- & _)|(Hne & Hm)]; [reflexivity|].
    now rewrite (Hothers m p Hm ltac:(congruence)). }
  assert (Herr : errors (trace s) = [error]).
  { pose proof (oc_errors _ (inv_outcome _ _ _ _ Hs)) as Hlen. rewrite Hcaught in Hlen.
    pose proof (oc_caught _ (inv_outcome _ _ _ _ Hs) _ _ _ Hn) as Hin.
    destruct (errors (trace s)) as [|e [|e' l]]; try discriminate Hlen.
    now destruct Hin as [->|[]]. }
  split.
  { rewrite (oc_promise _ (inv_outcome _ _ _ _ Hs)). unfold first_settlement.
    rewrite settlement_of_errors by exact Hsucc. now rewrite Herr. }
  split; [exact Herr|]. split; [exact Hsucc|]. split.
  { pose proof (ct_commits _ _ _ (inv_counters _ _ _ _ Hs)) as Hcom.
    rewrite Hone, Hsucc in Hcom. cbn [length] in Hcom.
    destruct (commit_callers (trace s)) as [|x [|y l]] eqn:Ex; try discriminate Hcom.
    f_equal. destruct (Hcaller x) as (p & Hp' & Hphase); [rewrite Ex; now left|].
    destruct (Nat.eq_dec x n) as [E|Hne]; [exact E|].
    rewrite (Hothers x p Hp' Hne) in Hphase. cbn [returned] in Hphase.
    now rewrite Hsucc in Hphase. }
  split.
  { intros m p Hm. split; [|exact (Hothers m p Hm)].
    apply (pt_phase _ _ _ _ Hp). exists p. split; [exact Hm|]. apply (Hret m p Hm). }
  split.
  { rewrite (pg_count _ _ Hg).
    pose proof (count_insert returned _ _ _ Returned Hn) as Hi. cbn [returned] in Hi.
    rewrite count_all, length_insert in Hi; [lia|].
    apply forallb_forall. intros p Hp'.
    apply list_elem_of_In, list_elem_of_lookup in Hp' as [m Hm].
    apply list_lookup_insert_Some in Hm as [(_ & <- & _)|(Hne & Hm)]; [reflexivity|].
    now rewrite (Hothers m p Hm ltac:(congruence)). }
  intros later. rewrite run_app. apply (settled_run_final u C key later s Hs).
  apply forallb_forall. intros p Hp'.
  apply list_elem_of_In, list_elem_of_lookup in Hp' as [m Hm]. apply (Hret m p Hm).
Qed.

(** The upload of 10 bytes in blocks of 4 when [putBlockList] fails:
    [commit_failure_rejects] applies to block 2, the last to be put; the
    promise is rejected with the error of the commit, and two of the three
    jobs have reported their progress. *)
Lemma commit_failure_rejects_example :
  example_new 10 (VNumber 4) = Ok (example_upload 10 4)
  /\ exists s0,
      start (example_upload 10 4) commit_failing_collaborators = Some s0
      /\ jobs (run (example_upload 10 4) commit_failing_collaborators VUndefined
                   example_schedule s0)
         = [Returned; Returned; Caught AtCommit "commit failed"]
      /\ promise (run (example_upload 10 4) commit_failing_collaborators VUndefined
                      example_schedule s0) = Rejected "commit failed"
      /\ blocks_put (trace (run (example_upload 10 4) commit_failing_collaborators VUndefined
                                example_schedule s0)) = [1; 0; 2]%nat
      /\ length (progress_reports
                   (trace (run (example_upload 10 4) commit_failing_collaborators VUndefined
                               example_schedule s0))) = 2%nat.
Proof.
  split; [reflexivity|].
  exists (loop_state (example_upload 10 4) commit_failing_collaborators 3 3).
  split; [vm_compute; reflexivity|].
  destruct (commit_failure_rejects browser (VString "https://blob/a")
              (VFile "a.bin" 10 "application/octet-stream") (example_opts (VNumber 4))
              (example_upload 10 4) commit_failing_collaborators VUndefined
              (loop_state (example_upload 10 4) commit_failing_collaborators 3 3)
              eq_refl ltac:(cbn; lia) ltac:(vm_compute; reflexivity)
              example_schedule 2%nat "commit failed")
    as (Hprom & _); [vm_compute; reflexivity|].
  split; [vm_compute; reflexivity|]. split; [exact Hprom|].
  split; vm_compute; reflexivity.
Defined.

(** ** The progress of an upload *)

(** The fraction [(n + 1) / totalBlocks] of a block of the file. *)
Lemma progress_fraction (n : nat) (tb : Z) :
  Z.of_nat n < tb ->
  js_div_num (Z.of_nat n + 1) (Fin tb)
  = if Z.of_nat n + 1 =? tb then Fin 1 else Frac (Z.of_nat n + 1) tb.
Proof.
  intros Hn. cbn [js_div_num]. unfold js_div.
  destruct (Z.eqb_spec tb 0) as [|_]; [lia|].
  destruct (Z.eqb_spec (Z.of_nat n + 1) tb) as [->|Hne].
  - rewrite Z.rem_same, Z.quot_same by lia. reflexivity.
  - rewrite Z.rem_small by lia.
    destruct (Z.eqb_spec (Z.of_nat n + 1) 0); [lia|reflexivity].
Qed.

(** X5.  Every job that returns calls [onProgress] once, and no other job
    does; what it reports is the index of its block plus one over the number
    of blocks, a proper fraction but for the last block of the file, which
    reports 1: the reports follow the blocks, not the order in which the
    jobs finish. *)
Theorem progress_reported_by_block
    (P : Platform) (url_ file_ : value) (opts : Opts) (u : AzureBlockUpload)
    (C : Collaborators) (key : value) (s0 : State) (tb : Z) :
  constructor P url_ file_ opts = Ok u -> 0 <= fileSize u ->
  totalBlocks u = Fin tb -> 0 < tb ->
  start u C = Some s0 ->
  forall schedule,
    length (progress_reports (trace (run u C key schedule s0)))
    = count returned (jobs (run u C key schedule s0))
    /\ (forall n, jobs (run u C key schedule s0) !! n = Some Returned ->
          In (if Z.of_nat n + 1 =? tb then Fin 1 else Frac (Z.of_nat n + 1) tb,
              file_name (file u))
             (progress_reports (trace (run u C key schedule s0))))
    /\ (forall r, In r (progress_reports (trace (run u C key schedule s0))) ->
          exists n,
            jobs (run u C key schedule s0) !! n = Some Returned
            /\ r = (if Z.of_nat n + 1 =? tb then Fin 1 else Frac (Z.of_nat n + 1) tb,
                    file_name (file u))).
Proof.
  intros Hc Hf Htb Hpos Hstart schedule.
  pose proof (blocks_planned _ _ _ _ _ _ Hc Hf Htb Hpos) as Hplan.
  rewrite (start_planned u C Hplan) in Hstart. injection Hstart as <-.
  destruct (reachable_Calls u C key Hplan schedule) as (Hs & _ & Hg & _).
  set (s := run u C key schedule _) in *.
  assert (Hfrac : forall n p, jobs s !! n = Some p ->
            progress_of u n
            = (if Z.of_nat n + 1 =? tb then Fin 1 else Frac (Z.of_nat n + 1) tb,
               file_name (file u))).
  { intros n p Hn. unfold progress_of. rewrite Htb, progress_fraction; [reflexivity|].
    apply lookup_lt_Some in Hn. rewrite (st_jobs _ _ _ (inv_structure _ _ _ _ Hs)) in Hn.
    unfold planned_jobs in Hn. rewrite (planned_totalBlocks u Hplan) in Htb.
    injection Htb as <-. lia. }
  split; [exact (pg_count _ _ Hg)|]. split.
  - intros n Hn. rewrite <- (Hfrac n _ Hn). exact (pg_of _ _ Hg n Hn).
  - intros r Hr. destruct (pg_from _ _ Hg r Hr) as (n & Hn & ->).
    exists n. split; [exact Hn|exact (Hfrac n _ Hn)].
Qed.

(** The upload of 10 bytes in blocks of 4 where block 1 is put first:
    [progress_reported_by_block] applies; the reports are 2/3, then 1/3,
    then 1. *)
Lemma progress_reported_by_block_example :
  example_new 10 (VNumber 4) = Ok (example_upload 10 4)
  /\ exists s0,
      start (example_upload 10 4) example_collaborators = Some s0
      /\ progress_reports (trace (run (example_upload 10 4) example_collaborators VUndefined
                                      example_schedule s0))
         = [(Frac 2 3, VString "a.bin"); (Frac 1 3, VString "a.bin");
            (Fin 1, VString "a.bin")]
      /\ In (Fin 1, VString "a.bin")
            (progress_reports (trace (run (example_upload 10 4) example_collaborators
                                          VUndefined example_schedule s0))).
Proof.
  split; [reflexivity|].
  exists (loop_state (example_upload 10 4) example_collaborators 3 3).
  split; [vm_compute; reflexivity|].
  destruct (progress_reported_by_block browser (VString "https://blob/a")
              (VFile "a.bin" 10 "application/octet-stream") (example_opts (VNumber 4))
              (example_upload 10 4) example_collaborators VUndefined
              (loop_state (example_upload 10 4) example_collaborators 3 3) 3
              eq_refl ltac:(cbn; lia) eq_refl ltac:(lia) ltac:(vm_compute; reflexivity)
              example_schedule)
    as (_ & Hof & _).
  split; [vm_compute; reflexivity|].
  exact (Hof 2%nat ltac:(vm_compute; reflexivity)).
Defined.

(** ** The length of a block identifier *)

Lemma length_base64 (s : string) :
  String.length (base64 s) = (4 * ((String.length s + 2) / 3))%nat.
Proof.
  induction s as [| | |a b c rest IH] using string_triples_ind.
  - reflexivity.
  - now destruct a.
  - now destruct a, b.
  - rewrite base64_unfold3. cbn [String.length]. rewrite IH.
    replace (S (S (S (String.length rest))) + 2)%nat
      with (String.length rest + 2 + 1 * 3)%nat by lia.
    rewrite Nat.div_add by lia. lia.
Qed.

(** ** The constructor and [analizeFile], once more *)

(** X7.  [analizeFile] can be called again without changing the plan. *)
Theorem analizeFile_idempotent (P : Platform) (this : AzureBlockUpload) :
  analizeFile P (analizeFile P this) = analizeFile P this.
Proof.
  unfold analizeFile.
  cbn [url file blockSize simultaneousUploads blockIDPrefix fileSize fileType
       currentFilePointer totalRemainingBytes totalBlocks].
  set (size := getSize P (file this)).
  assert (E : (if size <? (if size <? blockSize this then size else blockSize this)
               then size
               else if size <? blockSize this then size else blockSize this)
              = if size <? blockSize this then size else blockSize this).
  { destruct (Z.ltb_spec size (blockSize this)) as [Hlt|Hge].
    - now rewrite Z.ltb_irrefl.
    - destruct (Z.ltb_spec size (blockSize this)); [lia|reflexivity]. }
  now rewrite E.
Qed.

(** X8.  A file that is not empty and not larger than the block size asked
    for (or than [BLOCK_MAX_SIZE] when none is asked for) is sent as one
    block, the whole file. *)
Theorem small_file_is_one_block
    (P : Platform) (url_ file_ : value) (opts : Opts) (u : AzureBlockUpload) :
  constructor P url_ file_ opts = Ok u ->
  0 < fileSize u ->
  fileSize u <= number_or (opt_blockSize opts) (BLOCK_MAX_SIZE P) ->
  blockSize u = fileSize u
  /\ totalBlocks u = Fin 1
  /\ block_ranges u = Some [(0, fileSize u)].
Proof.
  intros Hc Hf Hle.
  destruct (constructor_Ok _ _ _ _ _ Hc) as (this & -> & _ & Hbs & _).
  assert (Hb : blockSize (analizeFile P this) = fileSize (analizeFile P this)).
  { cbn in Hf, Hle |- *. rewrite <- Hbs in Hle.
    destruct (Z.ltb_spec (getSize P (file this)) (blockSize this)); [reflexivity|lia]. }
  assert (Hplan : planned (analizeFile P this))
    by (apply analizeFile_planned; [exact Hf|now rewrite Hb]).
  assert (Hone : ceil_div (fileSize (analizeFile P this)) (blockSize (analizeFile P this)) = 1).
  { rewrite Hb. unfold ceil_div.
    replace (fileSize (analizeFile P this) + fileSize (analizeFile P this) - 1)
      with (1 * fileSize (analizeFile P this) + (fileSize (analizeFile P this) - 1)) by lia.
    rewrite Z.div_add_l, Z.div_small by lia. reflexivity. }
  split; [exact Hb|]. split.
  - now rewrite (planned_totalBlocks _ Hplan), Hone.
  - rewrite (block_ranges_planned _ Hplan), Hone.
    change (seq 0 (Z.to_nat 1)) with [0%nat]. cbn [map].
    unfold block_from, block_to. rewrite Hb. cbn [Z.of_nat].
    rewrite Z.mul_0_l. change (0 + 1) with 1. rewrite Z.mul_1_l, Z.ltb_irrefl. reflexivity.
Qed.

(** A file of 3 bytes with a block size of 4: [small_file_is_one_block]
    applies. *)
Lemma small_file_is_one_block_example :
  example_new 3 (VNumber 4) = Ok (example_upload 3 4)
  /\ blockSize (example_upload 3 4) = 3
  /\ block_ranges (example_upload 3 4) = Some [(0, 3)].
Proof.
  split; [reflexivity|].
  destruct (small_file_is_one_block browser (VString "https://blob/a")
              (VFile "a.bin" 3 "application/octet-stream") (example_opts (VNumber 4))
              (example_upload 3 4) eq_refl ltac:(cbn; lia) ltac:(cbn; lia))
    as (Hb & _ & Hr).
  split; [exact Hb|exact Hr].
Defined.

Lemma number_or_nonzero (v : value) (default : Z) :
  default <> 0 -> number_or v default <> 0.
Proof.
  intros Hd. unfold number_or, js_or.
  destruct v as [| |[]|z| |s| |name size_ type|form]; cbn [truthy]; try exact Hd.
  - destruct (Z.eqb_spec z 0); [exact Hd|assumption].
  - destruct (String.eqb s EmptyString); exact Hd.
Qed.

(** The block count of a constructed upload is a number or [NaN]; it is
    infinite only when [BLOCK_MAX_SIZE] is 0. *)
Lemma constructed_totalBlocks (P : Platform) (url_ file_ : value) (opts : Opts)
    (u : AzureBlockUpload) :
  constructor P url_ file_ opts = Ok u -> BLOCK_MAX_SIZE P <> 0 ->
  totalBlocks u = NaN \/ exists tb, totalBlocks u = Fin tb.
Proof.
  intros Hc Hmax.
  destruct (constructor_Ok _ _ _ _ _ Hc) as (this & -> & _ & Hbs & _).
  pose proof (number_or_nonzero (opt_blockSize opts) _ Hmax) as Hnz. rewrite <- Hbs in Hnz.
  cbn [analizeFile totalBlocks].
  set (size := getSize P (file this)).
  set (bs := if size <? blockSize this then size else blockSize this).
  unfold js_rem, js_div.
  destruct (Z.eqb_spec bs 0) as [E0|Hn0].
  - assert (size = 0) by (subst bs; destruct (size <? blockSize this); congruence).
    subst size. rewrite H. now left.
  - right. rewrite is_zero_Fin.
    destruct (Z.eqb_spec (Z.rem size bs) 0); cbn [Math_ceil]; eauto.
Qed.

(** ** The earlier version *)

Section Versions.

Variable u : Earlier.AzureBlockUpload.
Variable C : Earlier.Collaborators.

Abbreviation later_step := (step (later_upload u) (later_collaborators C u) VUndefined).
Abbreviation later_run := (run (later_upload u) (later_collaborators C u) VUndefined).

Ltac unfold_jobs :=
  unfold job_begin, job_catch, job_finish, pool_release, set_job, emit, set_pool,
    set_promise, set_artifacts, set_remainingBytes, push_blockID,
    Earlier.job_begin, Earlier.job_catch, Earlier.job_finish, Earlier.pool_release,
    Earlier.set_job, Earlier.emit, Earlier.set_pool, Earlier.set_promise,
    Earlier.set_remainingBytes, Earlier.push_blockID, earlier_state;
  cbn [remainingBytes blockIDList artifacts promise pool jobs trace size running queue
       Earlier.remainingBytes Earlier.blockIDList Earlier.promise Earlier.pool
       Earlier.jobs Earlier.trace];
  rewrite ?map_app; cbn [map earlier_event].

Lemma earlier_job_begin (n : nat) (s : State) :
  earlier_state (job_begin (later_upload u) (later_collaborators C u) n s)
  = Earlier.job_begin u C n (earlier_state s).
Proof. unfold_jobs. reflexivity. Qed.

Lemma earlier_pool_run (n : nat) (s : State) :
  earlier_state (pool_run (later_upload u) (later_collaborators C u) n s)
  = Earlier.pool_run u C n (earlier_state s).
Proof.
  unfold pool_run, Earlier.pool_run.
  change (Earlier.pool (earlier_state s)) with (pool s).
  destruct (running (pool s) <? size (pool s)); [|reflexivity].
  now rewrite earlier_job_begin.
Qed.

(** A step of the later version is a step of the earlier one. *)
Lemma earlier_step (a : Action) (s : State) :
  earlier_state (later_step a s) = Earlier.step u C a (earlier_state s).
Proof.
  destruct a as [|n]; cbn [step Earlier.step].
  - unfold pool_dispatch, Earlier.pool_dispatch.
    change (Earlier.pool (earlier_state s)) with (pool s).
    destruct (queue (pool s)) as [|n rest]; [reflexivity|].
    destruct (running (pool s) <? size (pool s)); [|reflexivity].
    now rewrite earlier_job_begin.
  - change (Earlier.jobs (earlier_state s)) with (jobs s).
    destruct (jobs s !! n) as [[|[data|e]|[v|e]|[v|e]| |]|]; try reflexivity;
      unfold job_after_read, job_after_putBlock, job_after_commit,
        Earlier.job_after_read, Earlier.job_after_putBlock, Earlier.job_after_commit;
      cbn [truthy]; unfold_jobs; try reflexivity.
    + change (blockSize (later_upload u)) with (Earlier.blockSize u).
      destruct (remainingBytes s - Earlier.blockSize u <? 0); unfold_jobs;
        [cbn [Z.eqb]; unfold_jobs; reflexivity|].
      destruct (remainingBytes s - Earlier.blockSize u =? 0) eqn:E; unfold_jobs;
        rewrite ?E; unfold_jobs; reflexivity.
    + destruct (remainingBytes s =? 0); unfold_jobs; reflexivity.
Qed.

Lemma earlier_run (schedule : list Action) (s : State) :
  earlier_state (later_run schedule s) = Earlier.run u C schedule (earlier_state s).
Proof.
  revert s. induction schedule as [|a schedule IH]; intros s; [reflexivity|].
  cbn [run Earlier.run fold_left]. rewrite <- earlier_step. apply IH.
Qed.

Lemma earlier_start :
  Earlier.start u C
  = option_map earlier_state (start (later_upload u) (later_collaborators C u)).
Proof.
  unfold Earlier.start, start. cbn [later_upload totalBlocks].
  destruct (loop_count (Earlier.totalBlocks u)) as [k|]; [|reflexivity].
  cbn [option_map]. f_equal.
  change (Earlier.initial_state u k)
    with (earlier_state (initial_state (later_upload u) k)).
  generalize (initial_state (later_upload u) k). generalize (seq 0 k).
  intros l. induction l as [|n l IH]; intros s; [reflexivity|].
  cbn [fold_left]. rewrite <- earlier_pool_run. apply IH.
Qed.

End Versions.

Lemma later_constructor (max : Z) (url_ file_ : value) (opts : Earlier.Opts) :
  constructor (browser_with max) url_ file_ (later_opts opts)
  = match Earlier.constructor max url_ file_ opts with
    | Ok u => Ok (later_upload u)
    | Err e => Err e
    end.
Proof.
  unfold constructor, Earlier.constructor.
  destruct url_; try reflexivity.
  cbn [browser_with File_is_function BLOCK_MAX_SIZE later_opts opt_blockSize
       opt_simultaneousUploads opt_blockIDPrefix andb negb
       opts_fields Earlier.opts_fields].
  destruct (instanceof_File file_); cbn [negb andb]; [|reflexivity].
  destruct (truthy (Earlier.opt_blockSize opts)
            && negb (jstype_eqb (typeof (Earlier.opt_blockSize opts)) TNumber));
    [reflexivity|].
  destruct (truthy (Earlier.opt_simultaneousUploads opts)
            && negb (jstype_eqb (typeof (Earlier.opt_simultaneousUploads opts)) TNumber));
    reflexivity.
Qed.

(** X10.  On a platform with [File], the later constructor, given the
    prefix ["chunk"], throws on the arguments on which the earlier one
    throws, with the same message, and otherwise makes the same plan: the
    same block size, file size and number of blocks. *)
Theorem constructors_agree (max : Z) (url_ file_ : value) (opts : Earlier.Opts) :
  match Earlier.constructor max url_ file_ opts with
  | Ok u =>
    exists u', constructor (browser_with max) url_ file_ (later_opts opts) = Ok u'
               /\ blockSize u' = Earlier.blockSize u
               /\ fileSize u' = Earlier.fileSize u
               /\ fileType u' = Earlier.fileType u
               /\ totalRemainingBytes u' = Earlier.totalRemainingBytes u
               /\ totalBlocks u' = Earlier.totalBlocks u
               /\ simultaneousUploads u' = Earlier.simultaneousUploads u
               /\ forall n, block_from u' n = Earlier.block_from u n
                            /\ block_to u' n = Earlier.block_to u n
                            /\ blockID u' n = Earlier.blockID n
  | Err e => constructor (browser_with max) url_ file_ (later_opts opts) = Err e
  end.
Proof.
  rewrite later_constructor.
  destruct (Earlier.constructor max url_ file_ opts) as [u|e]; [|reflexivity].
  exists (later_upload u). repeat split.
Qed.

(** X11.  The later [start] and [job], run without a key on the object and
    the collaborators that stand for the earlier ones, do step by step what
    the earlier [start] and [job] do: the same calls of [readBlock],
    [putBlock] and [putBlockList] with the same arguments, the same calls of
    the callbacks, and the same settling of the promise. *)
Theorem versions_agree (u : Earlier.AzureBlockUpload) (C : Earlier.Collaborators) :
  Earlier.start u C
  = option_map earlier_state (start (later_upload u) (later_collaborators C u))
  /\ forall schedule s,
      Earlier.run u C schedule (earlier_state s)
      = earlier_state (run (later_upload u) (later_collaborators C u) VUndefined schedule s).
Proof.
  split; [apply earlier_start|]. intros schedule s. symmetry. apply earlier_run.
Qed.

(** *** What the earlier version shows of a trace *)

Lemma earlier_commit_callers (t : list Event) :
  Earlier.commit_callers (map earlier_event t) = commit_callers t.
Proof.
  unfold Earlier.commit_callers, commit_callers.
  induction t as [|e t IH]; [reflexivity|].
  destruct e; cbn [map earlier_event flat_map app]; now rewrite IH.
Qed.

Lemma earlier_committed_lists (t : list Event) :
  Earlier.committed_lists (map earlier_event t) = committed_lists t.
Proof.
  unfold Earlier.committed_lists, committed_lists.
  induction t as [|e t IH]; [reflexivity|].
  destruct e; cbn [map earlier_event flat_map app]; now rewrite IH.
Qed.

Lemma earlier_errors (t : list Event) :
  Earlier.errors (map earlier_event t) = errors t.
Proof.
  unfold Earlier.errors, errors.
  induction t as [|e t IH]; [reflexivity|].
  destruct e; cbn [map earlier_event flat_map app]; now rewrite IH.
Qed.

Lemma earlier_successes (t : list Event) :
  length (Earlier.successes (map earlier_event t)) = length (successes t).
Proof.
  unfold Earlier.successes, successes.
  induction t as [|e t IH]; [reflexivity|].
  destruct e; cbn [map earlier_event flat_map app length]; now rewrite IH.
Qed.

(** An earlier upload of [tb > 0] blocks stands for a planned upload. *)
Lemma earlier_planned (max : Z) (url_ file_ : value) (opts : Earlier.Opts)
    (u : Earlier.AzureBlockUpload) (tb : Z) :
  Earlier.constructor max url_ file_ opts = Ok u ->
  0 <= Earlier.fileSize u -> Earlier.totalBlocks u = Fin tb -> 0 < tb ->
  planned (later_upload u) /\ planned_jobs (later_upload u) = Z.to_nat tb.
Proof.
  intros Hc Hf Htb Hpos.
  pose proof (later_constructor max url_ file_ opts) as Hl. rewrite Hc in Hl.
  pose proof (blocks_planned _ _ _ _ _ tb Hl Hf Htb Hpos) as Hplan.
  split; [exact Hplan|].
  pose proof (planned_totalBlocks _ Hplan) as E. cbn [later_upload totalBlocks] in E.
  rewrite Htb in E. injection E as ->. reflexivity.
Qed.

(** X12.  The earlier version, too, calls [putBlockList] at most once in
    every run of an upload with blocks, exactly once when every job has
    transferred its block, with the identifiers of all the blocks in the
    order of the blocks; and every run can be continued until all jobs are
    over. *)
Theorem earlier_commit_exactly_once
    (max : Z) (url_ file_ : value) (opts : Earlier.Opts) (u : Earlier.AzureBlockUpload)
    (C : Earlier.Collaborators) (tb : Z) :
  Earlier.constructor max url_ file_ opts = Ok u ->
  0 <= Earlier.fileSize u -> Earlier.totalBlocks u = Fin tb -> 0 < tb ->
  0 < Earlier.simultaneousUploads u ->
  exists s0,
    Earlier.start u C = Some s0
    /\ (forall schedule,
          (length (Earlier.commit_callers (Earlier.trace (Earlier.run u C schedule s0)))
           <= 1)%nat)
    /\ (forall schedule,
          forallb transferred (Earlier.jobs (Earlier.run u C schedule s0)) = true ->
          (exists n, Earlier.commit_callers (Earlier.trace (Earlier.run u C schedule s0))
                     = [n])
          /\ Earlier.committed_lists (Earlier.trace (Earlier.run u C schedule s0))
             = [map Earlier.blockID (seq 0 (Z.to_nat tb))])
    /\ (forall schedule, exists rest,
          forallb settled (Earlier.jobs (Earlier.run u C (schedule ++ rest) s0)) = true).
Proof.
  intros Hc Hf Htb Hpos Hpool.
  destruct (earlier_planned _ _ _ _ _ _ Hc Hf Htb Hpos) as [Hplan Hk].
  set (u' := later_upload u) in *. set (C' := later_collaborators C u).
  set (s0 := loop_state u' C' (planned_jobs u') (planned_jobs u')).
  exists (earlier_state s0). split.
  { rewrite earlier_start. fold u' C'. now rewrite (start_planned u' C' Hplan). }
  split; [|split].
  - intros schedule. rewrite <- earlier_run. cbn [earlier_state Earlier.trace].
    rewrite earlier_commit_callers.
    apply (commit_at_most_once u' C' VUndefined), (reachable_Invariant u' C' _ Hplan).
  - intros schedule. rewrite <- earlier_run.
    cbn [earlier_state Earlier.trace Earlier.jobs].
    rewrite earlier_commit_callers, earlier_committed_lists. intros Hall.
    pose proof (reachable_Invariant u' C' VUndefined Hplan schedule) as Hs. fold s0 in Hs.
    destruct (transferred_commits u' C' VUndefined Hplan _ Hs Hall) as (_ & n & Hn).
    split; [now exists n|].
    match goal with
    | |- ?L = _ =>
      assert (Hlen : length L = 1%nat)
        by (rewrite length_committed_lists; exact (f_equal (@length nat) Hn));
      assert (Hin : forall ids, In ids L -> ids = map Earlier.blockID (seq 0 (Z.to_nat tb)))
        by (intros ids Hi; rewrite <- Hk;
            exact (committed_in_order u' C' VUndefined _ ids Hs Hi));
      destruct L as [|ids [|ids' l]]; try discriminate Hlen
    end.
    f_equal. apply Hin. now left.
  - intros schedule.
    destruct (completion u' C' VUndefined Hplan Hpool (run u' C' VUndefined schedule s0)
                (reachable_Invariant u' C' VUndefined Hplan schedule)) as [rest Hrest].
    exists rest. rewrite <- earlier_run, run_app. exact Hrest.
Qed.

(** The earlier upload of 10 bytes in blocks of 4 where block 1 is put
    first: [earlier_commit_exactly_once] applies, and block 2 makes the one
    call, with the three identifiers in order. *)
Lemma earlier_commit_exactly_once_example :
  earlier_example_new 10 (VNumber 4) = Ok (earlier_example_upload 10 4)
  /\ exists s0,
      Earlier.start (earlier_example_upload 10 4) (earlier_example_collaborators "0123456789")
      = Some s0
      /\ Earlier.commit_callers
           (Earlier.trace (Earlier.run (earlier_example_upload 10 4)
                             (earlier_example_collaborators "0123456789")
                             example_schedule s0)) = [2%nat]
      /\ Earlier.committed_lists
           (Earlier.trace (Earlier.run (earlier_example_upload 10 4)
                             (earlier_example_collaborators "0123456789")
                             example_schedule s0))
         = [[base64 "chunk    0"; base64 "chunk    1"; base64 "chunk    2"]].
Proof.
  split; [reflexivity|].
  destruct (earlier_commit_exactly_once 4194304 (VString "https://blob/a")
              (VFile "a.bin" 10 "application/octet-stream")
              (earlier_example_opts (VNumber 4)) (earlier_example_upload 10 4)
              (earlier_example_collaborators "0123456789") 3
              eq_refl ltac:(cbn; lia) eq_refl ltac:(lia) ltac:(cbn; lia))
    as (s0 & Hs0 & _ & Hall & _).
  exists s0. split; [exact Hs0|].
  vm_compute in Hs0. injection Hs0 as <-.
  split; [vm_compute; reflexivity|].
  destruct (Hall example_schedule) as [_ Hids]; [vm_compute; reflexivity|].
  exact Hids.
Defined.

Lemma earlier_start_cases (max : Z) (url_ file_ : value) (opts : Earlier.Opts)
    (u : Earlier.AzureBlockUpload) (C : Earlier.Collaborators) (s0 : Earlier.State) :
  Earlier.constructor max url_ file_ opts = Ok u -> 0 <= Earlier.fileSize u ->
  Earlier.start u C = Some s0 ->
  (planned (later_upload u)
   /\ s0 = earlier_state (loop_state (later_upload u) (later_collaborators C u)
                            (planned_jobs (later_upload u)) (planned_jobs (later_upload u))))
  \/ s0 = earlier_state (initial_state (later_upload u) 0).
Proof.
  intros Hc Hf Hs. rewrite earlier_start in Hs.
  destruct (start (later_upload u) (later_collaborators C u)) as [s0'|] eqn:Es;
    [|discriminate Hs].
  injection Hs as <-.
  pose proof (later_constructor max url_ file_ opts) as Hl. rewrite Hc in Hl.
  destruct (start_cases _ _ _ _ _ _ s0' Hl Hf Es) as [[Hplan ->]| ->]; [left|right]; easy.
Qed.

(** X13.  In the earlier version, too, once a job has failed to read or to
    put its block, the promise is rejected with the first error handed to
    [onError], and neither [onSuccess] nor [putBlockList] is ever called. *)
Theorem earlier_failure_rejects
    (max : Z) (url_ file_ : value) (opts : Earlier.Opts) (u : Earlier.AzureBlockUpload)
    (C : Earlier.Collaborators) (s0 : Earlier.State) :
  Earlier.constructor max url_ file_ opts = Ok u -> 0 <= Earlier.fileSize u ->
  Earlier.start u C = Some s0 ->
  forall schedule n stage error,
    Earlier.jobs (Earlier.run u C schedule s0) !! n = Some (Caught stage error) ->
    stage <> AtCommit ->
    In error (Earlier.errors (Earlier.trace (Earlier.run u C schedule s0)))
    /\ exists first rest,
        Earlier.errors (Earlier.trace (Earlier.run u C schedule s0)) = first :: rest
        /\ Earlier.promise (Earlier.run u C schedule s0) = Rejected first
        /\ forall later,
            Earlier.promise (Earlier.run u C (schedule ++ later) s0) = Rejected first
            /\ Earlier.successes (Earlier.trace (Earlier.run u C (schedule ++ later) s0))
               = []
            /\ Earlier.commit_callers
                 (Earlier.trace (Earlier.run u C (schedule ++ later) s0)) = [].
Proof.
  intros Hc Hf Hstart schedule n stage error.
  set (u' := later_upload u). set (C' := later_collaborators C u).
  destruct (earlier_start_cases _ _ _ _ _ C s0 Hc Hf Hstart) as [[Hplan ->]| ->].
  2: { rewrite <- earlier_run. fold u' C'. rewrite run_idle. intros Hn. discriminate Hn. }
  fold u' C' in Hplan |- *.
  set (s0 := loop_state u' C' (planned_jobs u') (planned_jobs u')).
  assert (E : forall l, Earlier.run u C l (earlier_state s0)
                        = earlier_state (run u' C' VUndefined l s0))
    by (intros l; symmetry; apply earlier_run).
  rewrite E. cbn [earlier_state Earlier.jobs Earlier.trace Earlier.promise].
  rewrite earlier_errors. intros Hn Hstage.
  pose proof (reachable_Invariant u' C' VUndefined Hplan schedule) as Hs. fold s0 in Hs.
  assert (Hfail : block_failed (Caught stage error) = true) by (now destruct stage).
  split; [exact (oc_caught _ (inv_outcome _ _ _ _ Hs) _ _ _ Hn)|].
  destruct (failed_block u' C' VUndefined Hplan _ n _ Hs Hn Hfail)
    as (_ & _ & _ & first & rest & He & Hp).
  exists first, rest. split; [exact He|]. split; [exact Hp|].
  intros later. rewrite E. cbn [earlier_state Earlier.trace Earlier.promise].
  rewrite earlier_commit_callers.
  pose proof (reachable_Invariant u' C' VUndefined Hplan (schedule ++ later)) as Hs'.
  fold s0 in Hs'.
  assert (Hn' : jobs (run u' C' VUndefined (schedule ++ later) s0) !! n
                = Some (Caught stage error))
    by (rewrite run_app; now apply (run_settled_persists u' C' VUndefined Hplan)).
  destruct (failed_block u' C' VUndefined Hplan _ n _ Hs' Hn' Hfail)
    as (_ & Hsucc & Hcall & first' & rest' & He' & Hp').
  split; [|split; [|exact Hcall]].
  - rewrite Hp'. f_equal.
    destruct (run_grows u' C' VUndefined later (run u' C' VUndefined schedule s0))
      as [[t Ht] _].
    rewrite run_app, Ht, errors_app, He in He'. now injection He' as ->.
  - pose proof (earlier_successes (trace (run u' C' VUndefined (schedule ++ later) s0)))
      as Hlen.
    rewrite Hsucc in Hlen.
    now destruct (Earlier.successes
                    (map earlier_event (trace (run u' C' VUndefined (schedule ++ later) s0)))).
Qed.

(** The earlier upload of the 10 bytes ["0123456789"] in blocks of 4 when
    the second block cannot be read: [earlier_failure_rejects] applies, and
    the promise is rejected with the error of [readBlock]. *)
Lemma earlier_failure_rejects_example :
  earlier_example_new 10 (VNumber 4) = Ok (earlier_example_upload 10 4)
  /\ exists s0,
      Earlier.start (earlier_example_upload 10 4) (earlier_failing_collaborators "0123456789")
      = Some s0
      /\ Earlier.jobs (Earlier.run (earlier_example_upload 10 4)
                         (earlier_failing_collaborators "0123456789") failing_schedule s0)
         = [Returned; Caught AtRead "file reading has failed"; Returned]
      /\ Earlier.promise (Earlier.run (earlier_example_upload 10 4)
                            (earlier_failing_collaborators "0123456789") failing_schedule s0)
         = Rejected "file reading has failed"
      /\ Earlier.put_calls
           (Earlier.trace (Earlier.run (earlier_example_upload 10 4)
                             (earlier_failing_collaborators "0123456789")
                             failing_schedule s0))
         = [(0%nat, "0123", base64 "chunk    0"); (2%nat, "89", base64 "chunk    2")].
Proof.
  split; [reflexivity|].
  exists (earlier_state
            (loop_state (later_upload (earlier_example_upload 10 4))
               (later_collaborators (earlier_failing_collaborators "0123456789")
                  (earlier_example_upload 10 4)) 3 3)).
  split; [vm_compute; reflexivity|].
  destruct (earlier_failure_rejects 4194304 (VString "https://blob/a")
              (VFile "a.bin" 10 "application/octet-stream")
              (earlier_example_opts (VNumber 4)) (earlier_example_upload 10 4)
              (earlier_failing_collaborators "0123456789")
              (earlier_state
                 (loop_state (later_upload (earlier_example_upload 10 4))
                    (later_collaborators (earlier_failing_collaborators "0123456789")
                       (earlier_example_upload 10 4)) 3 3))
              eq_refl ltac:(cbn; lia) ltac:(vm_compute; reflexivity)
              failing_schedule 1%nat AtRead "file reading has failed")
    as (_ & first & rest & He & Hp & _); [vm_compute; reflexivity|discriminate|].
  split; [vm_compute; reflexivity|]. split; [|vm_compute; reflexivity].
  rewrite Hp. vm_compute in He. now injection He as <- _.
Defined.

(** ** Reading the file block by block *)

Lemma append_String (c : ascii) (x y : string) : String c x +:+ y = String c (x +:+ y).
Proof. reflexivity. Qed.

Lemma append_empty_r (x : string) : x +:+ EmptyString = x.
Proof. induction x as [|c x IH]; [reflexivity|]. now rewrite append_String, IH. Qed.

Lemma append_associative (x y z : string) : (x +:+ y) +:+ z = x +:+ (y +:+ z).
Proof. induction x as [|c x IH]; [reflexivity|]. now rewrite !append_String, IH. Qed.

Lemma substring_split (s : string) (a m n : nat) :
  substring a (m + n) s = substring a m s +:+ substring (a + m) n s.
Proof.
  revert a m. induction s as [|c s IH]; intros a m.
  - destruct a, m, n; reflexivity.
  - destruct a as [|a].
    + destruct m as [|m]; [reflexivity|].
      cbn [Nat.add substring]. rewrite append_String. f_equal. apply (IH 0%nat m).
    + cbn [Nat.add substring]. apply IH.
Qed.

Lemma substring_whole (s : string) : substring 0 (String.length s) s = s.
Proof. induction s as [|c s IH]; [reflexivity|]. cbn. now rewrite IH. Qed.

(** A slice between two offsets of the blob. *)
Lemma Blob_slice_inside (bytes : string) (from to : Z) :
  0 <= from <= to -> to <= Z.of_nat (String.length bytes) ->
  Blob_slice bytes from to = substring (Z.to_nat from) (Z.to_nat to - Z.to_nat from) bytes.
Proof.
  intros Hft Hto. unfold Blob_slice.
  destruct (Z.ltb_spec from 0); [lia|]. destruct (Z.ltb_spec to 0); [lia|].
  f_equal; lia.
Qed.

Lemma blocks_concatenated (bytes : string) (cut : nat -> nat) (k : nat) :
  cut 0%nat = 0%nat -> (forall n, (n < k)%nat -> (cut n <= cut (S n))%nat) ->
  fold_right append EmptyString
    (map (fun n => substring (cut n) (cut (S n) - cut n) bytes) (seq 0 k))
  = substring 0 (cut k) bytes.
Proof.
  intros H0 Hmono. induction k as [|k IH]; [rewrite H0; now destruct bytes|].
  rewrite seq_S, map_app, fold_right_app. cbn [map fold_right Nat.add].
  assert (G : forall l x, fold_right append x l
                          = fold_right append EmptyString l +:+ x).
  { clear. induction l as [|y l IH]; intros x; [reflexivity|].
    cbn [fold_right]. now rewrite IH, append_associative. }
  rewrite G, IH by (intros n Hn; apply Hmono; lia).
  assert (Hle : (cut k <= cut (S k))%nat) by (apply Hmono; lia).
  replace (cut (S k)) with (cut k + (cut (S k) - cut k))%nat at 2 by lia.
  rewrite substring_split. cbn [Nat.add]. now rewrite append_empty_r.
Qed.

(** X14.  [readBlock] of the earlier version, on a file whose [slice] is
    that of a blob and whose reader does not fail, returns for the blocks of
    the plan, in the order of the blocks, pieces that put end to end are the
    bytes of the file. *)
Theorem earlier_blocks_reassemble
    (max : Z) (url_ file_ : value) (opts : Earlier.Opts) (u : Earlier.AzureBlockUpload)
    (C : Earlier.Collaborators) (bytes : string) (tb : Z) :
  Earlier.constructor max url_ file_ opts = Ok u ->
  Earlier.totalBlocks u = Fin tb -> 0 < tb ->
  Z.of_nat (String.length bytes) = Earlier.fileSize u ->
  (forall from to, Earlier.slice C (Earlier.file u) from to = Blob_slice bytes from to) ->
  (forall blob, Earlier.readAsArrayBuffer C blob = Earlier.onload blob) ->
  exists blocks,
    length blocks = Z.to_nat tb
    /\ (forall n data, blocks !! n = Some data ->
          Earlier.readBlock C u (Earlier.block_from u n) (Earlier.block_to u n) = Ok data)
    /\ fold_right append EmptyString blocks = bytes.
Proof.
  intros Hc Htb Hpos Hlen Hslice Hload.
  destruct (earlier_planned _ _ _ _ _ _ Hc ltac:(lia) Htb Hpos) as [Hplan Hk].
  set (u' := later_upload u) in *.
  destruct (plan_bounds u' Hplan) as (Hf & Hb & _ & _ & Hhi).
  set (cut := fun n => Z.to_nat (Z.min (Z.of_nat n * blockSize u') (fileSize u'))).
  assert (Hpiece : forall n,
             Blob_slice bytes (Earlier.block_from u n) (Earlier.block_to u n)
             = substring (cut n) (cut (S n) - cut n) bytes).
  { intros n.
    change (Earlier.block_from u n) with (block_from u' n).
    change (Earlier.block_to u n) with (block_to u' n).
    rewrite (block_to_min u' n). unfold block_from.
    destruct (Z.le_gt_cases (Z.of_nat n * blockSize u') (fileSize u')) as [Hin|Hout].
    - rewrite Blob_slice_inside by (change (Earlier.fileSize u) with (fileSize u') in Hlen; nia).
      unfold cut. f_equal; [f_equal; lia|]. f_equal; f_equal; lia.
    - unfold Blob_slice, cut. change (Earlier.fileSize u) with (fileSize u') in Hlen.
      destruct (Z.ltb_spec (Z.of_nat n * blockSize u') 0); [nia|].
      destruct (Z.ltb_spec (Z.min ((Z.of_nat n + 1) * blockSize u') (fileSize u')) 0);
        [nia|].
      f_equal; nia. }
  exists (map (fun n => Blob_slice bytes (Earlier.block_from u n) (Earlier.block_to u n))
              (seq 0 (Z.to_nat tb))).
  split; [now rewrite length_map, length_seq|]. split.
  - intros n data Hn. rewrite lookup_map_seq in Hn.
    destruct (n <? Z.to_nat tb)%nat; [|discriminate Hn]. injection Hn as <-.
    unfold Earlier.readBlock. now rewrite Hslice, Hload.
  - rewrite (map_ext _ _ Hpiece), blocks_concatenated.
    + unfold cut. rewrite <- Hk. unfold planned_jobs.
      replace (Z.min _ _) with (fileSize u') by nia.
      change (fileSize u') with (Earlier.fileSize u). rewrite <- Hlen, Nat2Z.id.
      apply substring_whole.
    + unfold cut. cbn. lia.
    + intros n _. unfold cut. nia.
Qed.

(** The earlier upload of the 10 bytes ["0123456789"] in blocks of 4:
    [earlier_blocks_reassemble] applies; the blocks are ["0123"], ["4567"]
    and ["89"]. *)
Lemma earlier_blocks_reassemble_example :
  earlier_example_new 10 (VNumber 4) = Ok (earlier_example_upload 10 4)
  /\ Earlier.readBlock (earlier_example_collaborators "0123456789")
       (earlier_example_upload 10 4) 8 10 = Ok "89"
  /\ exists blocks,
      length blocks = 3%nat
      /\ fold_right append EmptyString blocks = "0123456789".
Proof.
  split; [reflexivity|]. split; [vm_compute; reflexivity|].
  destruct (earlier_blocks_reassemble 4194304 (VString "https://blob/a")
              (VFile "a.bin" 10 "application/octet-stream")
              (earlier_example_opts (VNumber 4)) (earlier_example_upload 10 4)
              (earlier_example_collaborators "0123456789") "0123456789" 3
              eq_refl eq_refl ltac:(lia) eq_refl
              ltac:(intros; reflexivity) ltac:(intros; reflexivity))
    as (blocks & Hlen & _ & Hcat).
  exists blocks. split; [exact Hlen|exact Hcat].
Defined.

(** X15.  The block identifiers of the earlier version, the base64 of
    ["chunk"] and the index padded with spaces to five characters, are
    distinct for distinct blocks and, up to block 99999, 16 characters
    long. *)
Theorem earlier_blockIDs (n : nat) :
  Z.of_nat n <= 99999 ->
  String.length (Earlier.blockID n) = 16%nat
  /\ (exists k : nat,
         (k + String.length (string_of_nat n) = 5)%nat
         /\ Earlier.blockID n = base64 ("chunk" +:+ spaces k +:+ string_of_nat n))
  /\ forall m, m <> n -> Earlier.blockID m <> Earlier.blockID n.
Proof.
  intros Hn.
  assert (L : (String.length (string_of_nat n) <= 5)%nat)
    by (apply length_string_of_nat; [lia|]; change (10 ^ Z.of_nat 5) with 100000; lia).
  split; [|split].
  - unfold Earlier.blockID. rewrite length_base64, length_append, length_padStart.
    change (String.length "chunk") with 5%nat.
    replace (5 + Nat.max 5 (String.length (string_of_nat n)) + 2)%nat with 12%nat by lia.
    reflexivity.
  - exists (5 - String.length (string_of_nat n))%nat. split; [lia|].
    unfold Earlier.blockID, padStart.
    destruct (Nat.ltb_spec (String.length (string_of_nat n)) 5); [reflexivity|].
    now replace (5 - String.length (string_of_nat n))%nat with 0%nat by lia.
  - intros m Hm H. apply Hm. unfold Earlier.blockID in H.
    apply base64_inj, append_inv_head in H. now apply (padStart_index_inj m n 5).
Qed.

(** Block 7 of an earlier upload: ["chunk    7"] in base64. *)
Lemma earlier_blockIDs_example :
  Z.of_nat 7 <= 99999
  /\ Earlier.blockID 7 = base64 "chunk    7"
  /\ Earlier.blockID 8 <> Earlier.blockID 7.
Proof.
  split; [cbn; lia|]. split; [reflexivity|].
  destruct (earlier_blockIDs 7) as (_ & _ & Hd); [cbn; lia|]. apply Hd. discriminate.
Defined.

(** ** The promise and the callbacks *)

(** X16.  The promise of [start] and the callbacks never disagree: while it
    is pending neither [onSuccess] nor [onError] has been called; it is
    resolved, with no value, when [onSuccess] has been called, once, and
    [onError] never; it is rejected with the first error handed to
    [onError] when [onSuccess] has not been called; and [onError] is called
    once for every job that fails. *)
Theorem promise_follows_callbacks
    (P : Platform) (url_ file_ : value) (opts : Opts) (u : AzureBlockUpload)
    (C : Collaborators) (key : value) (s0 : State) :
  constructor P url_ file_ opts = Ok u -> 0 <= fileSize u ->
  start u C = Some s0 ->
  forall schedule,
    length (errors (trace (run u C key schedule s0)))
    = count caught (jobs (run u C key schedule s0))
    /\ match promise (run u C key schedule s0) with
       | Pending =>
         successes (trace (run u C key schedule s0)) = []
         /\ errors (trace (run u C key schedule s0)) = []
       | Resolved v =>
         v = VUndefined
         /\ successes (trace (run u C key schedule s0))
            = [artifacts (run u C key schedule s0)]
         /\ errors (trace (run u C key schedule s0)) = []
       | Rejected e =>
         successes (trace (run u C key schedule s0)) = []
         /\ exists rest, errors (trace (run u C key schedule s0)) = e :: rest
       end.
Proof.
  intros Hc Hf Hstart schedule.
  destruct (start_cases _ _ _ _ _ C s0 Hc Hf Hstart) as [[Hplan ->]| ->];
    [|rewrite run_idle; now cbn].
  pose proof (reachable_Invariant u C key Hplan schedule) as Hs.
  set (s := run u C key schedule _) in *.
  split; [exact (oc_errors _ (inv_outcome _ _ _ _ Hs))|].
  destruct (successes (trace s)) as [|a l] eqn:Es.
  - rewrite (oc_promise _ (inv_outcome _ _ _ _ Hs)). unfold first_settlement.
    rewrite settlement_of_errors by exact Es.
    destruct (errors (trace s)) as [|e rest]; [now split|]. split; [reflexivity|now exists rest].
  - assert (Hall : forallb returned (jobs s) = true)
      by (apply (success_all_returned u C key s Hplan Hs); rewrite Es; discriminate).
    destruct (returned_resolves u C key Hplan s Hs Hall) as (-> & Hsuc & Herr).
    rewrite <- Es. now split.
Qed.

(** The upload of 10 bytes in blocks of 4 when block 1 cannot be read:
    [promise_follows_callbacks] applies; [onError] has been called once and
    the promise is rejected with its argument. *)
Lemma promise_follows_callbacks_example :
  example_new 10 (VNumber 4) = Ok (example_upload 10 4)
  /\ exists s0,
      start (example_upload 10 4) failing_collaborators = Some s0
      /\ promise (run (example_upload 10 4) failing_collaborators VUndefined
                      failing_schedule s0) = Rejected "read failed"
      /\ length (errors (trace (run (example_upload 10 4) failing_collaborators VUndefined
                                    failing_schedule s0))) = 1%nat.
Proof.
  split; [reflexivity|].
  exists (loop_state (example_upload 10 4) failing_collaborators 3 3).
  split; [vm_compute; reflexivity|].
  destruct (promise_follows_callbacks browser (VString "https://blob/a")
              (VFile "a.bin" 10 "application/octet-stream") (example_opts (VNumber 4))
              (example_upload 10 4) failing_collaborators VUndefined
              (loop_state (example_upload 10 4) failing_collaborators 3 3)
              eq_refl ltac:(cbn; lia) ltac:(vm_compute; reflexivity) failing_schedule)
    as (Hlen & _).
  split; [vm_compute; reflexivity|]. rewrite Hlen. vm_compute. reflexivity.
Defined.

(** ** A second call of [start] *)

Section SecondStart.

Variable this : AzureBlockUpload.
Variable C : Collaborators.
Variable dataEncryptionKey : value.

Hypothesis Hzero : totalRemainingBytes this = 0.
Hypothesis Hsize : 0 <= blockSize this.

Ltac invert_step H :=
  inversion H; subst; clear H;
  try match goal with
      | HT : Throws _ _ _ _ _ _ _ _ _ |- _ => inversion HT; subst; clear HT
      end;
  try match goal with
      | HE : Encrypted _ _ _ _ _ _ _ _ |- _ => inversion HE; subst; clear HE
      end.

Lemma Step_Restarted (k : nat) (s s' : State) :
  Structure this k s -> Restarted s -> Step this C dataEncryptionKey s s' -> Restarted s'.
Proof.
  intros Hs [Hz Hcall] Hstep. invert_step Hstep.
  1: destruct (queue_head this k s _ _ Hs H) as (-> & Hlt & -> & Hj).
  all: try lia.
  all: split; cbn [remainingBytes jobs trace]; [assumption || reflexivity|].
  all: autorewrite with trace_readings; unfold progress_event;
    cbn [commit_callers flat_map app]; rewrite ?app_nil_r.
  all: match goal with
       | Hj : jobs _ !! ?n = Some _ |- forall m, In m (commit_callers _ ++ [?n]) <-> _ =>
         eapply phase_list_step; [exact Hj | exact Hcall | right; now split]
       | Hj : jobs _ !! ?n = Some _ |- forall m, In m (commit_callers ?t) <-> _ =>
         intros m; rewrite <- (app_nil_r (commit_callers t)); revert m;
         eapply phase_list_step; [exact Hj | exact Hcall | left; now split]
       end.
Qed.

Lemma run_Restarted (k : nat) (schedule : list Action) (s : State) :
  Structure this k s -> Restarted s ->
  Structure this k (run this C dataEncryptionKey schedule s)
  /\ Restarted (run this C dataEncryptionKey schedule s).
Proof.
  revert s. induction schedule as [|a schedule IH]; intros s Hs Hr; [now split|].
  cbn [run fold_left].
  destruct (step_Step this C dataEncryptionKey a s) as [->|Hstep]; [now apply IH|].
  apply IH; [exact (Step_Structure this C dataEncryptionKey k s _ Hs Hstep)|].
  exact (Step_Restarted k s _ Hs Hr Hstep).
Qed.

Lemma start_Restarted (k : nat) : Restarted (loop_state this C k k).
Proof.
  split; [exact Hzero|]. intros n.
  destruct (loop_state_reads this C k k) as (_ & _ & -> & _).
  split; [intros []|]. intros (p & Hp & Hd). rewrite loop_state_lookup in Hp.
  destruct (n <? slots this k)%nat; [injection Hp as <-; discriminate Hd|].
  destruct (n <? k)%nat; [injection Hp as <-; discriminate Hd|discriminate Hp].
Qed.

End SecondStart.

(** X17.  [start] cannot be called a second time on the same object: after
    an upload in which every block was transferred, [totalRemainingBytes] is
    zero and is not set back, so in a second run every job whose [putBlock]
    succeeds calls [putBlockList], the first of them before the other blocks
    have been put. *)
Theorem second_start_commits_at_every_put
    (P : Platform) (url_ file_ : value) (opts : Opts) (u : AzureBlockUpload)
    (C : Collaborators) (key : value) (s0 : State) (tb : Z) :
  constructor P url_ file_ opts = Ok u -> 0 <= fileSize u ->
  totalBlocks u = Fin tb -> 0 < tb ->
  start u C = Some s0 ->
  forall schedule,
    forallb transferred (jobs (run u C key schedule s0)) = true ->
    totalRemainingBytes (after_run u (run u C key schedule s0)) = 0
    /\ forall C' key',
        exists s0',
          start (after_run u (run u C key schedule s0)) C' = Some s0'
          /\ forall schedule' n,
              In n (commit_callers
                      (trace (run (after_run u (run u C key schedule s0)) C' key'
                                  schedule' s0')))
              <-> exists p,
                  jobs (run (after_run u (run u C key schedule s0)) C' key' schedule' s0')
                  !! n = Some p
                  /\ decremented p = true.
Proof.
  intros Hc Hf Htb Hpos Hstart schedule Hall.
  pose proof (blocks_planned _ _ _ _ _ _ Hc Hf Htb Hpos) as Hplan.
  rewrite (start_planned u C Hplan) in Hstart. injection Hstart as <-.
  pose proof (reachable_Invariant u C key Hplan schedule) as Hs.
  destruct (transferred_commits u C key Hplan _ Hs Hall) as (Hz & _).
  set (u2 := after_run u _) in *.
  split; [exact Hz|]. intros C' key'.
  exists (loop_state u2 C' (Z.to_nat tb) (Z.to_nat tb)).
  split; [now apply start_state|].
  intros schedule' n.
  assert (Hsize : 0 <= blockSize u2)
    by (pose proof (planned_blockSize u Hplan); cbn; lia).
  destruct (run_Restarted u2 C' key' Hsize (Z.to_nat tb) schedule'
              (loop_state u2 C' (Z.to_nat tb) (Z.to_nat tb))
              (start_Structure u2 C' (Z.to_nat tb))
              (start_Restarted u2 C' Hz (Z.to_nat tb))) as (_ & _ & Hcall).
  apply Hcall.
Qed.

(** The upload of 10 bytes in blocks of 4, started again after it has
    succeeded: [second_start_commits_at_every_put] applies; in the second
    run block 0 calls [putBlockList] as soon as it is put, with the
    identifiers of blocks 0 and 1 only. *)
Lemma second_start_commits_at_every_put_example :
  example_new 10 (VNumber 4) = Ok (example_upload 10 4)
  /\ exists s0 s0',
      start (example_upload 10 4) example_collaborators = Some s0
      /\ start (after_run (example_upload 10 4)
                  (run (example_upload 10 4) example_collaborators VUndefined
                       example_schedule s0)) example_collaborators = Some s0'
      /\ committed_lists
           (trace (run (after_run (example_upload 10 4)
                          (run (example_upload 10 4) example_collaborators VUndefined
                               example_schedule s0))
                       example_collaborators VUndefined [Settle 0; Settle 0]%nat s0'))
         = [[base64 "block    0"; base64 "block    1"]]
      /\ In 0%nat
           (commit_callers
              (trace (run (after_run (example_upload 10 4)
                             (run (example_upload 10 4) example_collaborators VUndefined
                                  example_schedule s0))
                          example_collaborators VUndefined [Settle 0; Settle 0]%nat s0'))).
Proof.
  split; [reflexivity|].
  exists (loop_state (example_upload 10 4) example_collaborators 3 3).
  destruct (second_start_commits_at_every_put browser (VString "https://blob/a")
              (VFile "a.bin" 10 "application/octet-stream") (example_opts (VNumber 4))
              (example_upload 10 4) example_collaborators VUndefined
              (loop_state (example_upload 10 4) example_collaborators 3 3) 3
              eq_refl ltac:(cbn; lia) eq_refl ltac:(lia) ltac:(vm_compute; reflexivity)
              example_schedule ltac:(vm_compute; reflexivity))
    as (_ & Hsecond).
  destruct (Hsecond example_collaborators VUndefined) as (s0' & Hs0' & Hcall).
  exists s0'. split; [vm_compute; reflexivity|]. split; [exact Hs0'|].
  split.
  - vm_compute in Hs0'. injection Hs0' as <-. vm_compute. reflexivity.
  - apply Hcall. exists (AwaitCommit (Ok tt)).
    vm_compute in Hs0'. injection Hs0' as <-. split; vm_compute; reflexivity.
Defined.

(** ** A block that fails *)

Section Failed.

Variable this : AzureBlockUpload.
Variable C : Collaborators.
Variable dataEncryptionKey : value.

Abbreviation step_ := (step this C dataEncryptionKey).
Abbreviation run_ := (run this C dataEncryptionKey).
Abbreviation Step_ := (Step this C dataEncryptionKey).
Abbreviation Invariant_ := (Invariant this C dataEncryptionKey).
Abbreviation Thrown_ := (Thrown this C dataEncryptionKey).
Abbreviation failure_of_ := (failure_of this C dataEncryptionKey).

Ltac invert_step H :=
  inversion H; subst; clear H;
  try match goal with
      | HT : Throws _ _ _ _ _ _ _ _ _ |- _ => inversion HT; subst; clear HT
      end;
  try match goal with
      | HE : Encrypted _ _ _ _ _ _ _ _ |- _ => inversion HE; subst; clear HE
      end.

(** The operations that fail before the decrement. *)
Lemma failure_stage (n : nat) (stage : Stage) (error : Error) :
  failure_of_ n = Some (stage, error) ->
  block_failed (Caught stage error) = true /\ stage <> AtCommit.
Proof.
  unfold failure_of. intros H.
  repeat match type of H with
         | match ?x with _ => _ end = _ => destruct x
         | (if ?x then _ else _) = _ => destruct x
         | (let '(_, _) := ?x in _) = _ => destruct x
         end; try discriminate H; injection H as <- <-; now split.
Qed.

Lemma Step_Thrown (s s' : State) :
  Consistent this C dataEncryptionKey s -> Thrown_ s -> Step_ s s' -> Thrown_ s'.
Proof.
  intros Hc Ht Hstep. invert_step Hstep.
  all: try match goal with
           | Hj : jobs _ !! _ = Some _ |- _ =>
             pose proof (Hc _ _ Hj) as Hcons; cbn [phase_consistent] in Hcons;
             pose proof (Ht _ _ Hj) as Hold; cbn beta iota in Hold
           end.
  all: intros i p' Hi; cbn [jobs] in Hi;
    apply list_lookup_insert_Some in Hi as [(<- & <- & _)|(Hne & Hi)];
    [|exact (Ht _ _ Hi)]; try exact I; try exact Hold.
  all: unfold failure_of; try rewrite <- Hcons;
    repeat match goal with
           | Hk : truthy dataEncryptionKey = _ |- _ => rewrite Hk
           | He : encryptWithKeyUsingArtefacts _ _ _ _ = _ |- _ => rewrite He
           end; try reflexivity.
  all: destruct Hcons as (payload & Hp & Hput); unfold payload_of in Hp;
    repeat match type of Hp with
           | match ?x with _ => _ end = _ => destruct x
           | (if ?x then _ else _) = _ => destruct x
           end; try discriminate Hp; injection Hp as ->;
    first [ now rewrite <- Hput | now rewrite Hput ].
Qed.

Hypothesis Hplan : planned this.

Let k := planned_jobs this.

Lemma start_Thrown : Thrown_ (loop_state this C k k).
Proof.
  intros n p. rewrite loop_state_lookup.
  destruct (n <? slots this k)%nat; [now intros [= <-]|].
  destruct (n <? k)%nat; [now intros [= <-]|discriminate].
Qed.

Lemma run_Thrown (schedule : list Action) (s : State) :
  Invariant_ s -> Thrown_ s -> Thrown_ (run_ schedule s).
Proof.
  revert s. induction schedule as [|a schedule IH]; intros s Hs Ht; [exact Ht|].
  cbn [run fold_left]. apply IH; [now apply step_Invariant|].
  destruct (step_Step this C dataEncryptionKey a s) as [->|Hstep]; [exact Ht|].
  exact (Step_Thrown s _ (inv_consistent _ _ _ _ Hs) Ht Hstep).
Qed.

Lemma reachable_Thrown (schedule : list Action) :
  Thrown_ (run_ schedule (loop_state this C k k)).
Proof. apply run_Thrown; [now apply start_Invariant|apply start_Thrown]. Qed.

(** A job whose block fails does not come to its decrement, and when it is
    over it was left through [catch] with the error of the call that
    failed. *)
Lemma failing_job (s : State) (n : nat) (p : Phase) (stage : Stage) (error : Error) :
  Thrown_ s -> jobs s !! n = Some p -> failure_of_ n = Some (stage, error) ->
  decremented p = false /\ (settled p = true -> p = Caught stage error).
Proof.
  intros Ht Hn Hf. specialize (Ht n p Hn). rewrite Hf in Ht.
  destruct p as [| | | | |[] e]; try discriminate Ht; split; try easy;
    intros _; now injection Ht as <- <-.
Qed.

(** While a job has not come to its decrement, nothing is committed and
    nothing has succeeded, and the promise is pending or rejected with the
    first error. *)
Lemma undecremented_pending (s : State) (n : nat) (p : Phase) :
  Invariant_ s -> jobs s !! n = Some p -> decremented p = false ->
  successes (trace s) = []
  /\ commit_callers (trace s) = []
  /\ promise s = match errors (trace s) with [] => Pending | e :: _ => Rejected e end.
Proof.
  intros Hs Hn Hnd.
  destruct (not_decremented_positive this Hplan s n p (inv_structure _ _ _ _ Hs)
              (inv_counters _ _ _ _ Hs) Hn Hnd) as (_ & _ & Hpos).
  assert (Hsucc : successes (trace s) = []).
  { destruct (successes (trace s)) as [|a l] eqn:E; [reflexivity|].
    destruct (ct_successes _ _ _ (inv_counters _ _ _ _ Hs) a) as [_ Hz];
      [rewrite E; now left|lia]. }
  pose proof (ct_callers _ _ _ (inv_counters _ _ _ _ Hs)) as Hcall.
  destruct (Z.eqb_spec (remainingBytes s) 0) as [Ez|_]; [lia|].
  split; [exact Hsucc|]. split; [exact Hcall|].
  rewrite (oc_promise _ (inv_outcome _ _ _ _ Hs)). unfold first_settlement.
  now rewrite settlement_of_errors by exact Hsucc.
Qed.

End Failed.

(** The constructor returns only when it has an object to read its options
    from. *)
Lemma constructor_fields (P : Platform) (url_ file_ : value) (opts : OptsArgument)
    (u : AzureBlockUpload) :
  constructor P url_ file_ opts = Ok u ->
  exists o : Opts, opts_fields opts = Some o /\ constructor P url_ file_ o = Ok u.
Proof.
  destruct opts as [| |o]; intros H.
  - exists empty_opts. now split.
  - exfalso. unfold constructor in H. cbn [opts_fields] in H.
    destruct url_; try discriminate H.
    repeat match type of H with (if ?c then _ else _) = _ => destruct c end;
      discriminate H.
  - exists o. now split.
Qed.

(** What the failure of a block does to an upload with jobs, where the
    identifiers are computed. *)
Lemma failing_block (u : AzureBlockUpload) (C : Collaborators) (key : value) :
  planned u ->
  forall schedule n stage error,
    ((n < planned_jobs u)%nat ->
     failure_of u C key n = Some (stage, error) ->
     successes (trace (run u C key schedule
                           (loop_state u C (planned_jobs u) (planned_jobs u)))) = []
     /\ commit_callers (trace (run u C key schedule
                                  (loop_state u C (planned_jobs u) (planned_jobs u)))) = []
     /\ (forall p, jobs (run u C key schedule
                             (loop_state u C (planned_jobs u) (planned_jobs u))) !! n
                   = Some p ->
                   settled p = true -> p = Caught stage error)
     /\ (0 < simultaneousUploads u ->
         exists rest first others,
           jobs (run u C key (schedule ++ rest)
                     (loop_state u C (planned_jobs u) (planned_jobs u))) !! n
           = Some (Caught stage error)
           /\ errors (trace (run u C key (schedule ++ rest)
                                 (loop_state u C (planned_jobs u) (planned_jobs u))))
              = first :: others
           /\ In error (first :: others)
           /\ promise (run u C key (schedule ++ rest)
                           (loop_state u C (planned_jobs u) (planned_jobs u)))
              = Rejected first))
    /\ (jobs (run u C key schedule
                  (loop_state u C (planned_jobs u) (planned_jobs u))) !! n
        = Some (Caught stage error) ->
        stage <> AtCommit ->
        failure_of u C key n = Some (stage, error)
        /\ In error (errors (trace (run u C key schedule
                                        (loop_state u C (planned_jobs u) (planned_jobs u)))))
        /\ exists first rest,
            errors (trace (run u C key schedule
                               (loop_state u C (planned_jobs u) (planned_jobs u))))
            = first :: rest
            /\ promise (run u C key schedule
                            (loop_state u C (planned_jobs u) (planned_jobs u)))
               = Rejected first
            /\ forall later,
                promise (run u C key (schedule ++ later)
                             (loop_state u C (planned_jobs u) (planned_jobs u)))
                = Rejected first
                /\ successes (trace (run u C key (schedule ++ later)
                                         (loop_state u C (planned_jobs u) (planned_jobs u))))
                   = []
                /\ commit_callers
                     (trace (run u C key (schedule ++ later)
                                 (loop_state u C (planned_jobs u) (planned_jobs u))))
                   = []).
Proof.
  intros Hplan schedule n stage error.
  set (s0 := loop_state u C (planned_jobs u) (planned_jobs u)) in *.
  assert (Hreach : forall l, Invariant u C key (run u C key l s0)
                             /\ Thrown u C key (run u C key l s0)).
  { intros l. split; [apply (reachable_Invariant u C key Hplan)
                     |apply (reachable_Thrown u C key Hplan)]. }
  assert (Hcaught : forall l, jobs (run u C key l s0) !! n = Some (Caught stage error) ->
            block_failed (Caught stage error) = true ->
            In error (errors (trace (run u C key l s0)))
            /\ exists first rest,
                errors (trace (run u C key l s0)) = first :: rest
                /\ promise (run u C key l s0) = Rejected first
                /\ forall later,
                    promise (run u C key (l ++ later) s0) = Rejected first
                    /\ successes (trace (run u C key (l ++ later) s0)) = []
                    /\ commit_callers (trace (run u C key (l ++ later) s0)) = []).
  { intros l Hn Hfail. destruct (Hreach l) as [Hs _].
    split; [exact (oc_caught _ (inv_outcome _ _ _ _ Hs) _ _ _ Hn)|].
    destruct (failed_block u C key Hplan _ n _ Hs Hn Hfail)
      as (_ & _ & _ & first & rest & He & Hp).
    exists first, rest. split; [exact He|]. split; [exact Hp|].
    intros later. destruct (Hreach (l ++ later)) as [Hs' _].
    assert (Hn' : jobs (run u C key (l ++ later) s0) !! n = Some (Caught stage error))
      by (rewrite run_app; now apply (run_settled_persists u C key Hplan)).
    destruct (failed_block u C key Hplan _ n _ Hs' Hn' Hfail)
      as (_ & Hsucc & Hcall & first' & rest' & He' & Hp').
    split; [|now split].
    rewrite Hp'. f_equal.
    destruct (run_grows u C key later (run u C key l s0)) as [[t Ht] _].
    rewrite run_app, Ht, errors_app, He in He'. now injection He' as ->. }
  split.
  - intros Hn Hfail. destruct (Hreach schedule) as [Hs Ht].
    destruct (lookup_lt_is_Some_2 (jobs (run u C key schedule s0)) n) as [p Hp];
      [now rewrite (st_jobs _ _ _ (inv_structure _ _ _ _ Hs))|].
    destruct (failing_job u C key _ n p stage error Ht Hp Hfail) as [Hnd Hover].
    destruct (undecremented_pending u C key Hplan _ n p Hs Hp Hnd) as (Hsucc & Hcall & _).
    split; [exact Hsucc|]. split; [exact Hcall|]. split.
    + intros p' Hp' Hset. rewrite Hp in Hp'. injection Hp' as <-. now apply Hover.
    + intros Hpool.
      destruct (completion u C key Hplan Hpool _ Hs) as [rest Hrest].
      rewrite <- run_app in Hrest.
      destruct (Hreach (schedule ++ rest)) as [Hs' Ht'].
      destruct (lookup_lt_is_Some_2 (jobs (run u C key (schedule ++ rest) s0)) n)
        as [q Hq]; [now rewrite (st_jobs _ _ _ (inv_structure _ _ _ _ Hs'))|].
      pose proof (forallb_lookup _ _ _ _ Hrest Hq) as Hset.
      destruct (failing_job u C key _ n q stage error Ht' Hq Hfail) as [_ Hover'].
      rewrite (Hover' Hset) in Hq.
      destruct (Hcaught (schedule ++ rest) Hq
                  (proj1 (failure_stage u C key n stage error Hfail)))
        as (Hin & first & others & He & Hprom & _).
      exists rest, first, others. rewrite <- He. now repeat split.
  - intros Hn Hstage. destruct (Hreach schedule) as [Hs Ht].
    assert (Hfail : block_failed (Caught stage error) = true)
      by (now destruct stage).
    split; [|now apply Hcaught].
    specialize (Ht n _ Hn). cbn beta iota in Ht. now destruct stage.
Qed.

(** ** The identifier on either platform *)

Lemma all_ascii_append (a b : string) :
  all_ascii (a +:+ b) = all_ascii a && all_ascii b.
Proof.
  induction a as [|c a IH]; [reflexivity|].
  change (String c a +:+ b) with (String c (a +:+ b)). cbn [all_ascii].
  now rewrite IH, andb_assoc.
Qed.

Lemma all_ascii_spaces (k : nat) : all_ascii (spaces k) = true.
Proof. induction k as [|k IH]; [reflexivity|exact IH]. Qed.

Lemma all_ascii_string_of_nat (n : nat) : all_ascii (string_of_nat n) = true.
Proof.
  unfold string_of_nat.
  assert (G : forall d, all_ascii (NilEmpty.string_of_uint d) = true)
    by (induction d; cbn; auto).
  destruct (Nat.to_uint n); try reflexivity; apply G.
Qed.

Lemma all_ascii_padStart (n k : nat) : all_ascii (padStart (string_of_nat n) k) = true.
Proof.
  unfold padStart. destruct (_ <? _)%nat; [|apply all_ascii_string_of_nat].
  now rewrite all_ascii_append, all_ascii_spaces, all_ascii_string_of_nat.
Qed.

Lemma ascii_not_continuation (a : ascii) : is_ascii a = true -> is_continuation a = false.
Proof. destruct a as [? ? ? ? ? ? ? []]; [discriminate|reflexivity]. Qed.

(** [window.btoa] takes an ASCII string as it is held. *)
Lemma latin1_ascii (str : string) : all_ascii str = true -> latin1 str = Some str.
Proof.
  induction str as [|a str IH]; [reflexivity|]. cbn [all_ascii latin1].
  intros [Ha Hs]%andb_true_iff. now rewrite Ha, IH.
Qed.

Lemma latin1_unfold (a : ascii) (rest : string) :
  latin1 (String a rest)
  = if is_ascii a then String a <$> latin1 rest
    else
      match rest with
      | String b rest' =>
        if is_continuation b then
          if Ascii.eqb a "194" then String b <$> latin1 rest'
          else if Ascii.eqb a "195" then String (high_latin1 b) <$> latin1 rest'
          else None
        else None
      | EmptyString => None
      end.
Proof. reflexivity. Qed.

(** An ASCII string put after a string is put after its bytes, and
    [window.btoa] throws on the whole when it throws on the first part. *)
Lemma latin1_append (a b : string) :
  all_ascii b = true -> latin1 (a +:+ b) = (fun bytes => bytes +:+ b) <$> latin1 a.
Proof.
  intros Hb.
  assert (G : latin1 (a +:+ b) = (fun bytes => bytes +:+ b) <$> latin1 a
              /\ forall c, latin1 (String c a +:+ b)
                           = (fun bytes => bytes +:+ b) <$> latin1 (String c a)).
  { induction a as [|d a [IH1 IH2]].
    - split; [cbn; now apply latin1_ascii|].
      intros c. change (String c "" +:+ b) with (String c b). cbn [latin1].
      rewrite (latin1_ascii b Hb).
      destruct (is_ascii c); [reflexivity|].
      destruct b as [|b0 b]; [reflexivity|].
      cbn [all_ascii] in Hb. apply andb_true_iff in Hb as [Hb0 _].
      now rewrite (ascii_not_continuation b0 Hb0).
    - split; [apply IH2|].
      intros c. change (String c (String d a) +:+ b) with (String c (String d a +:+ b)).
      rewrite !(latin1_unfold c).
      change (String d a +:+ b) with (String d (a +:+ b)) at 2.
      destruct (is_ascii c).
      + rewrite IH2. now destruct (latin1 (String d a)).
      + destruct (is_continuation d); [|reflexivity].
        destruct (Ascii.eqb c "194"); [rewrite IH1; now destruct (latin1 a)|].
        destruct (Ascii.eqb c "195"); [rewrite IH1; now destruct (latin1 a)|reflexivity]. }
  apply G.
Qed.

(** The identifier [base64] computes is that of the upload whose prefix is
    held as the bytes encoded, and [base64] throws for every block of an
    upload that has none. *)
Lemma blockID_encoded (isRunningOnWeb : bool) (u : AzureBlockUpload) (n : nat) :
  App.blockID isRunningOnWeb u n
  = match App.encoded isRunningOnWeb u with
    | Some u' => Ok (blockID u' n)
    | None => Err (App.blockID_error u)
    end.
Proof.
  unfold App.blockID, App.base64, App.encoded, App.blockID_error, btoa.
  destruct (to_string (blockIDPrefix u)) as [prefix|error] eqn:Hp; [|reflexivity].
  destruct isRunningOnWeb.
  - rewrite latin1_append by apply all_ascii_padStart.
    now destruct (latin1 prefix).
  - unfold blockID, string_form. now rewrite Hp.
Qed.

(** The computation of an identifier throws in the conversion of the prefix
    to a string, or in the browser in [window.btoa]. *)
Lemma blockID_error_cause (isRunningOnWeb : bool) (u : AzureBlockUpload) :
  App.encoded isRunningOnWeb u = None ->
  to_string (blockIDPrefix u) = Err (App.blockID_error u)
  \/ (isRunningOnWeb = true /\ App.blockID_error u = InvalidCharacterError
      /\ exists prefix, to_string (blockIDPrefix u) = Ok prefix /\ latin1 prefix = None).
Proof.
  unfold App.encoded, App.blockID_error.
  destruct (to_string (blockIDPrefix u)) as [prefix|error]; [|now left].
  destruct isRunningOnWeb; [|discriminate].
  destruct (latin1 prefix) eqn:E; [discriminate|]. right. eauto.
Qed.

Lemma padStart_spaces (str : string) (k : nat) :
  padStart str k = spaces (k - String.length str) +:+ str.
Proof.
  unfold padStart. destruct (Nat.ltb_spec (String.length str) k); [reflexivity|].
  now replace (k - String.length str)%nat with 0%nat by lia.
Qed.

(** C4 (as amended: the index is padded with spaces, not with zeros).  The
    identifier of block [n] is the base64 encoding of the prefix followed by
    the decimal index, which is padded on the left with spaces when it has
    fewer than 5 digits; for [n <= 99999] the padded index has exactly 5
    characters; and the identifiers of distinct blocks are distinct.  This
    is the identifier outside the browser.  In the browser it is the
    encoding of the same string with one byte for each character, distinct
    for distinct blocks as well, when the prefix has no character above
    U+00FF, and [window.btoa] throws when it has one.  On either platform
    there is no identifier when the conversion of the prefix to a string
    throws. *)
Theorem blockID_space_padded (u : AzureBlockUpload) (n : nat) :
  (forall prefix,
      to_string (blockIDPrefix u) = Ok prefix ->
      blockID u n
      = base64 (prefix +:+ spaces (5 - String.length (string_of_nat n)) +:+ string_of_nat n)
      /\ App.blockID false u n = Ok (blockID u n)
      /\ (forall bytes, latin1 prefix = Some bytes ->
            App.blockID true u n
            = Ok (base64 (bytes +:+ spaces (5 - String.length (string_of_nat n))
                          +:+ string_of_nat n))
            /\ forall m : nat, m <> n -> App.blockID true u m <> App.blockID true u n)
      /\ (latin1 prefix = None -> App.blockID true u n = Err InvalidCharacterError))
  /\ (forall error,
        to_string (blockIDPrefix u) = Err error ->
        forall isRunningOnWeb, App.blockID isRunningOnWeb u n = Err error)
  /\ (Z.of_nat n <= 99999 ->
      String.length (spaces (5 - String.length (string_of_nat n)) +:+ string_of_nat n)
      = 5%nat)
  /\ (forall m : nat, m <> n -> blockID u m <> blockID u n).
Proof.
  split; [|split; [|split]].
  - intros prefix Hp.
    assert (Hid : forall v, to_string (blockIDPrefix v) = Ok prefix ->
                    blockID v n
                    = base64 (prefix +:+ spaces (5 - String.length (string_of_nat n))
                              +:+ string_of_nat n))
      by (intros v Hv; unfold blockID, string_form; now rewrite Hv, padStart_spaces).
    split; [now apply Hid|].
    split; [rewrite blockID_encoded; unfold App.encoded; now rewrite Hp|].
    split.
    + intros bytes Hb.
      assert (E : forall m, App.blockID true u m
                            = Ok (blockID (with_blockIDPrefix (VString bytes) u) m)).
      { intros m. rewrite blockID_encoded. unfold App.encoded. now rewrite Hp, Hb. }
      split; [rewrite E; unfold blockID, string_form; cbn; now rewrite padStart_spaces|].
      intros m Hm H. rewrite !E in H. injection H as H.
      apply Hm. now apply blockID_inj in H.
    + intros Hb. rewrite blockID_encoded. unfold App.encoded, App.blockID_error.
      now rewrite Hp, Hb.
  - intros error He b. unfold App.blockID. now rewrite He.
  - intros Hn.
    assert (L : (String.length (string_of_nat n) <= 5)%nat)
      by (apply length_string_of_nat; [lia|]; change (10 ^ Z.of_nat 5) with 100000; lia).
    rewrite length_append, length_spaces. lia.
  - intros m Hm H. apply Hm. now apply (blockID_inj u).
Qed.

(** Block 7 of an upload with the default prefix: ["block    7"] in base64,
    in the browser and outside it. *)
Lemma blockID_space_padded_example :
  Z.of_nat 7 <= 99999
  /\ blockID (example_upload 10 4) 7 = base64 "block    7"
  /\ App.blockID true (example_upload 10 4) 7 = Ok (base64 "block    7")
  /\ blockID (example_upload 10 4) 8 <> blockID (example_upload 10 4) 7
  /\ App.blockID false symbol_upload 7 = Err symbol_error.
Proof.
  destruct (blockID_space_padded (example_upload 10 4) 7) as (Hok & _ & _ & Hd).
  destruct (Hok "block" eq_refl) as (_ & _ & Hweb & _).
  split; [lia|]. split; [reflexivity|].
  split; [exact (proj1 (Hweb "block" eq_refl))|]. split; [apply Hd; discriminate|].
  destruct (blockID_space_padded symbol_upload 7) as (_ & Herr & _).
  exact (Herr symbol_error eq_refl false).
Defined.

(** C4, the claim as it was stated: the identifier of block 0 is the
    encoding of ["block    0"], not of the zero-padded ["block00000"]; and
    there is no identifier in the browser for a prefix that holds U+0100,
    nor on either platform for a symbol. *)
Lemma blockID_is_not_zero_padded :
  zero_padded5 0 = "00000"
  /\ blockID (example_upload 10 4) 0 = "YmxvY2sgICAgMA=="
  /\ to_string (blockIDPrefix (example_upload 10 4)) = Ok "block"
  /\ base64 ("block" +:+ zero_padded5 0) = "YmxvY2swMDAwMA=="
  /\ blockID (example_upload 10 4) 0 <> base64 ("block" +:+ zero_padded5 0)
  /\ App.blockID false (example_upload 10 4) 0 = Ok "YmxvY2sgICAgMA=="
  /\ App.blockID true (example_upload 10 4) 0 = Ok "YmxvY2sgICAgMA=="
  /\ App.blockID true (web_upload prefix_beyond) 0 = Err InvalidCharacterError
  /\ App.blockID false symbol_upload 0 = Err symbol_error.
Proof.
  repeat split; try reflexivity. vm_compute. discriminate.
Qed.

(** ** The checks of the constructor *)

(** C9 (as amended).  The constructor checks the types of its arguments and
    nothing else.  Given a string [url], a [file] of the kind the platform
    expects, options that are not [null], and a [blockSize] and a
    [simultaneousUploads] that are numbers when they are truthy, it returns
    an upload whatever the file size and the block size are: a block size
    of 0 is replaced by [BlobStorage.BLOCK_MAX_SIZE], any other, negative
    ones too, is kept, and either is lowered to the file size when the file
    is smaller.  An argument that fails its check makes it throw, at once
    and before [analizeFile] is called. *)
Theorem constructor_checks_types_only
    (P : Platform) (url_ file_ : value) (opts : OptsArgument) :
  (forall o : Opts,
      opts_fields opts = Some o ->
      typeof url_ = TString ->
      (if File_is_function P then instanceof_File file_ = true
       else typeof file_ = TString) ->
      (truthy (opt_blockSize o) = true -> typeof (opt_blockSize o) = TNumber) ->
      (truthy (opt_simultaneousUploads o) = true ->
       typeof (opt_simultaneousUploads o) = TNumber) ->
      exists u,
        constructor P url_ file_ opts = Ok u
        /\ fileSize u = getSize P file_
        /\ blockSize u
           = (if getSize P file_ <? number_or (opt_blockSize o) (BLOCK_MAX_SIZE P)
              then getSize P file_
              else number_or (opt_blockSize o) (BLOCK_MAX_SIZE P))
        /\ forall b : Z, opt_blockSize o = VNumber b ->
             number_or (opt_blockSize o) (BLOCK_MAX_SIZE P)
             = if b =? 0 then BLOCK_MAX_SIZE P else b)
  /\ (typeof url_ <> TString ->
      constructor P url_ file_ opts = Err "url must be a string")
  /\ (typeof url_ = TString ->
      (File_is_function P = true -> instanceof_File file_ = false ->
       constructor P url_ file_ opts = Err "file must be instance of File")
      /\ (File_is_function P = false -> typeof file_ <> TString ->
          constructor P url_ file_ opts = Err "file must be instance of string")
      /\ ((if File_is_function P then instanceof_File file_ = true
           else typeof file_ = TString) ->
          (opts = opts_null -> constructor P url_ file_ opts = Err null_opts_error)
          /\ forall o : Opts,
              opts_fields opts = Some o ->
              (truthy (opt_blockSize o) = true ->
               typeof (opt_blockSize o) <> TNumber ->
               constructor P url_ file_ opts = Err "blockSize must be a number")
              /\ ((truthy (opt_blockSize o) = true ->
                   typeof (opt_blockSize o) = TNumber) ->
                  truthy (opt_simultaneousUploads o) = true ->
                  typeof (opt_simultaneousUploads o) <> TNumber ->
                  constructor P url_ file_ opts
                  = Err "simultaneousUploads must be a number"))).
Proof.
  assert (Hne : forall t, t <> TNumber -> jstype_eqb t TNumber = false)
    by (intros t Ht; destruct (jstype_eqb t TNumber) eqn:E; [|reflexivity];
        now apply jstype_eqb_eq in E).
  assert (Hns : forall t, t <> TString -> jstype_eqb t TString = false)
    by (intros t Ht; destruct (jstype_eqb t TString) eqn:E; [|reflexivity];
        now apply jstype_eqb_eq in E).
  assert (Hfile : (if File_is_function P then instanceof_File file_ = true
                   else typeof file_ = TString) ->
                  File_is_function P && negb (instanceof_File file_) = false
                  /\ negb (File_is_function P) && negb (jstype_eqb (typeof file_) TString)
                     = false).
  { destruct (File_is_function P); intros ->; now split. }
  split; [|split; [|intros Hurl; split; [|split]]].
  - intros o Ho Hurl Hf Hb Hs. unfold constructor. rewrite Ho.
    destruct url_; try discriminate Hurl.
    destruct (Hfile Hf) as [-> ->].
    assert (Eb : truthy (opt_blockSize o)
                 && negb (jstype_eqb (typeof (opt_blockSize o)) TNumber) = false)
      by (destruct (truthy (opt_blockSize o)); [now rewrite Hb|reflexivity]).
    assert (Es : truthy (opt_simultaneousUploads o)
                 && negb (jstype_eqb (typeof (opt_simultaneousUploads o)) TNumber) = false)
      by (destruct (truthy (opt_simultaneousUploads o)); [now rewrite Hs|reflexivity]).
    rewrite Eb, Es. eexists. split; [reflexivity|]. cbn.
    split; [reflexivity|]. split; [reflexivity|].
    intros b ->. unfold number_or, js_or. cbn. now destruct (b =? 0).
  - intros Hurl. unfold constructor. now destruct url_.
  - intros HF Hf. unfold constructor. destruct url_; try discriminate Hurl.
    now rewrite HF, Hf.
  - intros HF Hf. unfold constructor. destruct url_; try discriminate Hurl.
    now rewrite HF, (Hns _ Hf).
  - intros Hf. destruct (Hfile Hf) as [E1 E2]. split.
    + intros ->. unfold constructor. destruct url_; try discriminate Hurl.
      now rewrite E1, E2.
    + intros o Ho. unfold constructor. rewrite Ho.
      destruct url_; try discriminate Hurl. rewrite E1, E2. split.
      * intros Hb Ht. now rewrite Hb, (Hne _ Ht).
      * intros Hb Hs Ht.
        assert (Eb : truthy (opt_blockSize o)
                     && negb (jstype_eqb (typeof (opt_blockSize o)) TNumber) = false)
          by (destruct (truthy (opt_blockSize o)); [now rewrite Hb|reflexivity]).
        now rewrite Eb, Hs, (Hne _ Ht).
Qed.

(** A file of 10 bytes and a requested block size of -4:
    [constructor_checks_types_only] applies; the constructor returns an
    upload with the block size -4, and throws on [null] options. *)
Lemma constructor_checks_types_only_example :
  (exists u, example_new 10 (VNumber (-4)) = Ok u
             /\ fileSize u = 10 /\ blockSize u = -4)
  /\ constructor browser (VString "https://blob/a")
       (VFile "a.bin" 10 "application/octet-stream") opts_null
     = Err null_opts_error.
Proof.
  split.
  - destruct (constructor_checks_types_only browser (VString "https://blob/a")
                (VFile "a.bin" 10 "application/octet-stream")
                (example_opts (VNumber (-4))))
      as [Hok _].
    destruct (Hok (example_opts (VNumber (-4))) eq_refl eq_refl eq_refl
                (fun _ => eq_refl) (fun _ => eq_refl)) as (u & Hu & Hf & Hb & _).
    exists u. split; [exact Hu|]. split; [exact Hf|exact Hb].
  - destruct (constructor_checks_types_only browser (VString "https://blob/a")
                (VFile "a.bin" 10 "application/octet-stream") opts_null)
      as (_ & _ & Hthrows).
    destruct (Hthrows eq_refl) as (_ & _ & Hnull).
    now apply (Hnull eq_refl).
Defined.

(** ** The job on either platform *)

Lemma replicate_snoc {A : Type} (n : nat) (x : A) :
  replicate n x ++ [x] = replicate (S n) x.
Proof. induction n as [|n IH]; [reflexivity|]. cbn [replicate app]. now rewrite IH. Qed.

Section Platforms.

Variable isRunningOnWeb : bool.
Variable this : AzureBlockUpload.
Variable C : Collaborators.
Variable dataEncryptionKey : value.

Abbreviation app_step := (App.step isRunningOnWeb this C dataEncryptionKey).
Abbreviation app_run := (App.run isRunningOnWeb this C dataEncryptionKey).

(** Where [base64] returns, the job is the job of the upload whose prefix
    is held as the bytes encoded. *)
Lemma encoded_upload (this' : AzureBlockUpload) :
  App.encoded isRunningOnWeb this = Some this' ->
  exists prefix, this' = with_blockIDPrefix prefix this.
Proof.
  unfold App.encoded. destruct (to_string (blockIDPrefix this)); [|discriminate].
  destruct isRunningOnWeb.
  - destruct (latin1 _); [|discriminate]. intros [= <-]. eauto.
  - intros [= <-]. exists (blockIDPrefix this). now destruct this.
Qed.

Lemma encoded_blockID (this' : AzureBlockUpload) (n : nat) :
  App.encoded isRunningOnWeb this = Some this' ->
  App.blockID isRunningOnWeb this n = Ok (blockID this' n).
Proof. intros H. now rewrite blockID_encoded, H. Qed.

Lemma encoded_job_begin (this' : AzureBlockUpload) (n : nat) (s : State) :
  App.encoded isRunningOnWeb this = Some this' ->
  App.job_begin isRunningOnWeb this C n s = job_begin this' C n s.
Proof.
  intros H. unfold App.job_begin. rewrite (encoded_blockID _ n H).
  destruct (encoded_upload _ H) as [prefix ->]. reflexivity.
Qed.

Lemma encoded_job_after_read (this' : AzureBlockUpload) (n : nat) (r : result string)
    (s : State) :
  App.encoded isRunningOnWeb this = Some this' ->
  App.job_after_read isRunningOnWeb this C dataEncryptionKey n r s
  = job_after_read this' C dataEncryptionKey n r s.
Proof.
  intros H. unfold App.job_after_read, App.blockID_of.
  rewrite (encoded_blockID _ n H).
  destruct (encoded_upload _ H) as [prefix ->]. reflexivity.
Qed.

Lemma encoded_step (this' : AzureBlockUpload) (a : Action) (s : State) :
  App.encoded isRunningOnWeb this = Some this' ->
  app_step a s = step this' C dataEncryptionKey a s.
Proof.
  intros H. destruct a as [|n]; cbn [App.step step].
  - unfold App.pool_dispatch, pool_dispatch.
    destruct (queue (pool s)); [reflexivity|]. now rewrite (encoded_job_begin this').
  - destruct (jobs s !! n) as [[|r|r|r| |]|]; try reflexivity.
    + now apply encoded_job_after_read.
    + destruct (encoded_upload _ H) as [prefix ->]. reflexivity.
    + destruct (encoded_upload _ H) as [prefix ->]. reflexivity.
Qed.

Lemma encoded_run (this' : AzureBlockUpload) (schedule : list Action) (s : State) :
  App.encoded isRunningOnWeb this = Some this' ->
  app_run schedule s = run this' C dataEncryptionKey schedule s.
Proof.
  intros H. revert s. induction schedule as [|a schedule IH]; intros s; [reflexivity|].
  cbn [App.run run fold_left]. rewrite (encoded_step this') by exact H. apply IH.
Qed.

Lemma encoded_start (this' : AzureBlockUpload) :
  App.encoded isRunningOnWeb this = Some this' ->
  App.start isRunningOnWeb this C = start this' C
  /\ totalBlocks this' = totalBlocks this
  /\ (planned this -> planned this').
Proof.
  intros H.
  assert (Hrun : forall l s,
             fold_left (fun s n => App.pool_run isRunningOnWeb this C n s) l s
             = fold_left (fun s n => pool_run this' C n s) l s).
  { intros l. induction l as [|n l IH]; intros s; [reflexivity|].
    cbn [fold_left]. rewrite IH. f_equal.
    unfold App.pool_run, pool_run. now rewrite !(encoded_job_begin this'). }
  destruct (encoded_upload _ H) as [prefix E].
  assert (Et : totalBlocks this' = totalBlocks this) by now rewrite E.
  split; [|split; [exact Et|]].
  - unfold App.start, start. rewrite Et.
    destruct (loop_count (totalBlocks this)) as [k|]; [|reflexivity].
    f_equal. rewrite Hrun. f_equal. now rewrite E.
  - intros [H1 H2 H3 H4]. rewrite E. now split.
Qed.

Lemma encoded_failure_of (this' : AzureBlockUpload) (n : nat) :
  App.encoded isRunningOnWeb this = Some this' ->
  App.failure_of isRunningOnWeb this C dataEncryptionKey n
  = failure_of this' C dataEncryptionKey n.
Proof.
  intros H. unfold App.failure_of. rewrite (encoded_blockID _ n H).
  destruct (encoded_upload _ H) as [prefix ->]. reflexivity.
Qed.

Section Throwing.

(** Where the computation of the identifier throws, it throws for every
    block, and the jobs are left at their identifier. *)
Hypothesis Hthrows : App.encoded isRunningOnWeb this = None.

Lemma unencoded_blockID (n : nat) :
  App.blockID isRunningOnWeb this n = Err (App.blockID_error this).
Proof. now rewrite blockID_encoded, Hthrows. Qed.

Abbreviation Unencoded_ := (Unencoded (App.blockID_error this)).

Lemma unencoded_job_begin (n : nat) (s : State) (p : ThreadPool) :
  Unencoded_ s -> Unencoded_ (App.job_begin isRunningOnWeb this C n (set_pool p s)).
Proof.
  intros [Hids Hjobs Htrace Hprom]. unfold App.job_begin.
  rewrite unencoded_blockID.
  split; cbn [job_catch pool_release set_pool set_job emit set_promise
              blockIDList jobs trace promise].
  - exact Hids.
  - intros i q Hi.
    apply list_lookup_insert_Some in Hi as [(_ & <- & _)|(_ & Hi)].
    + right. split; [reflexivity|]. apply in_or_app. right. now left.
    + destruct (Hjobs _ _ Hi) as [->|[-> Hin]]; [now left|].
      right. split; [reflexivity|]. apply in_or_app. now left.
  - intros e [He|[<-|[]]]%in_app_or; [exact (Htrace _ He)|reflexivity].
  - rewrite first_settlement_app, <- Hprom. reflexivity.
Qed.

Lemma unencoded_set_pool (s : State) (p : ThreadPool) :
  Unencoded_ s -> Unencoded_ (set_pool p s).
Proof. now intros [Hids Hjobs Htrace Hprom]. Qed.

Lemma unencoded_pool_run (n : nat) (s : State) :
  Unencoded_ s -> Unencoded_ (App.pool_run isRunningOnWeb this C n s).
Proof.
  intros Hs. unfold App.pool_run. destruct (_ <? _).
  - now apply unencoded_job_begin.
  - now apply unencoded_set_pool.
Qed.

Lemma unencoded_step (a : Action) (s : State) :
  Unencoded_ s -> Unencoded_ (app_step a s).
Proof.
  intros Hs. destruct a as [|n]; cbn [App.step].
  - unfold App.pool_dispatch. destruct (queue (pool s)); [exact Hs|].
    destruct (_ <? _); [now apply unencoded_job_begin|exact Hs].
  - destruct (jobs s !! n) as [p|] eqn:En; [|exact Hs].
    destruct (un_jobs _ _ Hs n p En) as [-> |[-> _]]; exact Hs.
Qed.

Lemma unencoded_run (schedule : list Action) (s : State) :
  Unencoded_ s -> Unencoded_ (app_run schedule s).
Proof.
  revert s. induction schedule as [|a schedule IH]; intros s Hs; [exact Hs|].
  cbn [App.run fold_left]. apply IH, unencoded_step, Hs.
Qed.

Lemma unencoded_start (s0 : State) :
  App.start isRunningOnWeb this C = Some s0 -> Unencoded_ s0.
Proof.
  unfold App.start. destruct (loop_count (totalBlocks this)) as [k|]; [|discriminate].
  intros [= <-].
  assert (H0 : Unencoded_ (initial_state this k)).
  { split; cbn [initial_state blockIDList jobs trace promise]; try easy.
    intros n p Hn. apply lookup_replicate in Hn as [-> _]. now left. }
  revert H0. generalize (initial_state this k). generalize (seq 0 k).
  intros l. induction l as [|n l IH]; intros s Hs; [exact Hs|].
  cbn [fold_left]. apply IH. now apply unencoded_pool_run.
Qed.

(** Nothing is read or put, and the promise is rejected as soon as a
    job has started. *)
Lemma unencoded_quiet (s : State) :
  Unencoded_ s ->
  blocks_read (trace s) = [] /\ blocks_put (trace s) = []
  /\ (trace s <> [] -> promise s = Rejected (App.blockID_error this)).
Proof.
  intros [_ _ Htrace Hprom]. rewrite Hprom. clear Hprom.
  induction (trace s) as [|e t IH]; [easy|].
  rewrite (Htrace e) by now left.
  destruct IH as (Hr & Hp & Hrej); [intros e' He'; apply Htrace; now right|].
  cbn [blocks_read blocks_put flat_map app]. split; [exact Hr|]. split; [exact Hp|].
  intros _. unfold first_settlement. cbn [fold_left settle reject].
  clear -Htrace.
  assert (Ht : forall e', In e' t -> e' = OnError (App.blockID_error this))
    by (intros e' He'; apply Htrace; now right).
  clear Htrace. induction t as [|e' t IH]; [reflexivity|].
  cbn [fold_left]. rewrite (Ht e') by now left. cbn [settle reject].
  apply IH. intros e'' He''. apply Ht. now right.
Qed.

Lemma unencoded_failure_of (n : nat) :
  App.failure_of isRunningOnWeb this C dataEncryptionKey n
  = Some (AtBase64, App.blockID_error this).
Proof. unfold App.failure_of. now rewrite unencoded_blockID. Qed.

(** Only [onError] is called, with the error of the identifier. *)
Lemma unencoded_calls (s : State) :
  Unencoded_ s ->
  successes (trace s) = [] /\ commit_callers (trace s) = []
  /\ (trace s <> [] ->
      exists rest, errors (trace s) = App.blockID_error this :: rest).
Proof.
  intros [_ _ Htrace _].
  induction (trace s) as [|e t IH]; [easy|].
  rewrite (Htrace e) by now left.
  destruct IH as (Hs & Hc & _); [intros e' He'; apply Htrace; now right|].
  cbn [successes commit_callers errors flat_map app].
  split; [exact Hs|]. split; [exact Hc|]. intros _. eauto.
Qed.

Lemma unencoded_caught (s : State) (n : nat) (stage : Stage) (error : Error) :
  Unencoded_ s -> jobs s !! n = Some (Caught stage error) ->
  stage = AtBase64 /\ error = App.blockID_error this
  /\ In error (errors (trace s)) /\ trace s <> [].
Proof.
  intros Hs Hn. destruct (un_jobs _ _ Hs n _ Hn) as [H|[H Hin]]; [discriminate H|].
  injection H as -> ->. split; [reflexivity|]. split; [reflexivity|].
  split; [|intros E; now rewrite E in Hin].
  clear -Hin. induction (trace s) as [|e t IH]; [destruct Hin|].
  destruct Hin as [->|Hin]; [now left|].
  cbn [errors flat_map]. apply in_or_app. right. now apply IH.
Qed.

Lemma unencoded_step_persists (a : Action) (s : State) (n : nat) (p : Phase) :
  Unencoded_ s -> jobs s !! n = Some p -> caught p = true ->
  jobs (app_step a s) !! n = Some p.
Proof.
  intros Hs Hn Hp.
  assert (E : p = Caught AtBase64 (App.blockID_error this))
    by (destruct (un_jobs _ _ Hs n p Hn) as [->|[-> _]]; [discriminate Hp|reflexivity]).
  destruct a as [|m]; cbn [App.step].
  - unfold App.pool_dispatch. destruct (queue (pool s)) as [|m rest]; [exact Hn|].
    destruct (_ <? _); [|exact Hn].
    unfold App.job_begin. rewrite unencoded_blockID.
    cbn [job_catch pool_release set_pool set_job emit set_promise jobs].
    destruct (Nat.eq_dec m n) as [->|Hne].
    + rewrite list_lookup_insert_eq by (eapply lookup_lt_Some; exact Hn).
      now rewrite E.
    + now rewrite list_lookup_insert_ne.
  - destruct (jobs s !! m) as [q|] eqn:Em; [|exact Hn].
    destruct (un_jobs _ _ Hs m q Em) as [-> |[-> _]]; exact Hn.
Qed.

Lemma unencoded_run_persists (schedule : list Action) (s : State) (n : nat) (p : Phase) :
  Unencoded_ s -> jobs s !! n = Some p -> caught p = true ->
  jobs (app_run schedule s) !! n = Some p.
Proof.
  revert s. induction schedule as [|a schedule IH]; intros s Hs Hn Hp; [exact Hn|].
  cbn [App.run fold_left]. apply IH; [now apply unencoded_step| |exact Hp].
  now apply unencoded_step_persists.
Qed.

(** With a slot in the pool, [start] leaves every job failed. *)
Hypothesis Hpool : 0 < simultaneousUploads this.

Abbreviation caught_state_ := (caught_state this (App.blockID_error this)).

Lemma pool_run_caught_state (k j : nat) :
  (j < k)%nat ->
  App.pool_run isRunningOnWeb this C j (caught_state_ k j) = caught_state_ k (S j).
Proof.
  intros Hj. unfold App.pool_run. cbn [caught_state pool running size].
  destruct (Z.ltb_spec 0 (simultaneousUploads this)) as [_|]; [|lia].
  unfold App.job_begin. rewrite unencoded_blockID.
  unfold job_catch, pool_release, set_pool, set_job, emit, set_promise, caught_state.
  cbn [remainingBytes blockIDList artifacts promise pool jobs trace size running queue].
  f_equal.
  - now destruct j.
  - rewrite insert_app_r_alt by (rewrite length_replicate; lia).
    rewrite length_replicate, Nat.sub_diag.
    replace (k - j)%nat with (S (k - S j)) by lia.
    rewrite <- (replicate_snoc j), <- app_assoc. reflexivity.
  - apply replicate_snoc.
Qed.

Lemma unencoded_loop (k j : nat) :
  (j <= k)%nat ->
  fold_left (fun s n => App.pool_run isRunningOnWeb this C n s) (seq 0 j)
            (initial_state this k)
  = caught_state_ k j.
Proof.
  induction j as [|j IH]; intros Hj.
  - unfold caught_state, initial_state. cbn. now rewrite Nat.sub_0_r.
  - rewrite seq_S, fold_left_app, IH by lia. cbn [fold_left Nat.add].
    now apply pool_run_caught_state.
Qed.

Lemma unencoded_start_state (s0 : State) :
  App.start isRunningOnWeb this C = Some s0 ->
  s0 = caught_state_ (length (jobs s0)) (length (jobs s0)).
Proof.
  unfold App.start. destruct (loop_count (totalBlocks this)) as [k|]; [|discriminate].
  intros [= <-]. rewrite unencoded_loop by lia.
  cbn [caught_state jobs]. rewrite length_app, !length_replicate, Nat.sub_diag.
  now rewrite Nat.add_0_r.
Qed.

Lemma caught_state_idle (k : nat) (schedule : list Action) :
  app_run schedule (caught_state_ k k) = caught_state_ k k.
Proof.
  induction schedule as [|a l IH]; [reflexivity|].
  cbn [App.run fold_left].
  assert (Ea : app_step a (caught_state_ k k) = caught_state_ k k).
  { destruct a as [|n]; [reflexivity|]. cbn [App.step caught_state jobs].
    rewrite Nat.sub_diag, app_nil_r.
    destruct (replicate k (Caught AtBase64 (App.blockID_error this)) !! n) as [p|] eqn:En;
      [|reflexivity].
    apply lookup_replicate in En as [-> _]. reflexivity. }
  rewrite Ea. exact IH.
Qed.

End Throwing.

End Platforms.

(** C2.  When the computation of the identifier, [readBlock], the
    encryption or [putBlock] of a block fails, no run of the upload calls
    [onSuccess] or [putBlockList]; the job of the block, once over, was left
    through [catch] with the error of the step that failed, and every run
    can be continued until it is, with [onError] called with that error and
    the promise rejected with the first error handed to [onError]; and once
    a job has been left through [catch] before its decrement, it is the
    error of its failed step that it was thrown, [onError] has been called
    with it, the promise is rejected with the first error handed to
    [onError], and no continuation of the run calls [onSuccess] or
    [putBlockList] or replaces the rejection. *)
Theorem block_failure_rejects
    (P : Platform) (url_ file_ : value) (opts : OptsArgument) (u : AzureBlockUpload)
    (isRunningOnWeb : bool) (C : Collaborators) (key : value) (s0 : State) :
  constructor P url_ file_ opts = Ok u -> 0 <= fileSize u ->
  App.start isRunningOnWeb u C = Some s0 ->
  forall schedule n stage error,
    ((n < length (jobs s0))%nat ->
     App.failure_of isRunningOnWeb u C key n = Some (stage, error) ->
     successes (trace (App.run isRunningOnWeb u C key schedule s0)) = []
     /\ commit_callers (trace (App.run isRunningOnWeb u C key schedule s0)) = []
     /\ (forall p, jobs (App.run isRunningOnWeb u C key schedule s0) !! n = Some p ->
                   settled p = true -> p = Caught stage error)
     /\ (0 < simultaneousUploads u ->
         exists rest first others,
           jobs (App.run isRunningOnWeb u C key (schedule ++ rest) s0) !! n
           = Some (Caught stage error)
           /\ errors (trace (App.run isRunningOnWeb u C key (schedule ++ rest) s0))
              = first :: others
           /\ In error (first :: others)
           /\ promise (App.run isRunningOnWeb u C key (schedule ++ rest) s0)
              = Rejected first))
    /\ (jobs (App.run isRunningOnWeb u C key schedule s0) !! n
        = Some (Caught stage error) ->
        stage <> AtCommit ->
        App.failure_of isRunningOnWeb u C key n = Some (stage, error)
        /\ In error (errors (trace (App.run isRunningOnWeb u C key schedule s0)))
        /\ exists first rest,
            errors (trace (App.run isRunningOnWeb u C key schedule s0)) = first :: rest
            /\ promise (App.run isRunningOnWeb u C key schedule s0) = Rejected first
            /\ forall later,
                promise (App.run isRunningOnWeb u C key (schedule ++ later) s0)
                = Rejected first
                /\ successes
                     (trace (App.run isRunningOnWeb u C key (schedule ++ later) s0)) = []
                /\ commit_callers
                     (trace (App.run isRunningOnWeb u C key (schedule ++ later) s0)) = []).
Proof.
  intros Hc Hf Hstart schedule n stage error.
  apply constructor_fields in Hc as (o & _ & Hc).
  destruct (App.encoded isRunningOnWeb u) as [u'|] eqn:He.
  - (* the identifiers are computed: the job of the encoded upload *)
    destruct (encoded_start isRunningOnWeb u C u' He) as (Es & Et & Hp').
    rewrite Es in Hstart.
    assert (Hrun : forall l, App.run isRunningOnWeb u C key l s0 = run u' C key l s0)
      by (intros l; now apply encoded_run).
    setoid_rewrite Hrun. rewrite (encoded_failure_of _ _ _ _ _ n He).
    assert (Hsim : simultaneousUploads u' = simultaneousUploads u)
      by (destruct (encoded_upload _ _ _ He) as [prefix ->]; reflexivity).
    rewrite <- Hsim.
    destruct (constructor_cases _ _ _ _ _ Hc Hf) as [Hp|[Hn|Hn]].
    + rewrite (start_planned u' C (Hp' Hp)) in Hstart. injection Hstart as <-.
      destruct (failing_block u' C key (Hp' Hp) schedule n stage error) as [H1 H2].
      split; [|exact H2].
      intros Hlt. apply H1.
      rewrite <- (st_jobs _ _ _ (inv_structure _ _ _ _
                    (reachable_Invariant u' C key (Hp' Hp) []))). exact Hlt.
    + unfold start in Hstart. rewrite Et, Hn in Hstart. injection Hstart as <-.
      rewrite run_idle.
      split; [intros Hlt; cbn in Hlt; lia|intros Hj; discriminate Hj].
    + unfold start in Hstart. rewrite Et, Hn in Hstart. discriminate Hstart.
  - (* the computation of the identifier throws *)
    assert (Hun : forall l, Unencoded (App.blockID_error u)
                              (App.run isRunningOnWeb u C key l s0))
      by (intros l; apply (unencoded_run isRunningOnWeb u C key He),
                          (unencoded_start isRunningOnWeb u C He s0 Hstart)).
    rewrite (unencoded_failure_of _ _ _ _ He).
    split.
    + intros Hlt [= <- <-].
      destruct (unencoded_calls _ _ (Hun schedule)) as (Hs & Hcall & _).
      split; [exact Hs|]. split; [exact Hcall|]. split.
      * intros p Hp Hset.
        destruct (un_jobs _ _ (Hun schedule) n p Hp) as [->|[-> _]];
          [discriminate Hset|reflexivity].
      * intros Hpool. exists [].
        rewrite app_nil_r.
        rewrite (unencoded_start_state isRunningOnWeb u C He Hpool s0 Hstart).
        rewrite caught_state_idle.
        cbn [caught_state jobs trace promise]. rewrite Nat.sub_diag, app_nil_r.
        destruct (length (jobs s0)) as [|k]; [lia|].
        exists (App.blockID_error u),
               (errors (replicate k (OnError (App.blockID_error u)))).
        split; [apply lookup_replicate_2; lia|].
        split; [reflexivity|]. split; [now left|reflexivity].
    + intros Hn Hstage.
      destruct (unencoded_caught u _ n stage error (Hun schedule) Hn)
        as (-> & -> & Hin & Hne).
      split; [reflexivity|]. split; [exact Hin|].
      destruct (unencoded_calls _ _ (Hun schedule)) as (_ & _ & Herr).
      destruct (Herr Hne) as [rest Hrest].
      exists (App.blockID_error u), rest. split; [exact Hrest|].
      destruct (unencoded_quiet _ _ (Hun schedule)) as (_ & _ & Hrej).
      split; [now apply Hrej|].
      intros later.
      assert (Hn' : jobs (App.run isRunningOnWeb u C key (schedule ++ later) s0) !! n
                    = Some (Caught AtBase64 (App.blockID_error u))).
      { unfold App.run. rewrite fold_left_app.
        exact (unencoded_run_persists isRunningOnWeb u C key He later _ n _
                 (Hun schedule) Hn eq_refl). }
      destruct (unencoded_caught u _ n _ _ (Hun (schedule ++ later)) Hn')
        as (_ & _ & _ & Hne').
      destruct (unencoded_quiet _ _ (Hun (schedule ++ later))) as (_ & _ & Hrej').
      destruct (unencoded_calls _ _ (Hun (schedule ++ later))) as (Hs' & Hc' & _).
      split; [now apply Hrej'|now split].
Qed.

(** The upload of 10 bytes in blocks of 4 when the [putBlock] of block 1
    fails: [block_failure_rejects] applies; the job of block 1 is left
    through [catch], the promise is rejected with the error of [putBlock],
    and the two other blocks are put without a commit. *)
Lemma block_failure_rejects_example :
  example_new 10 (VNumber 4) = Ok (example_upload 10 4)
  /\ App.failure_of false (example_upload 10 4) put_failing_collaborators VUndefined 1
     = Some (AtPutBlock, "put failed")
  /\ exists s0,
      App.start false (example_upload 10 4) put_failing_collaborators = Some s0
      /\ jobs (App.run false (example_upload 10 4) put_failing_collaborators VUndefined
                       put_failing_schedule s0)
         = [Returned; Caught AtPutBlock "put failed"; Returned]
      /\ promise (App.run false (example_upload 10 4) put_failing_collaborators
                          VUndefined put_failing_schedule s0) = Rejected "put failed"
      /\ successes
           (trace (App.run false (example_upload 10 4) put_failing_collaborators
                           VUndefined put_failing_schedule s0)) = []
      /\ commit_callers
           (trace (App.run false (example_upload 10 4) put_failing_collaborators
                           VUndefined put_failing_schedule s0)) = [].
Proof.
  split; [reflexivity|]. split; [vm_compute; reflexivity|].
  destruct (App.start false (example_upload 10 4) put_failing_collaborators)
    as [s0|] eqn:Es; [|vm_compute in Es; discriminate Es].
  exists s0. split; [reflexivity|].
  destruct (block_failure_rejects browser (VString "https://blob/a")
              (VFile "a.bin" 10 "application/octet-stream") (example_opts (VNumber 4))
              (example_upload 10 4) false put_failing_collaborators VUndefined s0
              eq_refl ltac:(cbn; lia) Es
              put_failing_schedule 1%nat AtPutBlock "put failed")
    as [Hfails Hcaught].
  vm_compute in Es. injection Es as <-.
  split; [vm_compute; reflexivity|].
  destruct Hfails as (Hsucc & Hcall & _); [vm_compute; lia|vm_compute; reflexivity|].
  destruct Hcaught as (_ & _ & first & rest & He & Hp & _);
    [vm_compute; reflexivity|discriminate|].
  split; [|now split].
  rewrite Hp. vm_compute in He. now injection He as <- _.
Defined.

(** C10 (as amended).  Where the identifier of a block is computed, which
    it is for every block outside the browser when the prefix can be
    converted to a string, the job pushes it before it reads or puts
    anything and nothing takes it out again: the list has one identifier
    for every started job, among them every block for which [readBlock] or
    [putBlock] was called and every job left through [catch].  Where the
    computation throws, which the conversion of the prefix to a string can
    do, and [window.btoa] in the browser on a prefix with a character above
    U+00FF, it throws inside the [try] block and before the push: every
    started job is left through [catch] with that error, nothing is pushed,
    read or put, the promise is rejected, and the list is shorter than the
    number of started jobs.  In both cases the list only grows at its
    end. *)
Theorem blockID_pushed_when_computed
    (P : Platform) (url_ file_ : value) (opts : OptsArgument) (u : AzureBlockUpload)
    (isRunningOnWeb : bool) (C : Collaborators) (key : value) (s0 : State) :
  constructor P url_ file_ opts = Ok u -> 0 <= fileSize u ->
  App.start isRunningOnWeb u C = Some s0 ->
  forall schedule,
    (forall n id,
        App.blockID isRunningOnWeb u n = Ok id ->
        length (blockIDList (App.run isRunningOnWeb u C key schedule s0))
        = count started (jobs (App.run isRunningOnWeb u C key schedule s0))
        /\ (In n (blocks_read (trace (App.run isRunningOnWeb u C key schedule s0)))
            \/ In n (blocks_put (trace (App.run isRunningOnWeb u C key schedule s0))) ->
            blockIDList (App.run isRunningOnWeb u C key schedule s0) !! n = Some id)
        /\ (forall stage error,
              jobs (App.run isRunningOnWeb u C key schedule s0) !! n
              = Some (Caught stage error) ->
              blockIDList (App.run isRunningOnWeb u C key schedule s0) !! n = Some id))
    /\ (forall n error,
          App.blockID isRunningOnWeb u n = Err error ->
          (to_string (blockIDPrefix u) = Err error
           \/ (isRunningOnWeb = true /\ error = InvalidCharacterError
               /\ exists prefix, to_string (blockIDPrefix u) = Ok prefix
                                 /\ latin1 prefix = None))
          /\ blockIDList (App.run isRunningOnWeb u C key schedule s0) = []
          /\ blocks_read (trace (App.run isRunningOnWeb u C key schedule s0)) = []
          /\ blocks_put (trace (App.run isRunningOnWeb u C key schedule s0)) = []
          /\ forall m p,
              jobs (App.run isRunningOnWeb u C key schedule s0) !! m = Some p ->
              started p = true ->
              p = Caught AtBase64 error
              /\ promise (App.run isRunningOnWeb u C key schedule s0) = Rejected error
              /\ length (blockIDList (App.run isRunningOnWeb u C key schedule s0))
                 <> count started (jobs (App.run isRunningOnWeb u C key schedule s0)))
    /\ (forall later, exists more,
          blockIDList (App.run isRunningOnWeb u C key (schedule ++ later) s0)
          = blockIDList (App.run isRunningOnWeb u C key schedule s0) ++ more)
    /\ (isRunningOnWeb = false ->
        forall prefix, to_string (blockIDPrefix u) = Ok prefix ->
        forall n, App.blockID isRunningOnWeb u n = Ok (blockID u n)).
Proof.
  intros Hc Hf Hstart schedule.
  apply constructor_fields in Hc as (o & _ & Hc).
  assert (Hnode : isRunningOnWeb = false ->
                  forall prefix, to_string (blockIDPrefix u) = Ok prefix ->
                  forall n, App.blockID isRunningOnWeb u n = Ok (blockID u n)).
  { intros -> prefix Hp n. rewrite blockID_encoded. unfold App.encoded. now rewrite Hp. }
  destruct (App.encoded isRunningOnWeb u) as [u'|] eqn:He.
  - (* the identifier is computed: the job of the encoded upload *)
    destruct (encoded_start isRunningOnWeb u C u' He) as (Es & Et & Hp').
    rewrite Es in Hstart.
    assert (Hrun : forall l, App.run isRunningOnWeb u C key l s0 = run u' C key l s0)
      by (intros l; now apply encoded_run).
    rewrite !Hrun.
    assert (Hcases : (planned u'
                      /\ s0 = loop_state u' C (planned_jobs u') (planned_jobs u'))
                     \/ s0 = initial_state u' 0).
    { destruct (constructor_cases _ _ _ _ _ Hc Hf) as [Hp|[Hn|Hn]].
      - left. split; [now apply Hp'|].
        rewrite (start_planned u' C (Hp' Hp)) in Hstart. now injection Hstart.
      - right. unfold start in Hstart. rewrite Et, Hn in Hstart. now injection Hstart.
      - unfold start in Hstart. rewrite Et, Hn in Hstart. discriminate Hstart. }
    split; [|split; [|split; [|exact Hnode]]].
    + intros n id Hid. rewrite (encoded_blockID _ _ _ n He) in Hid. injection Hid as <-.
      destruct Hcases as [[Hplan ->]| ->].
      * pose proof (reachable_Invariant u' C key Hplan schedule) as Hs.
        pose proof (inv_structure _ _ _ _ Hs) as Hst.
        split; [symmetry; exact (st_count _ _ _ Hst)|]. split.
        -- intros [Hn|Hn]; apply (started_blockID u' C key _ n Hs).
           ++ rewrite (st_reads _ _ _ Hst) in Hn. apply in_seq in Hn. lia.
           ++ exact (st_puts _ _ _ Hst n Hn).
        -- intros stage error Hn. apply (started_blockID u' C key _ n Hs).
           now apply (started_index u' C key _ n _ Hs Hn).
      * rewrite run_idle. split; [reflexivity|].
        split; [intros [[]|[]]|intros stage error Hn; discriminate Hn].
    + intros n error Hid. rewrite (encoded_blockID _ _ _ n He) in Hid. discriminate Hid.
    + intros later. rewrite Hrun.
      destruct Hcases as [[Hplan ->]| ->].
      * rewrite run_app. apply run_grows.
      * rewrite !run_idle. now exists [].
  - (* the computation of the identifier throws *)
    assert (Hun : forall l, Unencoded (App.blockID_error u)
                              (App.run isRunningOnWeb u C key l s0))
      by (intros l; apply (unencoded_run isRunningOnWeb u C key He),
                          (unencoded_start isRunningOnWeb u C He s0 Hstart)).
    split; [|split; [|split; [|exact Hnode]]].
    + intros n id Hid. rewrite (unencoded_blockID _ _ He) in Hid. discriminate Hid.
    + intros n error Hid. rewrite (unencoded_blockID _ _ He) in Hid.
      injection Hid as <-. specialize (Hun schedule).
      destruct (unencoded_quiet _ _ Hun) as (Hr & Hp & Hrej).
      split.
      { destruct (blockID_error_cause _ _ He) as [Hts|(Hweb & Hie & Hpre)];
          [now left|right; now rewrite Hie]. }
      split; [exact (un_ids _ _ Hun)|]. split; [exact Hr|]. split; [exact Hp|].
      intros m p Hm Hst.
      destruct (un_jobs _ _ Hun m p Hm) as [->|[-> Hin]]; [discriminate Hst|].
      split; [reflexivity|]. split.
      * apply Hrej. intros E. rewrite E in Hin. destruct Hin.
      * rewrite (un_ids _ _ Hun). cbn [length].
        pose proof (count_lookup_positive started _ m _ Hm Hst). lia.
    + intros later. rewrite (un_ids _ _ (Hun schedule)), (un_ids _ _ (Hun (schedule ++ later))).
      now exists [].
Qed.

(** The upload of 10 bytes in blocks of 4 in the browser, with a prefix
    that ends in U+00E9, when block 1 cannot be read:
    [blockID_pushed_when_computed] applies; the identifiers are those of
    the prefix with U+00E9 as one byte, and the list holds three of them,
    that of block 1 among them, while two blocks were put. *)
Lemma blockID_pushed_when_computed_example :
  web_new prefix_latin1 = Ok (web_upload prefix_latin1)
  /\ App.blockID true (web_upload prefix_latin1) 1 = Ok "Y2Fm6SAgICAx"
  /\ exists s0,
      App.start true (web_upload prefix_latin1) failing_collaborators = Some s0
      /\ jobs (App.run true (web_upload prefix_latin1) failing_collaborators VUndefined
                       failing_schedule s0) !! 1%nat
         = Some (Caught AtRead "read failed")
      /\ blockIDList (App.run true (web_upload prefix_latin1) failing_collaborators
                              VUndefined failing_schedule s0) !! 1%nat
         = Some "Y2Fm6SAgICAx"
      /\ length (blockIDList (App.run true (web_upload prefix_latin1)
                                      failing_collaborators VUndefined
                                      failing_schedule s0)) = 3%nat
      /\ blocks_put (trace (App.run true (web_upload prefix_latin1) failing_collaborators
                                    VUndefined failing_schedule s0)) = [0; 2]%nat.
Proof.
  split; [reflexivity|]. split; [vm_compute; reflexivity|].
  destruct (App.start true (web_upload prefix_latin1) failing_collaborators)
    as [s0|] eqn:Es; [|vm_compute in Es; discriminate Es].
  exists s0. split; [reflexivity|].
  destruct (blockID_pushed_when_computed browser (VString "https://blob/a")
              (VFile "a.bin" 10 "application/octet-stream") (web_opts prefix_latin1)
              (web_upload prefix_latin1) true failing_collaborators VUndefined s0
              eq_refl ltac:(cbn; lia) Es failing_schedule)
    as (Hok & _).
  destruct (Hok 1%nat "Y2Fm6SAgICAx" ltac:(vm_compute; reflexivity))
    as (Hlen & _ & Hcaught).
  vm_compute in Es. injection Es as <-.
  split; [vm_compute; reflexivity|].
  split; [apply (Hcaught AtRead "read failed"); vm_compute; reflexivity|].
  split; [rewrite Hlen; vm_compute; reflexivity|vm_compute; reflexivity].
Defined.

(** C10, the claim as it was stated: in the browser, with a prefix that
    holds U+0100, the job of block 0 of the upload of 10 bytes has started
    and failed when [start] returns, and the list holds no identifier then
    or later, not that of the failed block and not one for every started
    job; the promise is rejected with the error of [window.btoa].  Outside
    the browser the same happens with a symbol for a prefix. *)
Lemma identifier_failure_pushes_nothing :
  web_new prefix_beyond = Ok (web_upload prefix_beyond)
  /\ (exists s0,
        App.start true (web_upload prefix_beyond) example_collaborators = Some s0
        /\ jobs s0 !! 0%nat = Some (Caught AtBase64 InvalidCharacterError)
        /\ blockIDList s0 = []
        /\ length (blockIDList s0) <> count started (jobs s0)
        /\ promise s0 = Rejected InvalidCharacterError
        /\ forall schedule,
            blockIDList (App.run true (web_upload prefix_beyond) example_collaborators
                                 VUndefined schedule s0) = [])
  /\ constructor browser (VString "https://blob/a")
       (VFile "a.bin" 10 "application/octet-stream")
       {| opt_blockIDPrefix := VSymbol; opt_blockSize := VNumber 4;
          opt_simultaneousUploads := VNumber 2 |}
     = Ok symbol_upload
  /\ exists s0,
      App.start false symbol_upload example_collaborators = Some s0
      /\ jobs s0 !! 0%nat = Some (Caught AtBase64 symbol_error)
      /\ blockIDList s0 = []
      /\ length (blockIDList s0) <> count started (jobs s0)
      /\ promise s0 = Rejected symbol_error.
Proof.
  split; [reflexivity|]. split; [|split; [reflexivity|]].
  - destruct (App.start true (web_upload prefix_beyond) example_collaborators)
      as [s0|] eqn:Es; [|vm_compute in Es; discriminate Es].
    exists s0. split; [reflexivity|].
    assert (Hun : forall l, Unencoded InvalidCharacterError
                              (App.run true (web_upload prefix_beyond)
                                       example_collaborators VUndefined l s0))
      by (intros l;
          apply (unencoded_run true (web_upload prefix_beyond) example_collaborators
                               VUndefined eq_refl),
                (unencoded_start true (web_upload prefix_beyond) example_collaborators
                                 eq_refl s0 Es)).
    vm_compute in Es. injection Es as <-.
    split; [reflexivity|]. split; [reflexivity|]. split; [discriminate|].
    split; [reflexivity|]. intros schedule. exact (un_ids _ _ (Hun schedule)).
  - eexists. split; [vm_compute; reflexivity|].
    split; [reflexivity|]. split; [reflexivity|]. split; [discriminate|reflexivity].
Qed.

(** ** More on the identifiers and on [start] *)

(** X6.  The identifiers of the blocks 0 to 99999 of an upload all have the
    same length: four characters for every three bytes of the prefix
    followed by a five-character index, rounded up.  The bytes of the
    prefix are those of the UTF-8 encoding of its string form outside the
    browser, and one for each character in the browser, where there is an
    identifier when no character is above U+00FF. *)
Theorem blockID_length (u : AzureBlockUpload) (n : nat) (prefix : string) :
  Z.of_nat n <= 99999 ->
  to_string (blockIDPrefix u) = Ok prefix ->
  (exists id, App.blockID false u n = Ok id
              /\ String.length id = (4 * ((String.length prefix + 7) / 3))%nat)
  /\ (forall bytes, latin1 prefix = Some bytes ->
        exists id, App.blockID true u n = Ok id
                   /\ String.length id = (4 * ((String.length bytes + 7) / 3))%nat)
  /\ String.length (blockID u n) = (4 * ((String.length prefix + 7) / 3))%nat.
Proof.
  intros Hn Hp.
  assert (L : (String.length (string_of_nat n) <= 5)%nat)
    by (apply length_string_of_nat; [lia|]; change (10 ^ Z.of_nat 5) with 100000; lia).
  assert (G : forall v, String.length (blockID v n)
                        = (4 * ((String.length (string_form (blockIDPrefix v)) + 7) / 3))%nat).
  { intros v. unfold blockID. rewrite length_base64, length_append, length_padStart.
    do 2 f_equal. lia. }
  assert (Ef : string_form (blockIDPrefix u) = prefix)
    by (unfold string_form; now rewrite Hp).
  split; [|split; [|now rewrite G, Ef]].
  - exists (blockID u n). split; [|now rewrite G, Ef].
    rewrite blockID_encoded. unfold App.encoded. now rewrite Hp.
  - intros bytes Hb. exists (blockID (with_blockIDPrefix (VString bytes) u) n).
    split; [|apply G].
    rewrite blockID_encoded. unfold App.encoded. now rewrite Hp, Hb.
Qed.

(** Block 7 of uploads with the default prefix, with the prefix [1e21] and
    with a prefix that ends in U+00E9: [blockID_length] applies; the first
    two identifiers have 16 characters, the number being printed as
    ["1e+21"], and the third has 16 outside the browser and 12 in it. *)
Lemma blockID_length_example :
  Z.of_nat 7 <= 99999
  /\ String.length (blockID (example_upload 10 4) 7) = 16%nat
  /\ to_string (blockIDPrefix numbered_upload) = Ok "1e+21"
  /\ String.length (blockID numbered_upload 7) = 16%nat
  /\ String.length (blockID (web_upload prefix_latin1) 7) = 16%nat
  /\ exists id, App.blockID true (web_upload prefix_latin1) 7 = Ok id
                /\ String.length id = 12%nat.
Proof.
  split; [cbn; lia|]. split; [|split; [vm_compute; reflexivity|split; [|split]]].
  - destruct (blockID_length (example_upload 10 4) 7 "block") as (_ & _ & H);
      [cbn; lia|reflexivity|].
    rewrite H. reflexivity.
  - destruct (blockID_length numbered_upload 7 "1e+21") as (_ & _ & H);
      [cbn; lia|vm_compute; reflexivity|].
    rewrite H. reflexivity.
  - destruct (blockID_length (web_upload prefix_latin1) 7 prefix_latin1) as (_ & _ & H);
      [cbn; lia|reflexivity|].
    rewrite H. reflexivity.
  - destruct (blockID_length (web_upload prefix_latin1) 7 prefix_latin1) as (_ & H & _);
      [cbn; lia|reflexivity|].
    destruct (H _ eq_refl) as (id & Hid & Hlen). exists id. split; [exact Hid|].
    rewrite Hlen. reflexivity.
Defined.

(** X9.  For an upload constructed on a platform whose [BLOCK_MAX_SIZE] is
    not 0, with a positive number of simultaneous uploads, [start] returns:
    the loop that submits the jobs ends.  Where the identifiers are
    computed, the promise is pending, and so far only [readBlock] has been
    called, for the first blocks in order, whose identifiers are in
    [blockIDList].  Where their computation throws, nothing has been pushed
    or read, the jobs that have started have been left through [catch], and
    the promise is rejected if there is one. *)
Theorem start_returns
    (P : Platform) (url_ file_ : value) (opts : OptsArgument) (u : AzureBlockUpload)
    (isRunningOnWeb : bool) (C : Collaborators) :
  constructor P url_ file_ opts = Ok u -> BLOCK_MAX_SIZE P <> 0 ->
  0 < simultaneousUploads u ->
  exists s0,
    App.start isRunningOnWeb u C = Some s0
    /\ (forall u',
          App.encoded isRunningOnWeb u = Some u' ->
          promise s0 = Pending
          /\ blockIDList s0 = map (blockID u') (seq 0 (length (blockIDList s0)))
          /\ trace s0
             = map (fun n => CallReadBlock n (block_from u n) (block_to u n))
                   (seq 0 (length (blockIDList s0)))
          /\ Z.of_nat (length (blockIDList s0)) <= simultaneousUploads u)
    /\ (App.encoded isRunningOnWeb u = None ->
        blockIDList s0 = []
        /\ blocks_read (trace s0) = []
        /\ forall n p, jobs s0 !! n = Some p -> started p = true ->
             p = Caught AtBase64 (App.blockID_error u)
             /\ promise s0 = Rejected (App.blockID_error u)).
Proof.
  intros Hc Hmax Hpool. apply constructor_fields in Hc as (o & _ & Hc).
  assert (Hs0 : exists s0, App.start isRunningOnWeb u C = Some s0).
  { unfold App.start.
    destruct (constructed_totalBlocks _ _ _ _ _ Hc Hmax) as [->|[tb ->]]; cbn; eauto. }
  destruct Hs0 as [s0 Hs0]. exists s0. split; [exact Hs0|]. split.
  - intros u' He.
    destruct (encoded_start isRunningOnWeb u C u' He) as (Es & Et & _).
    destruct (encoded_upload _ _ _ He) as [prefix Eu].
    rewrite Es in Hs0.
    assert (Hb : forall n, block_from u n = block_from u' n /\ block_to u n = block_to u' n)
      by (intros n; now rewrite Eu).
    assert (Hsim : simultaneousUploads u' = simultaneousUploads u) by now rewrite Eu.
    destruct (constructed_totalBlocks _ _ _ _ _ Hc Hmax) as [Hnan|[tb Htb]].
    + unfold start in Hs0. rewrite Et, Hnan in Hs0. injection Hs0 as <-.
      cbn. repeat split. lia.
    + rewrite (start_state u' C tb) in Hs0 by now rewrite Et.
      injection Hs0 as <-.
      cbn [loop_state promise blockIDList trace]. rewrite length_map, length_seq.
      split; [reflexivity|]. split; [reflexivity|]. split.
      * apply map_ext. intros n. now destruct (Hb n) as [-> ->].
      * unfold slots. lia.
  - intros He.
    pose proof (unencoded_start isRunningOnWeb u C He s0 Hs0) as Hun.
    destruct (unencoded_quiet _ _ Hun) as (Hr & _ & Hrej).
    split; [exact (un_ids _ _ Hun)|]. split; [exact Hr|].
    intros n p Hn Hst.
    destruct (un_jobs _ _ Hun n p Hn) as [->|[-> Hin]]; [discriminate Hst|].
    split; [reflexivity|]. apply Hrej. intros E. rewrite E in Hin. destruct Hin.
Qed.

(** The upload of 10 bytes in blocks of 4 on two slots: [start_returns]
    applies; blocks 0 and 1 are being read. *)
Lemma start_returns_example :
  example_new 10 (VNumber 4) = Ok (example_upload 10 4)
  /\ exists s0,
      App.start false (example_upload 10 4) example_collaborators = Some s0
      /\ promise s0 = Pending
      /\ trace s0 = [CallReadBlock 0 0 4; CallReadBlock 1 4 8].
Proof.
  split; [reflexivity|].
  destruct (start_returns browser (VString "https://blob/a")
              (VFile "a.bin" 10 "application/octet-stream") (example_opts (VNumber 4))
              (example_upload 10 4) false example_collaborators eq_refl)
    as (s0 & Hs0 & Hok & _); [discriminate|reflexivity|].
  exists s0. split; [exact Hs0|].
  destruct (Hok _ eq_refl) as (Hp & _). split; [exact Hp|].
  vm_compute in Hs0. injection Hs0 as <-. reflexivity.
Defined.

(** X18.  Where the identifiers are computed, the job of the source is the
    job above: outside the browser [start] and every run are those of the
    upload itself, and in the browser, when the prefix has no character
    above U+00FF, those of the upload whose prefix is held with one byte for
    each character; the plan is the same. *)
Theorem platforms_agree
    (isRunningOnWeb : bool) (u u' : AzureBlockUpload) (C : Collaborators) (key : value) :
  App.encoded isRunningOnWeb u = Some u' ->
  App.start isRunningOnWeb u C = start u' C
  /\ (forall schedule s,
        App.run isRunningOnWeb u C key schedule s = run u' C key schedule s)
  /\ (forall n, App.blockID isRunningOnWeb u n = Ok (blockID u' n))
  /\ (isRunningOnWeb = false -> u' = u)
  /\ (forall prefix bytes, isRunningOnWeb = true ->
        to_string (blockIDPrefix u) = Ok prefix -> latin1 prefix = Some bytes ->
        u' = with_blockIDPrefix (VString bytes) u)
  /\ blockSize u' = blockSize u /\ fileSize u' = fileSize u
  /\ totalBlocks u' = totalBlocks u
  /\ forall n, block_from u' n = block_from u n /\ block_to u' n = block_to u n.
Proof.
  intros He.
  destruct (encoded_start isRunningOnWeb u C u' He) as (Es & Et & _).
  split; [exact Es|]. split; [intros schedule s; now apply encoded_run|].
  split; [intros n; now apply encoded_blockID|].
  split.
  { intros ->. unfold App.encoded in He.
    destruct (to_string (blockIDPrefix u)); [now injection He|discriminate He]. }
  split; [intros prefix bytes -> Hp Hb; unfold App.encoded in He; rewrite Hp, Hb in He;
          now injection He|].
  destruct (encoded_upload isRunningOnWeb u u' He) as [prefix ->]. now repeat split.
Qed.

(** The upload of 10 bytes in the browser with a prefix that ends in
    U+00E9: [platforms_agree] applies; the run in which block 1 cannot be
    read is that of the upload with the prefix as four bytes. *)
Lemma platforms_agree_example :
  App.encoded true (web_upload prefix_latin1)
  = Some (with_blockIDPrefix (VString ("caf" +:+ String "233" EmptyString))
                             (web_upload prefix_latin1))
  /\ forall s,
      App.run true (web_upload prefix_latin1) failing_collaborators VUndefined
              failing_schedule s
      = run (with_blockIDPrefix (VString ("caf" +:+ String "233" EmptyString))
                                (web_upload prefix_latin1))
            failing_collaborators VUndefined failing_schedule s.
Proof.
  split; [reflexivity|]. intros s.
  now destruct (platforms_agree true (web_upload prefix_latin1) _ failing_collaborators
                  VUndefined eq_refl) as (_ & Hrun & _).
Defined.
